(** * Wudao-Model: the Transformer-XL pretraining loop, its batching masks,
      sampling, vocabulary padding and the CogView dataset padding.

    Shallow embedding of
      - [Transformer-XL/pretrain_gpt2.py]
      - [Transformer-XL/generate_samples.py]
      - [CogView/data_utils/datasets.py]
      - [CogView/model/gpt2_modeling.py]
      - [ProtTrans/pretrain/tasks/protein/secondary_structure.py]

    Conventions.
    - Python [int]s and int64 tensor cells are [Z]; [%] on ints is
      [Z.modulo] (both take the sign of the divisor).
    - An n-dimensional tensor is a nested list, outermost dimension first.
      Mask cells hold the values 0.0 and 1.0, which are written 0 and 1.
    - Framework calls (torch, mpu, deepspeed, apex, the data loaders) are
      parameters of the sections below. *)

From Stdlib Require Import ZArith QArith Lia Bool String.
From stdpp Require Import base list list_numbers sorting.

Local Open Scope Z_scope.

(** ** Errors raised by the Python code *)

Inductive exn :=
| IndexError
| RuntimeError
| ZeroDivisionError.

Inductive result (A : Type) :=
| Ok (a : A)
| Err (e : exn).
Arguments Ok {A} a.
Arguments Err {A} e.

(** How a run of a loop with fuel ends: with a value, by [exit()], by an
    exception, or with the fuel used up. *)
Inductive stop :=
| Exited
| Raised (e : exn)
| OutOfFuel.

Inductive outcome (A : Type) :=
| Ret (a : A)
| Stop (r : stop).
Arguments Ret {A} a.
Arguments Stop {A} r.

(** ** Tensors as nested lists *)

Module Tensor.

Abbreviation t2 := (list (list Z)).
Abbreviation t3 := (list (list (list Z))).
Abbreviation t4 := (list (list (list (list Z)))).

(** [torch.ones((r, c))] *)
Definition ones2 (r c : nat) : t2 := replicate r (replicate c 1).

(** [torch.ones((b, r, c))] *)
Definition ones3 (b r c : nat) : t3 := replicate b (ones2 r c).

(** [torch.triu(A, k)] on one matrix: cell (i, j) survives when
    [j - i >= k], the others become 0. *)
Definition triu2 (A : t2) (k : Z) : t2 :=
  imap (fun i row =>
          imap (fun j x => if k <=? Z.of_nat j - Z.of_nat i then x else 0) row) A.

(** [torch.tril(A, k)] on one matrix: cell (i, j) survives when
    [j - i <= k]. *)
Definition tril2 (A : t2) (k : Z) : t2 :=
  imap (fun i row =>
          imap (fun j x => if Z.of_nat j - Z.of_nat i <=? k then x else 0) row) A.

(** torch applies both to the last two dimensions of a batch. *)
Definition triu (A : t3) (k : Z) : t3 := (fun m => triu2 m k) <$> A.
Definition tril (A : t3) (k : Z) : t3 := (fun m => tril2 m k) <$> A.

(** [A.unsqueeze(1)] of a 3-d tensor. *)
Definition unsqueeze1 (A : t3) : t4 := (fun m => [m]) <$> A.

(** [torch.arange(n)] *)
Definition arange (n : nat) : list Z := Z.of_nat <$> seq 0 n.

(** [A[b, c, i, j]] *)
Definition get4 (A : t4) (b c i j : nat) : option Z :=
  match A !! b with
  | Some Ab =>
      match Ab !! c with
      | Some Abc =>
          match Abc !! i with
          | Some row => row !! j
          | None => None
          end
      | None => None
      end
  | None => None
  end.

(** [A.view(-1)] of a 2-d tensor. *)
Definition flatten (A : t2) : list Z := concat A.

End Tensor.

(** ** [get_masks_and_position_ids]
    (the same text in pretrain_gpt2.py and generate_samples.py) *)

Module Masks.
Import Tensor.

(** [batch_size, seq_length = data.size()]; a tensor with no row is read
    as having no column. *)
Definition batch_size (data : t2) : nat := length data.
Definition seq_length (data : t2) : nat := length (default [] (head data)).

(** [loss_mask[data == eod_token] = 0.0], for a [loss_mask] of the shape
    of [data]. *)
Definition zero_at_eod (eod_token : Z) (data loss_mask : t2) : t2 :=
  zip_with (zip_with (fun d m => if d =? eod_token then 0 else m)) data loss_mask.

(** [position_ids[b, data[b] == eod_token]] *)
Definition eod_index (eod_token : Z) (ids_b data_b : list Z) : list Z :=
  fst <$> filter (fun p => snd p = eod_token) (zip ids_b data_b).

(** [M[(i+1):, :(i+1)] = 0] on one matrix. *)
Definition zero_block (i : Z) (M : t2) : t2 :=
  imap (fun r row =>
          if i + 1 <=? Z.of_nat r
          then imap (fun c x => if Z.of_nat c <? i + 1 then 0 else x) row
          else row) M.

(** [attention_mask[b, 0, (i+1):, :(i+1)] = 0]; indexing a batch (or
    channel) that is not there raises. *)
Definition mask_after (b : nat) (i : Z) (A : t4) : result t4 :=
  match A !! b with
  | Some (m :: chans) => Ok (<[b := zero_block i m :: chans]> A)
  | _ => Err IndexError
  end.

(** [ids[(i+1):] -= d] on one row. *)
Definition shift_after (i d : Z) (ids : list Z) : list Z :=
  imap (fun t p => if i + 1 <=? Z.of_nat t then p - d else p) ids.

(** The loop over the EOD indices of batch row [b]. *)
Fixpoint eod_loop (reset_position_ids reset_attention_mask : bool) (b : nat)
    (eods : list Z) (prev_index : Z) (A : t4) (ids_b : list Z)
  : result (t4 * list Z) :=
  match eods with
  | [] => Ok (A, ids_b)
  | i :: eods' =>
      match (if reset_attention_mask then mask_after b i A else Ok A) with
      | Err e => Err e
      | Ok A' =>
          if reset_position_ids
          then eod_loop reset_position_ids reset_attention_mask b eods' (i + 1)
                 A' (shift_after i (i + 1 - prev_index) ids_b)
          else eod_loop reset_position_ids reset_attention_mask b eods' prev_index
                 A' ids_b
      end
  end.

(** The loop [for b in range(batch_size)]; [done] are the rows of
    [position_ids] already processed, [todo] the remaining rows with
    their data. *)
Fixpoint batch_loop (eod_token : Z) (reset_position_ids reset_attention_mask : bool)
    (b : nat) (todo : list (list Z * list Z)) (A : t4) (done : list (list Z))
  : result (t4 * list (list Z)) :=
  match todo with
  | [] => Ok (A, done)
  | (ids_b, data_b) :: todo' =>
      match eod_loop reset_position_ids reset_attention_mask b
              (eod_index eod_token ids_b data_b) 0 A ids_b with
      | Err e => Err e
      | Ok (A', ids_b') =>
          batch_loop eod_token reset_position_ids reset_attention_mask (S b)
            todo' A' (done ++ [ids_b'])
      end
  end.

Definition get_masks_and_position_ids
    (data : t2) (eod_token : Z)
    (reset_position_ids reset_attention_mask : bool)
    (loss_mask : option t2) (attention_mask : option t3)
    (transformer_xl : bool) (mem_length : Z)
  : result (t4 * t2 * t2) :=
  let batch_size := batch_size data in
  let seq_length := seq_length data in
  (* Attention mask (lower triangular). *)
  let attention_mask3 : result t3 :=
    if transformer_xl then
      match
        match attention_mask with
        | Some A => Ok A
        | None =>
            if Z.of_nat seq_length + mem_length <? 0 then Err RuntimeError
            else Ok (ones3 1 seq_length (Z.to_nat (Z.of_nat seq_length + mem_length)))
        end
      with
      | Err e => Err e
      | Ok A => Ok (tril (triu A (1 - Z.of_nat seq_length + mem_length)) mem_length)
      end
    else
      let att_mask_batch := if reset_attention_mask then batch_size else 1%nat in
      let A := match attention_mask with
               | Some A => A
               | None => ones3 att_mask_batch seq_length seq_length
               end in
      Ok (tril A 0)
  in
  match attention_mask3 with
  | Err e => Err e
  | Ok A3 =>
      let attention_mask := unsqueeze1 A3 in
      (* Loss mask. *)
      let loss_mask := match loss_mask with
                       | Some m => m
                       | None => ones2 batch_size seq_length
                       end in
      (* Position ids. *)
      let position_ids := replicate batch_size (arange seq_length) in
      if negb transformer_xl then
        let loss_mask := zero_at_eod eod_token data loss_mask in
        if reset_position_ids || reset_attention_mask then
          match batch_loop eod_token reset_position_ids reset_attention_mask 0
                  (zip position_ids data) attention_mask [] with
          | Err e => Err e
          | Ok (attention_mask, position_ids) =>
              Ok (attention_mask, loss_mask, position_ids)
          end
        else Ok (attention_mask, loss_mask, position_ids)
      else Ok (attention_mask, loss_mask, position_ids)
  end.

End Masks.

(** ** [get_masks_and_position_ids] does not raise on the arguments that
    [get_batch] of pretrain_gpt2.py passes *)

Section MasksTotal.
Import Tensor Masks.

(** Every batch below [n] has a first channel. *)
Definition has_channels (n : nat) (A : t4) : Prop :=
  ∀ b, (b < n)%nat → ∃ m chans, A !! b = Some (m :: chans).

Lemma mask_after_ok n b i A :
  has_channels n A → (b < n)%nat →
  ∃ A', mask_after b i A = Ok A' ∧ has_channels n A'.
Proof.
  intros Hwf Hb. destruct (Hwf b Hb) as (m & chans & Hlk).
  unfold mask_after. rewrite Hlk. eexists. split; [reflexivity|].
  intros b' Hb'. destruct (decide (b' = b)) as [->|Hne].
  - rewrite list_lookup_insert_eq; [eauto|]. by eapply lookup_lt_Some.
  - rewrite list_lookup_insert_ne by done. by apply Hwf.
Qed.

Lemma eod_loop_ok n rp ra b eods prev A ids :
  (ra = true → has_channels n A) → (b < n)%nat →
  ∃ A' ids', eod_loop rp ra b eods prev A ids = Ok (A', ids')
             ∧ (ra = true → has_channels n A').
Proof.
  revert prev A ids. induction eods as [|i eods IH]; intros prev A ids Hwf Hb.
  - simpl. eauto.
  - simpl. destruct ra.
    + destruct (mask_after_ok n b i A (Hwf eq_refl) Hb) as (A' & -> & Hwf').
      destruct rp; apply IH; auto.
    + destruct rp; apply IH; auto.
Qed.

Lemma batch_loop_ok n eod rp ra b todo A done :
  (ra = true → has_channels n A) → (b + length todo <= n)%nat →
  ∃ r, batch_loop eod rp ra b todo A done = Ok r.
Proof.
  revert b A done. induction todo as [|[ids_b data_b] todo IH]; intros b A done Hwf Hb.
  - simpl. eauto.
  - simpl in *.
    destruct (eod_loop_ok n rp ra b (eod_index eod ids_b data_b) 0 A ids_b Hwf)
      as (A' & ids' & -> & Hwf'); [lia|].
    apply IH; [exact Hwf'|lia].
Qed.

Lemma unsqueeze_ones_channels B S k :
  has_channels B (unsqueeze1 (tril (ones3 B S S) k)).
Proof.
  intros b Hb. unfold unsqueeze1, tril, ones3.
  rewrite !list_lookup_fmap, lookup_replicate_2 by done. simpl. eauto.
Qed.

Lemma get_masks_non_xl_ok data eod rp ra lm M :
  ∃ r, get_masks_and_position_ids data eod rp ra lm None false M = Ok r.
Proof.
  unfold get_masks_and_position_ids. cbn [negb].
  destruct (rp || ra) eqn:E; [|eauto].
  edestruct (batch_loop_ok (batch_size data) eod rp ra 0) as [[A' ids'] ->]; [| |eauto].
  - intros ->. apply unsqueeze_ones_channels.
  - rewrite length_zip_with, length_replicate. unfold batch_size. lia.
Qed.

Lemma get_masks_xl_given_ok data eod rp ra lm am M :
  ∃ r, get_masks_and_position_ids data eod rp ra lm (Some am) true M = Ok r.
Proof. unfold get_masks_and_position_ids. cbn [negb]. eauto. Qed.

End MasksTotal.

(** ** The Transformer-XL attention mask *)

Section XLMask.
Import Tensor Masks.

Lemma lookup_ones2 r c i j :
  (i < r)%nat → (j < c)%nat →
  ones2 r c !! i = Some (replicate c 1) ∧ replicate c 1 !! j = Some 1.
Proof.
  intros Hi Hj. unfold ones2. split; by apply lookup_replicate_2.
Qed.

Lemma triu2_lookup A k i row :
  A !! i = Some row →
  triu2 A k !! i
  = Some (imap (fun j x => if k <=? Z.of_nat j - Z.of_nat i then x else 0) row).
Proof. intros H. unfold triu2. by rewrite list_lookup_imap, H. Qed.

Lemma tril2_lookup A k i row :
  A !! i = Some row →
  tril2 A k !! i
  = Some (imap (fun j x => if Z.of_nat j - Z.of_nat i <=? k then x else 0) row).
Proof. intros H. unfold tril2. by rewrite list_lookup_imap, H. Qed.

(** The band that [tril (triu ones (1 - S + M)) M] leaves. *)
Definition in_band (S : nat) (M : Z) (i j : nat) : bool :=
  (Z.of_nat i + M - Z.of_nat S + 1 <=? Z.of_nat j) && (Z.of_nat j <=? Z.of_nat i + M).

Lemma band_cell (S C : nat) (M : Z) i j :
  (i < S)%nat → (j < C)%nat →
  get4 (unsqueeze1 (tril (triu (ones3 1 S C) (1 - Z.of_nat S + M)) M)) 0 0 i j
  = Some (if in_band S M i j then 1 else 0).
Proof.
  intros Hi Hj.
  destruct (lookup_ones2 S C i j Hi Hj) as [Hrow Hcell].
  unfold get4, unsqueeze1, tril, triu, ones3. simpl.
  erewrite tril2_lookup; [|erewrite triu2_lookup; [reflexivity|exact Hrow]].
  rewrite !list_lookup_imap, Hcell. simpl.
  unfold in_band.
  destruct (1 - Z.of_nat S + M <=? Z.of_nat j - Z.of_nat i) eqn:E1;
    destruct (Z.of_nat j - Z.of_nat i <=? M) eqn:E2;
    destruct (Z.of_nat i + M - Z.of_nat S + 1 <=? Z.of_nat j) eqn:E3;
    destruct (Z.of_nat j <=? Z.of_nat i + M) eqn:E4; simpl; try reflexivity;
    exfalso; lia.
Qed.

Lemma band_rows (S C : nat) (M k : Z) :
  ∃ rows, unsqueeze1 (tril (triu (ones3 1 S C) k) M) = [[rows]]
          ∧ length rows = S ∧ Forall (fun row => length row = C) rows.
Proof.
  eexists. split; [reflexivity|]. split.
  - unfold tril2, triu2, ones2. by rewrite !length_imap, length_replicate.
  - apply Forall_forall. intros row Hin.
    apply list_elem_of_lookup in Hin as [i Hi].
    unfold tril2, triu2 in Hi. rewrite !list_lookup_imap in Hi.
    destruct (ones2 S C !! i) as [r0|] eqn:E; simpl in Hi; [|done].
    inversion Hi; subst. rewrite !length_imap.
    unfold ones2 in E. apply lookup_replicate in E as [-> _].
    by rewrite length_replicate.
Qed.

(** C2 (as amended): with [transformer_xl=True] and no attention mask
    given, the returned mask has shape (1, 1, S, S + M) and its cell
    (0, 0, i, j) is 1 exactly when [i + M - S + 1 <= j <= i + M]: query
    [i] sees itself, every earlier position of the current segment and
    the [S - 1 - i] most recent memory positions, and no later position. *)
Theorem xl_attention_mask_window
    (data : t2) (eod_token : Z) (rp ra : bool) (lm : option t2) (M : Z) :
  let S := seq_length data in
  0 <= Z.of_nat S + M →
  ∃ rows lmask ids,
    get_masks_and_position_ids data eod_token rp ra lm None true M
    = Ok ([[rows]], lmask, ids)
    ∧ length rows = S
    ∧ Forall (fun row => length row = Z.to_nat (Z.of_nat S + M)) rows
    ∧ ∀ i j, (i < S)%nat → (j < Z.to_nat (Z.of_nat S + M))%nat →
             get4 [[rows]] 0 0 i j = Some (if in_band S M i j then 1 else 0).
Proof.
  intros S HM. unfold get_masks_and_position_ids. fold S.
  destruct (Z.of_nat S + M <? 0) eqn:E; [lia|]. cbn [negb].
  destruct (band_rows S (Z.to_nat (Z.of_nat S + M)) M (1 - Z.of_nat S + M))
    as (rows & Hrows & Hlen & Hall).
  exists rows. do 2 eexists. rewrite Hrows.
  split; [reflexivity|]. split; [exact Hlen|]. split; [exact Hall|].
  intros i j Hi Hj. rewrite <- Hrows. by apply band_cell.
Qed.

Lemma xl_attention_mask_window_witness :
  ∃ rows lmask ids,
    get_masks_and_position_ids [[7; 8; 9]] 0 false false None None true 2
    = Ok ([[rows]], lmask, ids)
    ∧ length rows = 3%nat
    ∧ Forall (fun row => length row = 5%nat) rows
    ∧ ∀ i j, (i < 3)%nat → (j < 5)%nat →
             get4 [[rows]] 0 0 i j = Some (if in_band 3 2 i j then 1 else 0).
Proof.
  apply (xl_attention_mask_window [[7; 8; 9]] 0 false false None 2).
  simpl. lia.
Defined.

(** C2 as written fails: with a segment of two tokens and one memory
    position, the last query does not see the memory position. *)
Lemma xl_mask_hides_old_memory :
  ¬ (∀ (data : t2) (M : Z) att lmask ids,
        0 <= M →
        get_masks_and_position_ids data 0 false false None None true M
        = Ok (att, lmask, ids) →
        ∀ i j, (i < seq_length data)%nat → Z.of_nat j < M →
               get4 att 0 0 i j = Some 1).
Proof.
  intros H.
  assert (Hq : (1 < seq_length [[7; 8]%Z])%nat) by (unfold seq_length; simpl; lia).
  specialize (H [[7; 8]] 1 _ _ _ ltac:(lia) eq_refl 1%nat 0%nat Hq ltac:(lia)).
  vm_compute in H. discriminate H.
Qed.

End XLMask.

(** ** Floating-point values

    A float is a rational or a non-finite value; rounding is not modelled.
    Dividing by zero gives a non-finite value (torch division does not
    raise). *)

Module Float.

Inductive float :=
| Finite (q : Q)
| NaN.

Definition of_Z (z : Z) : float := Finite (inject_Z z).

Definition fadd (x y : float) : float :=
  match x, y with
  | Finite a, Finite b => Finite (a + b)
  | _, _ => NaN
  end.

Definition fmul (x y : float) : float :=
  match x, y with
  | Finite a, Finite b => Finite (a * b)
  | _, _ => NaN
  end.

Definition fdiv (x y : float) : float :=
  match x, y with
  | Finite a, Finite b => if Qeq_bool b 0 then NaN else Finite (a / b)
  | _, _ => NaN
  end.

(** [torch.sum] of a flat tensor. *)
Definition fsum (l : list float) : float := fold_left fadd l (Finite 0).

(** [torch.sum(losses.view(-1) * loss_mask) / loss_mask.sum()] with
    [loss_mask] already flattened. *)
Definition masked_mean (losses : list float) (loss_mask : list Z) : float :=
  let loss_mask := of_Z <$> loss_mask in
  fdiv (fsum (zip_with fmul losses loss_mask)) (fsum loss_mask).

End Float.

Section MaskedMean.
Import Tensor Masks Float.

Definition zsum (l : list Z) : Z := fold_right Z.add 0 l.

Lemma fsum_of_Z_from (mask : list Z) (acc : Q) :
  ∃ q, fold_left fadd (of_Z <$> mask) (Finite acc) = Finite q
       ∧ (q == acc + inject_Z (zsum mask))%Q.
Proof.
  revert acc. induction mask as [|m mask IH]; intros acc; simpl.
  - exists acc. split; [reflexivity|]. unfold inject_Z. ring.
  - destruct (IH (acc + inject_Z m)%Q) as (q & Hq & Heq).
    exists q. split; [exact Hq|].
    rewrite Heq, inject_Z_plus. ring.
Qed.

Lemma zsum_nonneg (mask : list Z) :
  Forall (fun m => 0 <= m) mask → 0 <= zsum mask.
Proof. induction 1; simpl; lia. Qed.

Lemma zsum_pos (mask : list Z) :
  Forall (fun m => 0 <= m) mask → Exists (fun m => m ≠ 0) mask → 0 < zsum mask.
Proof.
  induction 1 as [|m mask Hm Hall IH]; intros Hex.
  - inversion Hex.
  - simpl. pose proof (zsum_nonneg mask Hall).
    inversion Hex; subst; [lia|]. specialize (IH ltac:(assumption)). lia.
Qed.

Lemma zero_at_eod_nonzero eod (data lm : t2) b t m :
  zero_at_eod eod data lm !! b ≫= (.!! t) = Some m → m ≠ 0 →
  ∃ d, data !! b ≫= (.!! t) = Some d ∧ d ≠ eod ∧ lm !! b ≫= (.!! t) = Some m.
Proof.
  unfold zero_at_eod. intros H Hm.
  destruct (zip_with _ data lm !! b) as [row|] eqn:Er; [|done].
  simpl in H.
  apply lookup_zip_with_Some in Er as (drow & mrow & -> & Ed & Em).
  apply lookup_zip_with_Some in H as (d & m0 & -> & Hd & Hm0).
  exists d. rewrite Ed, Em. simpl.
  destruct (d =? eod) eqn:E; [done|]. split; [exact Hd|].
  split; [lia|exact Hm0].
Qed.

Lemma non_xl_loss_mask data eod rp ra lm am M att lmask ids :
  get_masks_and_position_ids data eod rp ra (Some lm) am false M
  = Ok (att, lmask, ids) →
  lmask = zero_at_eod eod data lm.
Proof.
  unfold get_masks_and_position_ids. cbn [negb].
  destruct (rp || ra).
  - destruct (batch_loop _ _ _ _ _ _ _) as [[A' ids']|e]; [|discriminate].
    intros H. by inversion H.
  - intros H. by inversion H.
Qed.

Lemma flatten_nonzero_cell (A : t2) :
  Exists (fun m => m ≠ 0) (flatten A) →
  ∃ b t m, A !! b ≫= (.!! t) = Some m ∧ m ≠ 0.
Proof.
  rewrite Exists_exists. intros (m & Hin & Hm).
  apply list_elem_of_In, in_concat in Hin as (row & Hrow%list_elem_of_In & Hm_row%list_elem_of_In).
  apply list_elem_of_lookup in Hrow as [b Hb].
  apply list_elem_of_lookup in Hm_row as [t Ht].
  exists b, t, m. rewrite Hb. simpl. by split.
Qed.

(** C8: when the loss mask that [forward_step] divides by has no
    negative cell and a nonzero one, [loss_mask.sum()] is finite and
    nonzero and the quotient is the finite value [num / den]; outside
    Transformer-XL mode the mask is zero at every EOD token, so such a
    batch has a token that is not the EOD token. *)
Theorem masked_mean_division_defined
    (data : t2) (eod_token : Z) (rp ra : bool) (lm : t2) (am : option t3)
    (xl : bool) (M : Z) att (lmask : t2) ids (losses : list float) :
  get_masks_and_position_ids data eod_token rp ra (Some lm) am xl M
  = Ok (att, lmask, ids) →
  Forall (fun m => 0 <= m) (flatten lmask) →
  Exists (fun m => m ≠ 0) (flatten lmask) →
  (∃ den, fsum (of_Z <$> flatten lmask) = Finite den
          ∧ ¬ (den == 0)%Q
          ∧ ∀ num, fsum (zip_with fmul losses (of_Z <$> flatten lmask)) = Finite num →
                   masked_mean losses (flatten lmask) = Finite (num / den))
  ∧ (xl = false →
     (∀ b t, data !! b ≫= (.!! t) = Some eod_token →
             ∀ m, lmask !! b ≫= (.!! t) = Some m → m = 0)
     ∧ ∃ b t d, data !! b ≫= (.!! t) = Some d ∧ d ≠ eod_token).
Proof.
  intros Hget Hnonneg Hex. split.
  - destruct (fsum_of_Z_from (flatten lmask) 0) as (den & Hden & Heq).
    pose proof (zsum_pos _ Hnonneg Hex) as Hpos.
    assert (Hne : ¬ (den == 0)%Q).
    { rewrite Heq, Qplus_0_l. intros H0.
      unfold Qeq, inject_Z in H0. simpl in H0. lia. }
    exists den. split; [exact Hden|]. split; [exact Hne|].
    intros num Hnum. unfold masked_mean. fold (fsum (of_Z <$> flatten lmask)).
    unfold fsum at 2. rewrite Hnum. unfold fsum. rewrite Hden. simpl.
    destruct (Qeq_bool den 0) eqn:E; [|reflexivity].
    apply Qeq_bool_iff in E. contradiction.
  - intros ->. apply non_xl_loss_mask in Hget. subst lmask. split.
    + intros b t Hd m Hm.
      destruct (Z.eq_dec m 0) as [|Hm0]; [assumption|].
      destruct (zero_at_eod_nonzero _ _ _ _ _ _ Hm Hm0) as (d & Hd' & Hne & _).
      congruence.
    + destruct (flatten_nonzero_cell _ Hex) as (b & t & m & Hm & Hm0).
      destruct (zero_at_eod_nonzero _ _ _ _ _ _ Hm Hm0) as (d & Hd & Hne & _).
      by exists b, t, d.
Qed.

Lemma masked_mean_division_defined_witness :
  (∃ den, fsum (of_Z <$> flatten [[1; 0; 1]]) = Finite den
          ∧ ¬ (den == 0)%Q
          ∧ ∀ num, fsum (zip_with fmul [Finite 2; Finite 5; Finite 4]
                           (of_Z <$> flatten [[1; 0; 1]])) = Finite num →
                   masked_mean [Finite 2; Finite 5; Finite 4] (flatten [[1; 0; 1]])
                   = Finite (num / den))
  ∧ (false = false →
     (∀ b t, [[7; 0; 9]] !! b ≫= (.!! t) = Some 0 →
             ∀ m, [[1; 0; 1]] !! b ≫= (.!! t) = Some m → m = 0)
     ∧ ∃ b t d, [[7; 0; 9]] !! b ≫= (.!! t) = Some d ∧ d ≠ 0).
Proof.
  apply (masked_mean_division_defined [[7; 0; 9]] 0 false false [[1; 1; 1]]
           None false 0 [[[[1; 0; 0]; [1; 1; 0]; [1; 1; 1]]]] [[1; 0; 1]]
           [[0; 1; 2]] [Finite 2; Finite 5; Finite 4]).
  - reflexivity.
  - simpl. repeat constructor; lia.
  - simpl. constructor. lia.
Defined.

End MaskedMean.

(** ** The training program of pretrain_gpt2.py *)

Module Pretrain.
Import Tensor Masks Float.

(** [USE_TORCH_DDP = True] at the top of the file. *)
Definition USE_TORCH_DDP : bool := true.

(** The fields of [args] that the training program reads.
    [args.iteration] is assigned during training and lives in the state. *)
Record Args := {
  fp16 : bool;
  deepspeed : bool;
  deepspeed_activation_checkpointing : bool;
  clip_grad : Q;
  world_size : Z;
  train_iters : Z;
  eval_iters : Z;
  log_interval : Z;
  save_interval : Z;
  eval_interval : Z;
  exit_interval : option Z;
  save : option string;
  do_train : bool;
  do_valid : bool;
  do_test : bool;
  xl_dataset : bool;
  mem_length : Z;
  eod_token : Z;
  reset_position_ids : bool;
  reset_attention_mask : bool
}.

(** Python truthiness of [args.save] (a path or [None]) and of an
    integer option that may be [None]. *)
Definition truthy_str (s : option string) : bool :=
  match s with
  | Some s => negb (String.eqb s EmptyString)
  | None => false
  end.

Definition truthy_int (z : option Z) : bool :=
  match z with
  | Some z => negb (z =? 0)
  | None => false
  end.

(** The three data iterators that [main] builds. *)
Inductive iterator := TrainData | ValData | TestData.

(** The dictionary that [mpu.broadcast_data] returns; [target] and
    [attention_mask] are only read when [args.xl_dataset] is set. *)
Record batch_data := {
  text : t2;
  target : t2;
  loss_mask : t2;
  attention_mask : t3
}.

(** Which call runs the backward pass. *)
Inductive backward_via := ByLoss | ByOptimizer | ByEngine.

Section Framework.

(** The state of the framework (parameters, gradients, optimizer,
    scheduler, data loaders, the other ranks) and the type of
    activations (logits and memories). *)
Variable World : Type.
Variable Act : Type.

(** The calls into the framework, in the order the program makes them.
    The timers, the query [torch.distributed.get_rank()] and what the
    program prints itself are not recorded. *)
Inductive event :=
| ModelTrain                                        (* model.train() *)
| ModelEval                                         (* model.eval() *)
| NextBatch (it : iterator)                         (* next(data_iterator), broadcast_data *)
| ModelCall (mems : list Act) (logits : Act) (new_mems : list Act)
| ZeroGrad                                          (* optimizer.zero_grad() *)
| Backward (via : backward_via) (loss : float)
| AllReduceLoss (local total : float)               (* torch.distributed.all_reduce *)
| AllReduceParams                                   (* model.allreduce_params *)
| UpdateMasterGrads                                 (* optimizer.update_master_grads() *)
| ClipGradNorm (max_norm : Q)                       (* mpu.clip_grad_norm *)
| ClipMasterGrads (max_norm : Q)                    (* optimizer.clip_master_grads *)
| IsBoundary (b : bool)                             (* model.is_gradient_accumulation_boundary() *)
| ModelStep                                         (* model.step() *)
| OptimizerStep                                     (* optimizer.step() *)
| ReadOverflow (b : bool)                           (* optimizer.overflow *)
| LrSchedulerStep                                   (* lr_scheduler.step() *)
| ReportIteration (avg_lm_loss : float) (step : Z)  (* report_iteration_metrics *)
| ReportMemory (step : Z)                           (* report_memory *)
| SaveCheckpoint (iteration : Z)                    (* save_checkpoint *)
| CheckpointingReset                                (* deepspeed.checkpointing.reset() *)
| ReportEvaluate (lm_loss : float)                  (* report_evaluate_metrics *)
| Barrier.                                          (* torch.distributed.barrier() *)

(** What the framework does and answers.  Every call returns: an
    exhausted data iterator or a failing collective is not modelled.
    [model_forward] gives the first output of the model (the logits) and
    the outputs after it; [peer_losses] are the losses that the other
    ranks bring to the all-reduce. *)
Variable exec : event → World → World.
Variable broadcast_data : iterator → World → batch_data.
Variable model_forward : World → t2 → t2 → t4 → list Act → Act * list Act.
Variable vocab_parallel_cross_entropy : Act → t2 → list float.
Variable peer_losses : World → list float.
Variable is_gradient_accumulation_boundary : World → bool.
Variable overflow : World → bool.
Variable model_is_DDP : bool.

Variable args : Args.

(** One-element loss tensors live in a store, so that a view and an
    in-place all-reduce act on the storage they share. *)
Record state := {
  world : World;
  tensors : list float;
  iteration : Z
}.

Definition M (A : Type) : Type := state → outcome A * state * list event.

Definition ret {A} (a : A) : M A := fun s => (Ret a, s, []).

Definition bind {A B} (m : M A) (f : A → M B) : M B :=
  fun s =>
    match m s with
    | (Ret a, s1, ev1) =>
        match f a s1 with
        | (o, s2, ev2) => (o, s2, ev1 ++ ev2)
        end
    | (Stop r, s1, ev1) => (Stop r, s1, ev1)
    end.

Definition halt {A} (r : stop) : M A := fun s => (Stop r, s, []).

Definition emit (e : event) : M unit :=
  fun s => (Ret tt,
            {| world := exec e (world s); tensors := tensors s; iteration := iteration s |},
            [e]).

Definition ask {A} (q : World → A) : M A := fun s => (Ret (q (world s)), s, []).

Definition when (b : bool) (m : M unit) : M unit := if b then m else ret tt.

Definition get_iteration : M Z := fun s => (Ret (iteration s), s, []).

Definition set_iteration (i : Z) : M unit :=
  fun s => (Ret tt, {| world := world s; tensors := tensors s; iteration := i |}, []).

(** A new tensor, the value of a tensor, an in-place write. *)
Definition alloc (v : float) : M nat :=
  fun s => (Ret (length (tensors s)),
            {| world := world s; tensors := tensors s ++ [v]; iteration := iteration s |},
            []).

Definition read (l : nat) : M float :=
  fun s => (Ret (default NaN (tensors s !! l)), s, []).

Definition write (l : nat) (v : float) : M unit :=
  fun s => (Ret tt,
            {| world := world s; tensors := <[l := v]> (tensors s); iteration := iteration s |},
            []).

Notation "'do' x <- m ; k" := (bind m (fun x => k))
  (at level 10, x name, m at level 100, k at level 200, only parsing).
Notation "'do' ' p <- m ; k" := (bind m (fun a => let 'p := a in k))
  (at level 10, p strict pattern, m at level 100, k at level 200, only parsing).
Notation "'run' m ; k" := (bind m (fun _ => k))
  (at level 10, m at level 100, k at level 200, only parsing).

(** *** [get_batch] *)
Definition get_batch (data_iterator : iterator)
  : M (t2 * t2 * t2 * t4 * t2) :=
  do data_b <- ask (broadcast_data data_iterator);
  run emit (NextBatch data_iterator);
  (* Unpack. *)
  let '(tokens, labels, attention_mask, loss_mask) :=
    if xl_dataset args then
      (text data_b, target data_b, Some (attention_mask data_b), loss_mask data_b)
    else
      let tokens_ := text data_b in
      (* tokens_[:, :-1], tokens_[:, 1:], loss_mask[:, 1:] *)
      ((fun row => take (length row - 1) row) <$> tokens_,
       drop 1 <$> tokens_,
       None,
       drop 1 <$> loss_mask data_b)
  in
  (* Get the masks and postition ids. *)
  match get_masks_and_position_ids tokens (eod_token args)
          (reset_position_ids args) (reset_attention_mask args)
          (Some loss_mask) attention_mask (xl_dataset args) (mem_length args) with
  | Err e => halt (Raised e)
  | Ok (attention_mask, loss_mask, position_ids) =>
      (* attention_mask.half() keeps the 0/1 cells *)
      ret (tokens, labels, loss_mask, attention_mask, position_ids)
  end.

(** *** [forward_step]: returns the loss tensor and the new mems. *)
Definition forward_step (data_iterator : iterator) (mems : list Act)
  : M (nat * list Act) :=
  (* Get the batch. *)
  do '(tokens, labels, loss_mask, attention_mask, position_ids) <-
    get_batch data_iterator;
  (* Forward model: logits, *mems = model(tokens, position_ids, attention_mask, *mems) *)
  do '(logits, new_mems) <-
    ask (fun w => model_forward w tokens position_ids attention_mask mems);
  run emit (ModelCall mems logits new_mems);
  let mems := new_mems in
  let losses := vocab_parallel_cross_entropy logits labels in
  let loss_mask := flatten loss_mask in
  do loss <- alloc (masked_mean losses loss_mask);
  ret (loss, mems).

(** *** [backward_step]: returns the tensor [lm_loss_reduced]. *)
Definition backward_step (lm_loss : nat) : M nat :=
  (* Total loss. *)
  let loss := lm_loss in
  (* Backward pass. *)
  run (if deepspeed args then
         do v <- read loss; emit (Backward ByEngine v)
       else
         run emit ZeroGrad;
         do v <- read loss;
         if fp16 args then emit (Backward ByOptimizer v)
         else emit (Backward ByLoss v));
  (* lm_loss.view(1) shares the storage of lm_loss *)
  let reduced_losses := lm_loss in
  do reduced_losses <-
    (if deepspeed args then ret reduced_losses
     else
       (* all_reduce(reduced_losses.data) sums in place *)
       do local <- read reduced_losses;
       do peers <- ask peer_losses;
       let total := fsum (local :: peers) in
       run write reduced_losses total;
       run emit (AllReduceLoss local total);
       (* reduced_losses.data = reduced_losses.data / args.world_size *)
       do v <- read reduced_losses;
       do reduced_losses <- alloc (fdiv v (of_Z (world_size args)));
       run when (negb USE_TORCH_DDP) (emit AllReduceParams);
       ret reduced_losses);
  let lm_loss_reduced := reduced_losses in
  (* Update master gradients. *)
  run when (negb (deepspeed args))
        (run when (fp16 args) (emit UpdateMasterGrads);
         (* Clipping gradients helps prevent the exploding gradient. *)
         when (negb (Qle_bool (clip_grad args) 0))
           (if negb (fp16 args) then emit (ClipGradNorm (clip_grad args))
            else emit (ClipMasterGrads (clip_grad args))));
  ret lm_loss_reduced.

(** [if not (args.fp16 and optimizer.overflow): lr_scheduler.step()
     else: skipped_iter = 1]; returns [skipped_iter]. *)
Definition update_learning_rate : M Z :=
  do skip <- (if fp16 args then
                do b <- ask overflow;
                run emit (ReadOverflow b);
                ret b
              else ret false);
  if negb skip then run emit LrSchedulerStep; ret 0
  else ret 1.

(** The block "Update parameters" of [train_step]; returns
    [(skipped_iter, complete)]. *)
Definition update_parameters : M (Z * bool) :=
  if deepspeed args then
    do boundary <- ask is_gradient_accumulation_boundary;
    run emit (IsBoundary boundary);
    if boundary then
      run emit ModelStep;
      do skipped_iter <- update_learning_rate;
      ret (skipped_iter, true)
    else
      run emit ModelStep;
      ret (0, false)
  else
    run emit OptimizerStep;
    (* Update learning rate. *)
    do skipped_iter <- update_learning_rate;
    ret (skipped_iter, true).

(** *** [train_step]; [fuel] bounds the passes of [while True]. *)
Fixpoint train_step (fuel : nat) (data_iterator : iterator) (mems : list Act)
  : M (nat * Z * list Act) :=
  match fuel with
  | O => halt OutOfFuel
  | S fuel =>
      (* Forward model for one step. *)
      do '(lm_loss, mems) <- forward_step data_iterator mems;
      (* Calculate gradients, reduce across processes, and clip. *)
      do lm_loss_reduced <- backward_step lm_loss;
      (* Update parameters. *)
      do '(skipped_iter, complete) <- update_parameters;
      if complete then ret (lm_loss_reduced, skipped_iter, mems)
      else train_step fuel data_iterator mems
  end.

(** *** [evaluate]: the loop, then the function. *)
Fixpoint evaluate_loop (fuel : nat) (data_iterator : iterator) (verbose : bool)
    (iteration : Z) (total_lm_loss : float) (mems : list Act) : M float :=
  match fuel with
  | O => halt OutOfFuel
  | S fuel =>
      if iteration <? eval_iters args then
        let iteration := iteration + 1 in
        run (if verbose then
               if log_interval args =? 0 then halt (Raised ZeroDivisionError)
               else ret tt
             else ret tt);
        (* Forward evaluation. *)
        do '(lm_loss, mems) <- forward_step data_iterator mems;
        run when (deepspeed args && deepspeed_activation_checkpointing args)
              (emit CheckpointingReset);
        (* Reduce across processes. *)
        do lm_loss <-
          (if model_is_DDP then
             do local <- read lm_loss;
             do peers <- ask peer_losses;
             let total := fsum (local :: peers) in
             run write lm_loss total;
             run emit (AllReduceLoss local total);
             do v <- read lm_loss;
             alloc (fdiv v (of_Z (world_size args)))
           else ret lm_loss);
        do v <- read lm_loss;
        let total_lm_loss := fadd total_lm_loss v in
        evaluate_loop fuel data_iterator verbose iteration total_lm_loss mems
      else ret total_lm_loss
  end.

Definition evaluate (fuel : nat) (data_iterator : iterator) (verbose : bool)
  : M float :=
  (* Turn on evaluation mode which disables dropout. *)
  run emit ModelEval;
  let total_lm_loss := Finite 0 in
  let mems := [] in
  do total_lm_loss <-
    evaluate_loop fuel data_iterator verbose 0 total_lm_loss mems;
  (* Move model back to the train mode. *)
  run emit ModelTrain;
  (* total_lm_loss /= args.eval_iters, on Python numbers *)
  if eval_iters args =? 0 then halt (Raised ZeroDivisionError)
  else ret (fdiv total_lm_loss (of_Z (eval_iters args))).

Definition evaluate_and_print_results (fuel : nat) (data_iterator : iterator)
    (verbose : bool) : M float :=
  do lm_loss <- evaluate fuel data_iterator verbose;
  run emit (ReportEvaluate lm_loss);
  ret lm_loss.

(** *** [train]: the body of the loop, the loop, then the function.
    [fuel] bounds the passes of the loop, [inner] those of the loops
    it calls.  The body returns the loop variables [total_lm_loss],
    [skipped_iters], [report_memory_flag] and [mems]. *)
Definition train_body (inner : nat) (total_lm_loss : float) (skipped_iters : Z)
    (report_memory_flag : bool) (mems : list Act)
  : M (float * Z * bool * list Act) :=
  do '(lm_loss, skipped_iter, mems) <- train_step inner TrainData mems;
  let skipped_iters := skipped_iters + skipped_iter in
  (* args.iteration += 1 *)
  do it <- get_iteration;
  run set_iteration (it + 1);
  (* Update losses. *)
  do v <- read lm_loss;
  let total_lm_loss := fadd total_lm_loss v in
  (* Logging. *)
  do it <- get_iteration;
  do '(total_lm_loss, report_memory_flag) <-
    (if log_interval args =? 0 then halt (Raised ZeroDivisionError)
     else if it mod log_interval args =? 0 then
       let avg_lm_loss := fdiv total_lm_loss (of_Z (log_interval args)) in
       run emit (ReportIteration avg_lm_loss it);
       run when report_memory_flag (emit (ReportMemory it));
       ret (Finite 0, false)
     else ret (total_lm_loss, report_memory_flag));
  (* Checkpointing *)
  run when (truthy_str (save args) && negb (save_interval args =? 0)
            && (it mod save_interval args =? 0))
        (emit (SaveCheckpoint it));
  (* Evaluation *)
  run when (negb (eval_interval args =? 0)
            && (it mod eval_interval args =? 0) && do_valid args)
        (do _ <- evaluate_and_print_results inner ValData false; ret tt);
  run when (truthy_int (exit_interval args)
            && (it mod default 0 (exit_interval args) =? 0))
        (run emit Barrier; halt Exited);
  ret (total_lm_loss, skipped_iters, report_memory_flag, mems).

Fixpoint train_loop (fuel inner : nat) (total_lm_loss : float) (skipped_iters : Z)
    (report_memory_flag : bool) (mems : list Act) : M (Z * Z) :=
  match fuel with
  | O => halt OutOfFuel
  | S fuel =>
      do it <- get_iteration;
      if it <? train_iters args then
        do '(total_lm_loss, skipped_iters, report_memory_flag, mems) <-
          train_body inner total_lm_loss skipped_iters report_memory_flag mems;
        train_loop fuel inner total_lm_loss skipped_iters report_memory_flag mems
      else
        do it <- get_iteration;
        ret (it, skipped_iters)
  end.

Definition train (fuel inner : nat) : M (Z * Z) :=
  (* Turn on training mode which enables dropout. *)
  run emit ModelTrain;
  (* Tracking loss. *)
  let total_lm_loss := Finite 0 in
  (* Iterations. *)
  let skipped_iters := 0 in
  let report_memory_flag := true in
  let mems := [] in
  train_loop fuel inner total_lm_loss skipped_iters report_memory_flag mems.

(** *** [main], from the point where the model, the optimizer, the
    data iterators and [args.iteration] have been set up. *)
Definition main (fuel inner : nat) : M unit :=
  let iteration := 0 in
  do iteration <-
    (if 0 <? train_iters args then
       do iteration <-
         (if do_train args then
            do '(iteration, skipped) <- train fuel inner;
            ret iteration
          else ret iteration);
       run when (do_valid args)
             (do _ <- evaluate_and_print_results inner ValData false; ret tt);
       ret iteration
     else ret iteration);
  run when (truthy_str (save args) && negb (iteration =? 0))
        (emit (SaveCheckpoint iteration));
  when (do_test args)
    (do _ <- evaluate_and_print_results inner TestData true; ret tt).

(** *** Reading a trace *)

Fixpoint count (p : event → bool) (ev : list event) : nat :=
  match ev with
  | [] => 0
  | e :: ev => (if p e then 1 else 0) + count p ev
  end.

Definition is_model_call (e : event) : bool :=
  match e with ModelCall _ _ _ => true | _ => false end.
Definition is_backward (e : event) : bool :=
  match e with Backward _ _ => true | _ => false end.
Definition is_optimizer_step (e : event) : bool :=
  match e with OptimizerStep => true | _ => false end.
Definition is_lr_step (e : event) : bool :=
  match e with LrSchedulerStep => true | _ => false end.
Definition is_overflow (e : event) : bool :=
  match e with ReadOverflow true => true | _ => false end.

(** The iterations for which a checkpoint was saved, in order. *)
Fixpoint saves (ev : list event) : list Z :=
  match ev with
  | [] => []
  | SaveCheckpoint i :: ev => i :: saves ev
  | _ :: ev => saves ev
  end.

(** A monitor for the memories.  It holds the memories that the next
    model call must receive and, inside an evaluation (between
    [model.eval()] and the next [model.train()]), the memories of the
    interrupted training loop. *)
Definition monitor : Type := list Act * option (list Act).

Definition mon_step (mu : monitor) (e : event) : monitor :=
  match e with
  | ModelCall _ _ new_mems => (new_mems, snd mu)
  | ModelEval => ([], Some (default (fst mu) (snd mu)))
  | ModelTrain => (default (fst mu) (snd mu), None)
  | _ => mu
  end.

Definition mon_ok (mu : monitor) (e : event) : Prop :=
  match e with
  | ModelCall mems _ _ => mems = fst mu
  | _ => True
  end.

Fixpoint threaded (mu : monitor) (ev : list event) : Prop :=
  match ev with
  | [] => True
  | e :: ev => mon_ok mu e ∧ threaded (mon_step mu e) ev
  end.

Definition mon_run (mu : monitor) (ev : list event) : monitor :=
  fold_left mon_step ev mu.

Definition is_mode (e : event) : bool :=
  match e with ModelEval | ModelTrain => true | _ => false end.

Definition is_monitored (e : event) : bool :=
  match e with
  | ModelCall _ _ _ | ModelEval | ModelTrain => true
  | _ => false
  end.

Lemma count_app p ev1 ev2 : count p (ev1 ++ ev2) = (count p ev1 + count p ev2)%nat.
Proof. induction ev1 as [|e ev1 IH]; simpl; [done|]. rewrite IH. lia. Qed.

Lemma saves_app ev1 ev2 : saves (ev1 ++ ev2) = saves ev1 ++ saves ev2.
Proof.
  induction ev1 as [|e ev1 IH]; simpl; [done|].
  destruct e; simpl; by rewrite ?IH.
Qed.

Lemma mon_run_app mu ev1 ev2 :
  mon_run mu (ev1 ++ ev2) = mon_run (mon_run mu ev1) ev2.
Proof. apply fold_left_app. Qed.

Lemma threaded_app mu ev1 ev2 :
  threaded mu (ev1 ++ ev2) ↔ threaded mu ev1 ∧ threaded (mon_run mu ev1) ev2.
Proof.
  revert mu. induction ev1 as [|e ev1 IH]; intros mu; simpl.
  - tauto.
  - rewrite IH. unfold mon_run. simpl. tauto.
Qed.

Lemma unmonitored_threaded mu ev :
  count is_monitored ev = 0%nat → threaded mu ev ∧ mon_run mu ev = mu.
Proof.
  induction ev as [|e ev IH]; simpl; [done|].
  destruct (is_monitored e) eqn:E; [discriminate|]. intros H.
  destruct (IH H) as [Ht Hr].
  assert (mon_step mu e = mu) as Hs by (destruct e; simpl in *; congruence).
  unfold mon_run in *. simpl. rewrite Hs.
  split; [|exact Hr]. split; [by destruct e|exact Ht].
Qed.

(** *** Taking a computation apart *)

Lemma bind_inv {A B} (m : M A) (f : A → M B) s o s' ev :
  bind m f s = (o, s', ev) →
  (∃ a s1 ev1 ev2, m s = (Ret a, s1, ev1) ∧ f a s1 = (o, s', ev2) ∧ ev = ev1 ++ ev2)
  ∨ (∃ r, m s = (Stop r, s', ev) ∧ o = Stop r).
Proof.
  unfold bind. destruct (m s) as [[[a|r] s1] ev1].
  - destruct (f a s1) as [[o2 s2] ev2] eqn:E. intros H. inversion H; subst.
    left. by exists a, s1, ev1, ev2.
  - intros H. inversion H; subst. right. by exists r.
Qed.

Lemma when_inv (b : bool) (m : M unit) s o s' ev :
  when b m s = (o, s', ev) →
  (b = true ∧ m s = (o, s', ev)) ∨ (b = false ∧ o = Ret tt ∧ s' = s ∧ ev = []).
Proof.
  destruct b; simpl; intros H; [by left|].
  right. unfold ret in H. by inversion H.
Qed.

(** The world after a trace. *)
Definition replay (ev : list event) (w : World) : World :=
  fold_left (fun w e => exec e w) ev w.

Lemma replay_app ev1 ev2 w : replay (ev1 ++ ev2) w = replay ev2 (replay ev1 w).
Proof. apply fold_left_app. Qed.

Ltac prim_inv H :=
  cbv beta delta [ret emit ask halt get_iteration set_iteration alloc read write] in H;
  inversion H; subst; clear H.

Ltac minv1 :=
  match goal with
  | H : bind _ _ _ = (_, _, _) |- _ =>
      let a := fresh "a" in
      let s1 := fresh "s" in
      let e1 := fresh "ev" in
      let e2 := fresh "ev" in
      let H1 := fresh "Hm" in
      let H2 := fresh "Hk" in
      let He := fresh "He" in
      let r := fresh "r" in
      apply bind_inv in H as [(a & s1 & e1 & e2 & H1 & H2 & He) | (r & H1 & He)];
      [|try discriminate He]; try (injection He as He); subst
  | H : when _ _ _ = (_, _, _) |- _ =>
      let Hb := fresh "Hb" in
      let Ho := fresh "Ho" in
      let Hs := fresh "Hs" in
      let He := fresh "He" in
      apply when_inv in H as [[Hb H] | (Hb & Ho & Hs & He)];
      [|try discriminate Ho; try (injection Ho as Ho); subst]
  | H : ret _ _ = (_, _, _) |- _ => prim_inv H
  | H : emit _ _ = (_, _, _) |- _ => prim_inv H
  | H : ask _ _ = (_, _, _) |- _ => prim_inv H
  | H : halt _ _ = (_, _, _) |- _ => prim_inv H
  | H : get_iteration _ = (_, _, _) |- _ => prim_inv H
  | H : set_iteration _ _ = (_, _, _) |- _ => prim_inv H
  | H : alloc _ _ = (_, _, _) |- _ => prim_inv H
  | H : read _ _ = (_, _, _) |- _ => prim_inv H
  | H : write _ _ _ = (_, _, _) |- _ => prim_inv H
  | H : (let '(_, _) := ?x in _) _ = (_, _, _) |- _ =>
      let E := fresh "Elet" in
      destruct x eqn:E; try (injection E as E; subst)
  end.

Ltac minv := repeat minv1.
Ltac mcrush := repeat first [minv1 | progress simpl in *].

(** *** [get_batch] and [forward_step] *)

Lemma get_batch_inv it s o s' ev :
  get_batch it s = (o, s', ev) →
  ∃ b, o = Ret b ∧ ev = [NextBatch it]
       ∧ world s' = exec (NextBatch it) (world s)
       ∧ tensors s' = tensors s ∧ iteration s' = iteration s.
Proof.
  unfold get_batch. destruct (xl_dataset args) eqn:Exl; intros H; minv.
  - match type of Hk0 with
    | context [get_masks_and_position_ids ?d ?e ?rp ?ra ?lm (Some ?am) true ?M] =>
        destruct (get_masks_xl_given_ok d e rp ra lm am M) as [[[am' lm'] ids] Hok]
    end.
    rewrite Hok in Hk0. minv. eauto 10.
  - match type of Hk0 with
    | context [get_masks_and_position_ids ?d ?e ?rp ?ra ?lm None false ?M] =>
        destruct (get_masks_non_xl_ok d e rp ra lm M) as [[[am' lm'] ids] Hok]
    end.
    rewrite Hok in Hk0. minv. eauto 10.
Qed.

Lemma forward_step_inv it mems s o s' ev :
  forward_step it mems s = (o, s', ev) →
  ∃ tokens position_ids attention_mask logits new_mems loss,
    model_forward (exec (NextBatch it) (world s)) tokens position_ids attention_mask mems
    = (logits, new_mems)
    ∧ o = Ret (length (tensors s), new_mems)
    ∧ ev = [NextBatch it; ModelCall mems logits new_mems]
    ∧ world s' = replay ev (world s)
    ∧ tensors s' = tensors s ++ [loss]
    ∧ iteration s' = iteration s.
Proof.
  unfold forward_step. intros H. minv1.
  - apply get_batch_inv in Hm as (b & Hb & -> & Hw & Ht & Hi).
    injection Hb as ->. destruct b as [[[[tokens labels] lmask] amask] pids].
    minv. simpl in *. rewrite Hw in *. rewrite Ht, Hi.
    do 6 eexists. repeat split; eauto.
  - apply get_batch_inv in Hm as (b & Hb & _). discriminate Hb.
Qed.

(** *** [backward_step] *)

(** The calls of [backward_step] outside DeepSpeed, for the local loss
    [v], the all-reduced sum [total]. *)
Definition backward_pass_events (v : float) : list event :=
  [ZeroGrad; Backward (if fp16 args then ByOptimizer else ByLoss) v].

Definition master_grad_events : list event :=
  (if fp16 args then [UpdateMasterGrads] else [])
  ++ (if Qle_bool (clip_grad args) 0 then []
      else [if fp16 args then ClipMasterGrads (clip_grad args)
            else ClipGradNorm (clip_grad args)]).

Lemma backward_step_inv lm_loss s o s' ev :
  backward_step lm_loss s = (o, s', ev) →
  let v := default NaN (tensors s !! lm_loss) in
  iteration s' = iteration s
  ∧ world s' = replay ev (world s)
  ∧ if deepspeed args then
      o = Ret lm_loss ∧ ev = [Backward ByEngine v] ∧ tensors s' = tensors s
    else
      let total := fsum (v :: peer_losses (replay (backward_pass_events v) (world s))) in
      o = Ret (length (tensors s))
      ∧ ev = backward_pass_events v ++ [AllReduceLoss v total] ++ master_grad_events
      ∧ tensors s' = <[lm_loss := total]> (tensors s)
                     ++ [fdiv (default NaN (<[lm_loss := total]> (tensors s) !! lm_loss))
                           (of_Z (world_size args))].
Proof.
  unfold backward_step, backward_pass_events, master_grad_events.
  destruct (deepspeed args), (fp16 args), (Qle_bool (clip_grad args) 0);
    intros H; mcrush; try discriminate;
    rewrite ?length_insert; repeat split; reflexivity.
Qed.

(** *** [update_learning_rate] *)

Definition lr_events (b : bool) : list event :=
  (if fp16 args then [ReadOverflow b] else [])
  ++ (if fp16 args && b then [] else [LrSchedulerStep]).

Definition skipped_of (b : bool) : Z := if fp16 args && b then 1 else 0.

Lemma update_learning_rate_inv s o s' ev :
  update_learning_rate s = (o, s', ev) →
  let b := overflow (world s) in
  o = Ret (skipped_of b) ∧ ev = lr_events b
  ∧ iteration s' = iteration s ∧ tensors s' = tensors s
  ∧ world s' = replay ev (world s).
Proof.
  unfold update_learning_rate, lr_events, skipped_of.
  destruct (fp16 args); intros H; mcrush.
  - destruct (overflow _); mcrush; repeat split; reflexivity.
  - repeat split; reflexivity.
Qed.

(** *** [train_step] *)

Lemma backward_events_counts v total :
  let ev := backward_pass_events v ++ [AllReduceLoss v total] ++ master_grad_events in
  count is_backward ev = 1%nat ∧ count is_model_call ev = 0%nat
  ∧ count is_optimizer_step ev = 0%nat ∧ count is_lr_step ev = 0%nat
  ∧ count is_overflow ev = 0%nat ∧ count is_monitored ev = 0%nat
  ∧ saves ev = [].
Proof.
  unfold backward_pass_events, master_grad_events.
  destruct (fp16 args), (Qle_bool (clip_grad args) 0); simpl; auto 10.
Qed.

Lemma lr_events_counts b :
  let ev := lr_events b in
  (count is_lr_step ev + count is_overflow ev = 1)%nat
  ∧ Z.of_nat (count is_overflow ev) = skipped_of b
  ∧ count is_backward ev = 0%nat ∧ count is_model_call ev = 0%nat
  ∧ count is_optimizer_step ev = 0%nat ∧ count is_monitored ev = 0%nat
  ∧ saves ev = [].
Proof.
  unfold lr_events, skipped_of. destruct (fp16 args), b; simpl; auto 10.
Qed.

(** The call that applies the update. *)
Definition step_done_event : event :=
  if deepspeed args then ModelStep else OptimizerStep.

Lemma backward_step_facts lm_loss s o s' ev :
  backward_step lm_loss s = (o, s', ev) →
  ∃ r, o = Ret r
       ∧ iteration s' = iteration s
       ∧ world s' = replay ev (world s)
       ∧ count is_backward ev = 1%nat ∧ count is_model_call ev = 0%nat
       ∧ count is_optimizer_step ev = 0%nat ∧ count is_lr_step ev = 0%nat
       ∧ count is_overflow ev = 0%nat ∧ count is_monitored ev = 0%nat
       ∧ saves ev = [].
Proof.
  intros H. apply backward_step_inv in H as (Hi & Hw & H).
  destruct (deepspeed args).
  - destruct H as (-> & -> & _). eexists. simpl. auto 12.
  - destruct H as (-> & -> & _). eexists.
    split; [reflexivity|]. split; [exact Hi|]. split; [exact Hw|].
    apply backward_events_counts.
Qed.

Lemma update_parameters_inv s o s' ev :
  update_parameters s = (o, s', ev) →
  iteration s' = iteration s
  ∧ world s' = replay ev (world s)
  ∧ ∃ sk complete,
      o = Ret (sk, complete)
      ∧ if complete then
          ∃ pre b,
            ev = pre ++ step_done_event :: lr_events b
            ∧ pre = (if deepspeed args then [IsBoundary true] else [])
            ∧ b = overflow (replay (pre ++ [step_done_event]) (world s))
            ∧ sk = skipped_of b
        else
          deepspeed args = true ∧ ev = [IsBoundary false; ModelStep] ∧ sk = 0.
Proof.
  unfold update_parameters, step_done_event.
  destruct (deepspeed args); intros H; minv;
    try destruct (is_gradient_accumulation_boundary (world _)); minv;
    try match goal with
      | Hlr : update_learning_rate _ = _ |- _ =>
          apply update_learning_rate_inv in Hlr as (Ho & -> & Hi & _ & Hw);
          try discriminate Ho; injection Ho as ->; simpl in *
      end;
    (split; [first [exact Hi | reflexivity]|]);
    (split; [first [rewrite Hw, ?app_nil_r; reflexivity | reflexivity]|]).
  - do 2 eexists. split; [reflexivity|]. exists [IsBoundary true]. eexists.
    rewrite app_nil_r. repeat split; reflexivity.
  - exists 0, false. auto.
  - do 2 eexists. split; [reflexivity|]. exists []. eexists.
    rewrite app_nil_r. repeat split; reflexivity.
Qed.

Lemma update_events_counts pre b :
  pre = (if deepspeed args then [IsBoundary true] else []) →
  let ev := pre ++ step_done_event :: lr_events b in
  count is_monitored ev = 0%nat ∧ saves ev = []
  ∧ count is_model_call ev = 0%nat ∧ count is_backward ev = 0%nat
  ∧ (deepspeed args = false → count is_optimizer_step ev = 1%nat)
  ∧ count is_lr_step pre = 0%nat ∧ count is_overflow pre = 0%nat.
Proof.
  intros ->. unfold step_done_event, lr_events.
  destruct (deepspeed args), (fp16 args), b; simpl;
    repeat split; try reflexivity; intros; discriminate.
Qed.

Ltac norm :=
  rewrite ?app_nil_r, ?count_app, ?saves_app, ?replay_app, ?mon_run_app.

Lemma train_step_inv fuel it mems s o s' ev :
  train_step fuel it mems s = (o, s', ev) →
  iteration s' = iteration s
  ∧ world s' = replay ev (world s)
  ∧ saves ev = []
  ∧ (∀ sv, threaded (mems, sv) ev)
  ∧ match o with
    | Ret (l, sk, mems') =>
        (∀ sv, mon_run (mems, sv) ev = (mems', sv))
        ∧ (∃ ev0 b,
              ev = ev0 ++ step_done_event :: lr_events b
              ∧ b = overflow (replay (ev0 ++ [step_done_event]) (world s))
              ∧ sk = skipped_of b
              ∧ count is_lr_step ev0 = 0%nat
              ∧ count is_overflow ev0 = 0%nat)
        ∧ (deepspeed args = false →
           count is_model_call ev = 1%nat ∧ count is_backward ev = 1%nat
           ∧ count is_optimizer_step ev = 1%nat)
    | Stop r => r = OutOfFuel ∧ (fuel = 0%nat ∨ deepspeed args = true)
    end.
Proof.
  revert mems s o s' ev. induction fuel as [|fuel IH]; intros mems s o s' ev H.
  - prim_inv H. simpl. auto 10.
  - simpl in H. minv1;
      match goal with
      | Hf : forward_step _ _ _ = _ |- _ =>
          apply forward_step_inv in Hf
            as (tokens & pids & amask & logits & new_mems & loss
                & Hfw & Ha & -> & Hw1 & Ht1 & Hi1)
      end; [|discriminate Ha].
    injection Ha as ->. minv1;
      match goal with
      | Hb : backward_step _ _ = _ |- _ =>
          apply backward_step_facts in Hb
            as (r' & Hr & Hi2 & Hw2 & Cb & Cm & Co & Cl & Cv & Cmon & Csv)
      end; [|discriminate Hr].
    injection Hr as ->. minv1;
      match goal with
      | Hu : update_parameters _ = _ |- _ =>
          apply update_parameters_inv in Hu as (Hi3 & Hw3 & sk & complete & Ho & Hc)
      end; [|discriminate Ho].
    injection Ho as ->.
    set (F := [NextBatch it; ModelCall mems logits new_mems]) in *.
    assert (HF : ∀ sv, threaded (mems, sv) F ∧ mon_run (mems, sv) F = (new_mems, sv))
      by (intros sv; simpl; auto).
    assert (HwF : world s1 = replay (F ++ ev) (world s))
      by (rewrite replay_app, Hw2, Hw1; reflexivity).
    destruct complete.
    + prim_inv Hk. destruct Hc as (pre & b & -> & Hpre & Hb & ->).
      destruct (update_events_counts pre b Hpre)
        as (Umon & Usv & Um & Ub & Uo & Ulr & Uov).
      set (U := pre ++ step_done_event :: lr_events b) in *.
      assert (Hrest : count is_monitored (ev ++ U) = 0%nat) by (norm; lia).
      split; [congruence|].
      split; [norm; rewrite Hw3, Hw2, Hw1; reflexivity|].
      split; [norm; rewrite Csv, Usv; reflexivity|].
      split.
      { intros sv. norm. apply threaded_app. destruct (HF sv) as [HtF ->].
        split; [exact HtF|]. by apply unmonitored_threaded. }
      split.
      { intros sv. rewrite app_nil_r, mon_run_app.
        destruct (HF sv) as [_ ->]. by apply unmonitored_threaded. }
      split.
      { exists (F ++ ev ++ pre), b. subst U. norm.
        split; [by rewrite <- !app_assoc|].
        split; [rewrite Hb, HwF; by norm|].
        split; [reflexivity|]. rewrite Cl, Cv, Ulr, Uov. simpl. auto. }
      intros Hds. specialize (Uo Hds). norm.
      rewrite Cm, Cb, Co, Um, Ub, Uo. simpl. auto.
    + destruct Hc as (Hds & -> & ->).
      apply IH in Hk as (Hi4 & Hw4 & Hs4 & Ht4 & Ho4).
      split; [congruence|].
      split; [norm; rewrite Hw4, Hw3, Hw2, Hw1; reflexivity|].
      split; [norm; rewrite Csv, Hs4; reflexivity|].
      assert (Hmid : ∀ sv,
                 threaded (new_mems, sv) (ev ++ [IsBoundary false; ModelStep])
                 ∧ mon_run (new_mems, sv) (ev ++ [IsBoundary false; ModelStep])
                   = (new_mems, sv)).
      { intros sv. apply unmonitored_threaded. norm. rewrite Cmon. reflexivity. }
      split.
      { intros sv. destruct (HF sv) as [HtF HrF]. destruct (Hmid sv) as [Htm Hrm].
        apply threaded_app. split; [exact HtF|].
        rewrite HrF, (app_assoc ev). apply threaded_app. split; [exact Htm|].
        rewrite Hrm. apply Ht4. }
      destruct o as [[[l sk] mems']|r].
      * destruct Ho4 as (Hrun & (ev0 & b & -> & Hb & -> & Clr0 & Cov0) & _).
        split.
        { intros sv. destruct (HF sv) as [_ HrF]. destruct (Hmid sv) as [_ Hrm].
          rewrite mon_run_app, HrF, (app_assoc ev), mon_run_app, Hrm. apply Hrun. }
        split.
        { exists (F ++ ev ++ [IsBoundary false; ModelStep] ++ ev0), b.
          split; [by rewrite <- !app_assoc|].
          split; [rewrite Hb, Hw3, HwF; norm; by rewrite <- ?app_assoc|].
          split; [reflexivity|]. norm. rewrite Cl, Cv, Clr0, Cov0. simpl. auto. }
        intros Hds'. congruence.
      * destruct Ho4 as [-> _]. auto.
Qed.

(** *** [evaluate] *)

Lemma evaluate_loop_inv fuel it verbose i total mems s o s' ev :
  evaluate_loop fuel it verbose i total mems s = (o, s', ev) →
  iteration s' = iteration s
  ∧ saves ev = []
  ∧ count is_lr_step ev = 0%nat ∧ count is_overflow ev = 0%nat
  ∧ count is_backward ev = 0%nat ∧ count is_optimizer_step ev = 0%nat
  ∧ count is_mode ev = 0%nat
  ∧ (∀ sv, threaded (mems, sv) ev)
  ∧ match o with
    | Ret v =>
        (∃ mems', ∀ sv, mon_run (mems, sv) ev = (mems', sv))
        ∧ count is_model_call ev = Z.to_nat (eval_iters args - i)
    | Stop r =>
        (r = OutOfFuel ∧ (fuel <= Z.to_nat (eval_iters args - i))%nat)
        ∨ (r = Raised ZeroDivisionError ∧ verbose = true ∧ log_interval args = 0)
    end.
Proof.
  revert i total mems s o s' ev.
  induction fuel as [|fuel IH]; intros i total mems s o s' ev H.
  - prim_inv H. simpl. repeat split; auto. left. split; [done|lia].
  - simpl in H. destruct (i <? eval_iters args) eqn:Ei.
    2:{ prim_inv H. simpl. apply Z.ltb_ge in Ei. repeat split; eauto. lia. }
    apply Z.ltb_lt in Ei.
    destruct verbose, (log_interval args =? 0) eqn:El,
      (deepspeed args && deepspeed_activation_checkpointing args), model_is_DDP;
      mcrush;
      try (apply Z.eqb_eq in El; repeat split; auto; fail);
      match goal with
      | Hf : forward_step _ _ _ = _ |- _ =>
          apply forward_step_inv in Hf
            as (tokens & pids & amask & logits & new_mems & loss
                & Hfw & Ha & -> & Hw1 & Ht1 & Hi1)
      end; simplify_eq; mcrush;
      match goal with
      | Hl : evaluate_loop _ _ _ _ _ _ _ = _ |- _ =>
          apply IH in Hl as (Hi & Hs & C1 & C2 & C3 & C4 & C5 & Ht & Ho)
      end; simpl in Hi;
      (split; [congruence|]);
      (split; [exact Hs|]); (split; [exact C1|]); (split; [exact C2|]);
      (split; [exact C3|]); (split; [exact C4|]); (split; [exact C5|]);
      (split; [intros sv; simpl; repeat (split; [done|]); apply Ht|]);
      (destruct o as [v|r];
       [destruct Ho as [[mems' Hrun] Hc]; split;
        [exists mems'; intros sv; unfold mon_run in *; simpl; apply Hrun|simpl; lia]
       |destruct Ho as [[-> Hle]|(-> & Hv & Hlog)];
        [left; split; [reflexivity|lia] | right; auto; try discriminate]]).
Qed.

(** What an evaluation leaves in the trace. *)
Definition evaluate_post (fuel : nat) (verbose : bool)
    (s : state) (o : outcome float) (s' : state) (ev : list event) : Prop :=
  iteration s' = iteration s
  ∧ saves ev = []
  ∧ count is_lr_step ev = 0%nat ∧ count is_overflow ev = 0%nat
  ∧ count is_backward ev = 0%nat ∧ count is_optimizer_step ev = 0%nat
  ∧ (∀ cur, threaded (cur, None) ev)
  ∧ match o with
    | Ret v =>
        (∀ cur, mon_run (cur, None) ev = (cur, None))
        ∧ count is_model_call ev = Z.to_nat (eval_iters args)
    | Stop r =>
        (r = OutOfFuel ∧ (fuel <= Z.to_nat (eval_iters args))%nat)
        ∨ (r = Raised ZeroDivisionError
           ∧ ((verbose = true ∧ log_interval args = 0) ∨ eval_iters args = 0))
    end.

Lemma evaluate_inv fuel it verbose s o s' ev :
  evaluate fuel it verbose s = (o, s', ev) → evaluate_post fuel verbose s o s' ev.
Proof.
  unfold evaluate, evaluate_post. intros H. minv1; [|prim_inv Hm]. prim_inv Hm.
  minv1;
    match goal with
    | Hl : evaluate_loop _ _ _ _ _ _ _ = _ |- _ =>
        apply evaluate_loop_inv in Hl as (Hi & Hs & C1 & C2 & C3 & C4 & _ & Ht & Ho)
    end; simpl in Hi.
  - destruct Ho as [[mems' Hrun] Hc]. rewrite Z.sub_0_r in Hc.
    minv1; [|prim_inv Hm]. prim_inv Hm.
    assert (Hthr : ∀ cur, threaded (cur, None) ([ModelEval] ++ ev ++ [ModelTrain] ++ [])).
    { intros cur. simpl. split; [done|]. apply threaded_app. split; [apply Ht|].
      simpl. auto. }
    assert (Hmon : ∀ cur, mon_run (cur, None) ([ModelEval] ++ ev ++ [ModelTrain] ++ [])
                          = (cur, None)).
    { intros cur. rewrite (mon_run_app _ [ModelEval]).
      change (mon_run (cur, None) [ModelEval]) with ([] : list Act, Some cur).
      rewrite mon_run_app, Hrun. reflexivity. }
    destruct (eval_iters args =? 0) eqn:E0; prim_inv Hk;
      rewrite ?saves_app, ?count_app, ?Hs, ?C1, ?C2, ?C3, ?C4; simpl;
      (split; [exact Hi|]); repeat (split; [reflexivity|]);
      (split; [exact Hthr|]).
    + right. split; [reflexivity|]. right. by apply Z.eqb_eq.
    + split; [exact Hmon|]. rewrite Hc. lia.
  - rewrite Z.sub_0_r in Ho.
    rewrite ?saves_app, ?count_app, Hs, C1, C2, C3, C4. simpl.
    split; [exact Hi|]. repeat (split; [reflexivity|]).
    split; [intros cur; split; [done|apply Ht]|].
    destruct Ho as [[-> Hle]|(-> & Hv & Hlog)]; [left|right]; auto.
Qed.

Lemma evaluate_and_print_results_inv fuel it verbose s o s' ev :
  evaluate_and_print_results fuel it verbose s = (o, s', ev) →
  evaluate_post fuel verbose s o s' ev.
Proof.
  unfold evaluate_and_print_results. intros H. minv1;
    match goal with
    | He : evaluate _ _ _ _ = _ |- _ => apply evaluate_inv in He
    end; [|exact Hm].
  minv. unfold evaluate_post in *. simpl.
  destruct Hm as (Hi & Hs & C1 & C2 & C3 & C4 & Ht & Hrun & Hc).
  rewrite ?saves_app, ?count_app, ?Hs, ?C1, ?C2, ?C3, ?C4, ?Hc. simpl.
  split; [exact Hi|]. repeat (split; [reflexivity|]).
  split.
  { intros cur. apply threaded_app. split; [apply Ht|]. simpl. auto. }
  split; [|lia].
  intros cur. rewrite mon_run_app, Hrun. reflexivity.
Qed.

(** *** Traces that leave the monitor where it was *)

Definition safe (ev : list event) : Prop :=
  ∀ cur, threaded (cur, None) ev.

Definition neutral (ev : list event) : Prop :=
  ∀ cur, threaded (cur, None) ev ∧ mon_run (cur, None) ev = (cur, None).

Lemma neutral_nil : neutral [].
Proof. intros cur. simpl. auto. Qed.

Lemma neutral_unmonitored e : is_monitored e = false → neutral [e].
Proof.
  intros He cur. apply unmonitored_threaded. simpl. by rewrite He.
Qed.

Lemma neutral_app ev1 ev2 : neutral ev1 → neutral ev2 → neutral (ev1 ++ ev2).
Proof.
  intros H1 H2 cur. destruct (H1 cur) as [Ht1 Hr1]. destruct (H2 cur) as [Ht2 Hr2].
  rewrite mon_run_app, Hr1. split; [|exact Hr2].
  apply threaded_app. rewrite Hr1. auto.
Qed.

Lemma neutral_safe ev : neutral ev → safe ev.
Proof. intros H cur. apply H. Qed.

Lemma safe_app ev1 ev2 : neutral ev1 → safe ev2 → safe (ev1 ++ ev2).
Proof.
  intros H1 H2 cur. destruct (H1 cur) as [Ht1 Hr1].
  apply threaded_app. rewrite Hr1. auto.
Qed.

Lemma evaluate_post_safe fuel verbose s o s' ev :
  evaluate_post fuel verbose s o s' ev → safe ev.
Proof. intros (_ & _ & _ & _ & _ & _ & Ht & _). exact Ht. Qed.

Lemma evaluate_post_neutral fuel verbose s v s' ev :
  evaluate_post fuel verbose s (Ret v) s' ev → neutral ev.
Proof.
  intros (_ & _ & _ & _ & _ & _ & Ht & Hr & _) cur. split; [apply Ht|apply Hr].
Qed.

Create HintDb trace.
#[local] Hint Resolve neutral_nil neutral_app neutral_safe safe_app : trace.
#[local] Hint Extern 1 (neutral [_]) => (apply neutral_unmonitored; reflexivity) : trace.
#[local] Hint Extern 2 (neutral (?e :: ?l)) =>
  (apply (neutral_app [e] l); [apply neutral_unmonitored; reflexivity|]) : trace.
#[local] Hint Extern 2 (safe (?e :: ?l)) =>
  (apply (safe_app [e] l); [apply neutral_unmonitored; reflexivity|]) : trace.

(** *** [train] *)

(** [args.save and args.save_interval and i % args.save_interval == 0] *)
Definition save_due (i : Z) : bool :=
  truthy_str (save args) && negb (save_interval args =? 0)
  && (i mod save_interval args =? 0).

Ltac mcrush_if :=
  repeat first
    [ minv1
    | match goal with
      | H : (if ?b then _ else _) _ = (_, _, _) |- _ => destruct b eqn:?
      end
    | progress simpl in * ].

Lemma train_body_inv inner total skipped flag mems s o s' ev :
  train_body inner total skipped flag mems s = (o, s', ev) →
  let i := iteration s + 1 in
  threaded (mems, None) ev
  ∧ match o with
    | Ret (total', skipped', flag', mems') =>
        iteration s' = i
        ∧ mon_run (mems, None) ev = (mems', None)
        ∧ saves ev = (if save_due i then [i] else [])
        ∧ skipped' = skipped + Z.of_nat (count is_overflow ev)
        ∧ (count is_lr_step ev + count is_overflow ev = 1)%nat
        ∧ (deepspeed args = false →
           count is_optimizer_step ev = 1%nat ∧ count is_backward ev = 1%nat)
    | Stop r =>
        (r = OutOfFuel
         ∧ (inner = 0%nat ∨ deepspeed args = true
            ∨ (inner <= Z.to_nat (eval_iters args))%nat))
        ∨ (r = Raised ZeroDivisionError
           ∧ (log_interval args = 0 ∨ eval_iters args = 0))
        ∨ (r = Exited ∧ truthy_int (exit_interval args) = true)
    end.
Proof.
  intros H i. unfold train_body in H. minv1;
    match goal with
    | Hs : train_step _ _ _ _ = _ |- _ =>
        apply train_step_inv in Hs as (Hi0 & Hw0 & Hs0 & Ht0 & Ho0)
    end.
  2:{ split; [apply Ht0|]. destruct Ho0 as [-> [Hz|Hd]]; auto. }
  destruct a as [[lm_loss sk] mems1].
  destruct Ho0 as (Hrun0 & (pre & b & -> & Hb & -> & Clr0 & Cov0) & Hnd).
  destruct (lr_events_counts b) as (Llr & Lov & _).
  assert (CS : (count is_lr_step (pre ++ step_done_event :: lr_events b)
                + count is_overflow (pre ++ step_done_event :: lr_events b) = 1)%nat
               ∧ Z.of_nat (count is_overflow (pre ++ step_done_event :: lr_events b))
                 = skipped_of b).
  { rewrite !count_app, Clr0, Cov0. simpl. rewrite <- Lov.
    unfold step_done_event. destruct (deepspeed args); simpl; lia. }
  destruct CS as [CS1 CS2].
  set (S := pre ++ step_done_event :: lr_events b) in *.
  clearbody S. clear Hb Clr0 Cov0 Llr Lov Hw0.
  mcrush_if;
    repeat match goal with
      | He : evaluate_and_print_results _ _ _ _ = _ |- _ =>
          apply evaluate_and_print_results_inv in He;
          pose proof (evaluate_post_safe _ _ _ _ _ _ He);
          try pose proof (evaluate_post_neutral _ _ _ _ _ _ He);
          destruct He as (Hie & Hse & E1 & E2 & E3 & E4 & _ & Hoe);
          simpl in Hie
      end;
    rewrite ?app_nil_r in *;
    (split;
     [first
        [ apply Ht0
        | apply threaded_app; split; [apply Ht0|]; rewrite Hrun0;
          match goal with |- threaded (?m, None) ?l => refine ((_ : safe l) m) end;
          eauto 10 with trace ]|]).
  all: try (split; [subst i; simpl in *; lia|];
            split; [first
              [ apply Hrun0
              | rewrite mon_run_app, Hrun0;
                match goal with
                | |- mon_run (?m, None) ?l = _ => refine (proj2 ((_ : neutral l) m))
                end; eauto 10 with trace ]|];
            split; [rewrite ?saves_app, ?Hs0; simpl; rewrite ?Hse;
                    unfold save_due; subst i; rewrite <- Hi0;
                    match goal with
                    | Hc : truthy_str _ && _ && _ = _ |- _ => rewrite Hc
                    end; reflexivity|];
            split; [rewrite ?count_app; simpl; rewrite ?E2; lia|];
            split; [rewrite ?count_app; simpl; rewrite ?E1, ?E2; lia|];
            intros Hd; destruct (Hnd Hd) as (_ & Cb & Co);
            rewrite ?count_app; simpl; rewrite ?E3, ?E4; lia).
  all: try (right; left; split; [reflexivity|]; left; by apply Z.eqb_eq).
  all: try (right; right; split; [reflexivity|];
            match goal with
            | Hc : truthy_int _ && _ = true |- _ =>
                apply andb_true_iff in Hc as [Hc _]; exact Hc
            end).
  all: try (destruct Hoe as [[-> Hle]|[-> [[Hf _]|Hz]]];
            [left; split; auto | discriminate Hf | right; left; auto]).
Qed.

(** The iterations after [from], up to [to], whose checkpoint is due. *)
Definition due_saves (from to : Z) : list Z :=
  List.filter save_due (seqZ (from + 1) (to - from)).

Lemma due_saves_step from to :
  from < to →
  due_saves from to
  = (if save_due (from + 1) then [from + 1] else []) ++ due_saves (from + 1) to.
Proof.
  intros Hlt. unfold due_saves. rewrite (seqZ_cons (from + 1)) by lia.
  simpl. replace (Z.pred (to - from)) with (to - (from + 1)) by lia.
  replace (Z.succ (from + 1)) with (from + 1 + 1) by lia.
  by destruct (save_due (from + 1)).
Qed.

Lemma train_loop_inv fuel inner total skipped flag mems s o s' ev :
  train_loop fuel inner total skipped flag mems s = (o, s', ev) →
  threaded (mems, None) ev
  ∧ match o with
    | Ret (it, sk) =>
        it = iteration s'
        ∧ it = Z.max (iteration s) (train_iters args)
        ∧ saves ev = due_saves (iteration s) it
        ∧ sk = skipped + Z.of_nat (count is_overflow ev)
        ∧ Z.of_nat (count is_lr_step ev + count is_overflow ev) = it - iteration s
        ∧ (deepspeed args = false →
           count is_optimizer_step ev = Z.to_nat (train_iters args - iteration s)
           ∧ count is_backward ev = Z.to_nat (train_iters args - iteration s))
    | Stop r =>
        (r = OutOfFuel
         ∧ ((fuel <= Z.to_nat (train_iters args - iteration s))%nat
            ∨ inner = 0%nat ∨ deepspeed args = true
            ∨ (inner <= Z.to_nat (eval_iters args))%nat))
        ∨ (r = Raised ZeroDivisionError
           ∧ (log_interval args = 0 ∨ eval_iters args = 0))
        ∨ (r = Exited ∧ truthy_int (exit_interval args) = true)
    end.
Proof.
  revert total skipped flag mems s o s' ev.
  induction fuel as [|fuel IH]; intros total skipped flag mems s o s' ev H.
  - prim_inv H. simpl. split; [done|]. left. split; [done|]. left. lia.
  - simpl in H. minv1; [|prim_inv Hm]. prim_inv Hm.
    match goal with
    | Hl : (if iteration ?st <? _ then _ else _) _ = _ |- _ =>
        rename st into s_; rename Hl into H
    end.
    simpl. destruct (iteration s_ <? train_iters args) eqn:Elt.
    2:{ apply Z.ltb_ge in Elt. mcrush. split; [done|].
        unfold due_saves. rewrite seqZ_nil by lia. simpl.
        repeat split; try lia. }
    apply Z.ltb_lt in Elt. minv1;
      match goal with
      | Hb : train_body _ _ _ _ _ _ = _ |- _ =>
          apply train_body_inv in Hb as [Ht1 Ho1]
      end.
    2:{ simpl. split; [exact Ht1|].
        destruct Ho1 as [[-> Hr]|[[-> Hr]|[-> Hr]]]; tauto. }
    destruct a as [[[total' skipped'] flag'] mems'].
    destruct Ho1 as (Hi1 & Hr1 & Hs1 & Hsk1 & Hc1 & Hd1).
    match goal with
    | Hl : train_loop _ _ _ _ _ _ _ = _ |- _ => apply IH in Hl as [Ht2 Ho2]
    end.
    split.
    { apply threaded_app. split; [exact Ht1|]. rewrite Hr1. exact Ht2. }
    destruct o as [[it sk]|r].
    + destruct Ho2 as (Hit & Hmax & Hs2 & Hsk2 & Hc2 & Hd2).
      rewrite Hi1 in *.
      split; [exact Hit|]. split; [lia|].
      split.
      { rewrite saves_app, Hs1, Hs2. symmetry. apply due_saves_step. lia. }
      split; [rewrite count_app; lia|].
      split; [rewrite !count_app; lia|].
      intros Hd. destruct (Hd1 Hd) as [Co1 Cb1]. destruct (Hd2 Hd) as [Co2 Cb2].
      rewrite !count_app, Co1, Cb1, Co2, Cb2. lia.
    + rewrite Hi1 in Ho2.
      destruct Ho2 as [[-> Hr]|[[-> Hr]|[-> Hr]]]; auto.
      left. split; [done|]. destruct Hr as [Hr|Hr]; [left; lia|tauto].
Qed.


Lemma train_inv fuel inner s o s' ev :
  train fuel inner s = (o, s', ev) →
  ∃ ev', ev = ModelTrain :: ev'
         ∧ train_loop fuel inner (Finite 0) 0 true []
             {| world := exec ModelTrain (world s); tensors := tensors s;
                iteration := iteration s |} = (o, s', ev').
Proof.
  unfold train. intros H. minv1; [|prim_inv Hm]. prim_inv Hm. eauto.
Qed.

(** *** The model calls of a trace as a chain *)

(** The (mems passed, mems returned) of every model call. *)
Fixpoint all_calls (ev : list event) : list (list Act * list Act) :=
  match ev with
  | [] => []
  | ModelCall m _ n :: ev => (m, n) :: all_calls ev
  | _ :: ev => all_calls ev
  end.

(** The same for the model calls made outside an evaluation. *)
Fixpoint training_calls (in_eval : bool) (ev : list event)
  : list (list Act * list Act) :=
  match ev with
  | [] => []
  | ModelEval :: ev => training_calls true ev
  | ModelTrain :: ev => training_calls false ev
  | ModelCall m _ n :: ev =>
      if in_eval then training_calls in_eval ev
      else (m, n) :: training_calls in_eval ev
  | _ :: ev => training_calls in_eval ev
  end.

(** Each call receives what the call before it returned; the first
    one receives [cur]. *)
Fixpoint chained (cur : list Act) (calls : list (list Act * list Act)) : Prop :=
  match calls with
  | [] => True
  | (m, n) :: calls => m = cur ∧ chained n calls
  end.

Lemma all_calls_app ev1 ev2 : all_calls (ev1 ++ ev2) = all_calls ev1 ++ all_calls ev2.
Proof.
  induction ev1 as [|e ev1 IH]; simpl; [done|]. destruct e; simpl; by rewrite ?IH.
Qed.

Lemma all_calls_length ev : length (all_calls ev) = count is_model_call ev.
Proof.
  induction ev as [|e ev IH]; simpl; [done|]. destruct e; simpl; by rewrite ?IH.
Qed.

Lemma threaded_all_calls mu ev :
  threaded mu ev → count is_mode ev = 0%nat → chained (fst mu) (all_calls ev).
Proof.
  revert mu. induction ev as [|e ev IH]; intros mu H Hm; simpl in *; [done|].
  destruct H as [Hok H].
  destruct e; simpl in *; try discriminate; try (by apply (IH _ H Hm)).
  split; [exact Hok|]. by apply (IH _ H Hm).
Qed.

Definition in_eval (mu : monitor) : bool :=
  match snd mu with Some _ => true | None => false end.

Lemma threaded_training_calls mu ev :
  threaded mu ev →
  chained (default (fst mu) (snd mu)) (training_calls (in_eval mu) ev).
Proof.
  revert mu. induction ev as [|e ev IH]; intros [cur sv] H; [done|].
  destruct H as [Hok H]. specialize (IH _ H).
  destruct e, sv; unfold in_eval in *; simpl in *; try exact IH.
  by split.
Qed.

Lemma evaluate_chained fuel it verbose s o s' ev :
  evaluate fuel it verbose s = (o, s', ev) → chained [] (all_calls ev).
Proof.
  unfold evaluate. intros H. minv1; [|prim_inv Hm]. prim_inv Hm.
  minv1;
    match goal with
    | Hl : evaluate_loop _ _ _ _ _ _ _ = _ |- _ =>
        apply evaluate_loop_inv in Hl as (_ & _ & _ & _ & _ & _ & Cm & Ht & _)
    end.
  - assert (Htail : all_calls ev0 = []).
    { minv1; [|prim_inv Hm]. prim_inv Hm.
      destruct (eval_iters args =? 0); prim_inv Hk; reflexivity. }
    rewrite !all_calls_app, Htail, app_nil_r. simpl.
    apply (threaded_all_calls ([], None)); [apply Ht|exact Cm].
  - rewrite !all_calls_app. simpl.
    apply (threaded_all_calls ([], None)); [apply Ht|exact Cm].
Qed.

(** The calls that [train_step] may make. *)
Definition step_call (e : event) : bool :=
  match e with
  | NextBatch _ | ModelCall _ _ _ | ZeroGrad | Backward _ _ | AllReduceLoss _ _
  | AllReduceParams | UpdateMasterGrads | ClipGradNorm _ | ClipMasterGrads _
  | IsBoundary _ | ModelStep | OptimizerStep | ReadOverflow _ | LrSchedulerStep => true
  | _ => false
  end.

Lemma train_step_calls fuel it mems s o s' ev :
  train_step fuel it mems s = (o, s', ev) →
  Forall (fun e => step_call e = true) ev.
Proof.
  revert mems s o s' ev. induction fuel as [|fuel IH]; intros mems s o s' ev H.
  - prim_inv H. constructor.
  - simpl in H. minv1;
      match goal with
      | Hf : forward_step _ _ _ = _ |- _ =>
          apply forward_step_inv in Hf
            as (tokens & pids & amask & logits & new_mems & loss
                & Hfw & Ha & -> & Hw1 & Ht1 & Hi1)
      end; [|discriminate Ha].
    injection Ha as ->.
    assert (Hback : ∀ lm sa oa sb evb,
              backward_step lm sa = (oa, sb, evb) →
              Forall (fun e => step_call e = true) evb).
    { intros lm sa oa sb evb Hb. apply backward_step_inv in Hb as (_ & _ & Hb).
      unfold backward_pass_events, master_grad_events in Hb.
      destruct (deepspeed args).
      - destruct Hb as (_ & -> & _). by repeat constructor.
      - destruct Hb as (_ & -> & _).
        destruct (fp16 args), (Qle_bool (clip_grad args) 0); by repeat constructor. }
    assert (Hupd : ∀ sa oa sb evb,
              update_parameters sa = (oa, sb, evb) →
              Forall (fun e => step_call e = true) evb).
    { intros sa oa sb evb Hu.
      apply update_parameters_inv in Hu as (_ & _ & sk & complete & _ & Hc).
      destruct complete.
      - destruct Hc as (pre & b & -> & -> & _). unfold step_done_event, lr_events.
        destruct (deepspeed args), (fp16 args), b; by repeat constructor.
      - destruct Hc as (_ & -> & _). by repeat constructor. }
    minv1;
      match goal with
      | Hb : backward_step _ _ = _ |- _ => pose proof (Hback _ _ _ _ _ Hb) as HFb
      end; [|by repeat constructor].
    minv1;
      match goal with
      | Hu : update_parameters _ = _ |- _ => pose proof (Hupd _ _ _ _ Hu) as HFu
      end.
    2:{ repeat constructor. apply Forall_app. by split. }
    destruct a0 as [sk complete]. repeat constructor.
    apply Forall_app. split; [exact HFb|]. apply Forall_app. split; [exact HFu|].
    destruct complete; [by prim_inv Hk|]. by apply IH in Hk.
Qed.

(** The mode ([true] inside an evaluation) that a trace leaves. *)
Fixpoint mode_after (in_eval : bool) (ev : list event) : bool :=
  match ev with
  | [] => in_eval
  | ModelEval :: ev => mode_after true ev
  | ModelTrain :: ev => mode_after false ev
  | _ :: ev => mode_after in_eval ev
  end.

Lemma training_calls_app b ev1 ev2 :
  training_calls b (ev1 ++ ev2)
  = training_calls b ev1 ++ training_calls (mode_after b ev1) ev2.
Proof.
  revert b. induction ev1 as [|e ev1 IH]; intros b; simpl; [done|].
  destruct e; simpl; rewrite ?IH; try done. by destruct b.
Qed.

Lemma mode_after_app b ev1 ev2 :
  mode_after b (ev1 ++ ev2) = mode_after (mode_after b ev1) ev2.
Proof.
  revert b. induction ev1 as [|e ev1 IH]; intros b; simpl; [done|].
  destruct e; simpl; by rewrite ?IH.
Qed.

Lemma no_mode_events b ev :
  count is_mode ev = 0%nat →
  mode_after b ev = b ∧ training_calls b ev = (if b then [] else all_calls ev).
Proof.
  induction ev as [|e ev IH]; simpl; [by destruct b|].
  destruct e; simpl; try discriminate; intros H; destruct (IH H) as [H1 H2];
    rewrite ?H1, ?H2; by destruct b.
Qed.

Lemma step_calls_no_mode ev :
  Forall (fun e => step_call e = true) ev → count is_mode ev = 0%nat.
Proof.
  induction 1 as [|e ev He Hall IH]; [done|].
  destruct e; simpl in *; try discriminate; exact IH.
Qed.

(** Without a change of mode, the monitor ends on the memories that the
    last model call returned. *)
Lemma mon_run_last_call mu ev :
  count is_mode ev = 0%nat →
  fst (mon_run mu ev)
  = match last (all_calls ev) with
    | Some (_, new_mems) => new_mems
    | None => fst mu
    end.
Proof.
  revert mu. induction ev as [|e ev IH]; intros mu Hm; [done|].
  unfold mon_run in *. simpl.
  destruct e; simpl in *; try discriminate; rewrite (IH _ Hm); try done.
  simpl. rewrite last_cons. by destruct (last (all_calls ev)) as [[m n]|].
Qed.

Lemma train_step_model_call fuel it mems s r s' ev :
  train_step fuel it mems s = (Ret r, s', ev) →
  (1 <= count is_model_call ev)%nat.
Proof.
  destruct fuel as [|fuel]; intros H; [prim_inv H|].
  simpl in H. minv1.
  match goal with
  | Hf : forward_step _ _ _ = _ |- _ =>
      apply forward_step_inv in Hf as (? & ? & ? & ? & ? & ? & _ & _ & -> & _)
  end.
  rewrite count_app. simpl. lia.
Qed.

(** A trace that makes no training call and leaves the training mode
    on. *)
Definition aside (ev : list event) : Prop :=
  training_calls false ev = [] ∧ mode_after false ev = false.

Lemma aside_nil : aside [].
Proof. done. Qed.

Lemma aside_cons e ev : is_monitored e = false → aside ev → aside (e :: ev).
Proof. intros He [H1 H2]. split; destruct e; simpl in *; try discriminate; done. Qed.

Lemma aside_app ev1 ev2 : aside ev1 → aside ev2 → aside (ev1 ++ ev2).
Proof.
  intros [H1 H2] [H3 H4]. split.
  - by rewrite training_calls_app, H1, H2, H3.
  - by rewrite mode_after_app, H2, H4.
Qed.

Lemma evaluate_and_print_results_aside fuel it verbose s v s' ev :
  evaluate_and_print_results fuel it verbose s = (Ret v, s', ev) → aside ev.
Proof.
  unfold evaluate_and_print_results. intros H. minv1.
  match goal with
  | He : evaluate _ _ _ _ = _ |- _ => unfold evaluate in He; rename He into Hev
  end.
  minv.
  match goal with
  | Hl : evaluate_loop _ _ _ _ _ _ _ = _ |- _ =>
      apply evaluate_loop_inv in Hl as (_ & _ & _ & _ & _ & _ & Cmode & _)
  end.
  destruct (no_mode_events true _ Cmode) as [Hmode Hcalls].
  assert (Htail : ev5 = []) by (destruct (eval_iters args =? 0); by prim_inv Hk).
  subst ev5. split.
  - simpl. rewrite !training_calls_app, Hcalls, Hmode. reflexivity.
  - simpl. rewrite !mode_after_app, Hmode. reflexivity.
Qed.

Lemma train_body_calls inner total skipped flag mems s r s' ev :
  train_body inner total skipped flag mems s = (Ret r, s', ev) →
  ∃ l sk mems1 s1 ev_step rest,
    train_step inner TrainData mems s = (Ret (l, sk, mems1), s1, ev_step)
    ∧ ev = ev_step ++ rest
    ∧ aside rest.
Proof.
  intros H. unfold train_body in H. minv1.
  destruct a as [[lm_loss sk] mems1].
  match goal with
  | Hs : train_step _ _ _ _ = (_, ?s1, ?e1), Hc : _ = (_, _, ?e2) |- _ =>
      exists lm_loss, sk, mems1, s1, e1, e2;
      split; [exact Hs|]; split; [reflexivity|]; clear Hs
  end.
  mcrush_if;
    repeat match goal with
      | He : evaluate_and_print_results _ _ _ _ = _ |- _ =>
          apply evaluate_and_print_results_aside in He
      end;
    repeat first
      [ apply aside_nil
      | assumption
      | apply aside_cons; [reflexivity|]
      | apply aside_app ].
Qed.

Lemma train_loop_calls fuel inner total skipped flag mems s it sk s' ev :
  train_loop fuel inner total skipped flag mems s = (Ret (it, sk), s', ev) →
  mode_after false ev = false
  ∧ it - iteration s <= Z.of_nat (length (training_calls false ev))
  ∧ (deepspeed args = false →
     length (training_calls false ev) = Z.to_nat (it - iteration s)).
Proof.
  revert total skipped flag mems s ev.
  induction fuel as [|fuel IH]; intros total skipped flag mems s ev H.
  - prim_inv H.
  - simpl in H. minv1. prim_inv Hm.
    match goal with
    | Hl : (if iteration ?st <? _ then _ else _) _ = _ |- _ =>
        rename st into s_; rename Hl into H
    end.
    simpl. destruct (iteration s_ <? train_iters args) eqn:Elt.
    2:{ mcrush. split; [done|]. split; [lia|]. intros _. lia. }
    apply Z.ltb_lt in Elt. minv1.
    match goal with
    | Hb : train_body _ _ _ _ _ _ = _ |- _ =>
        pose proof (train_body_calls _ _ _ _ _ _ _ _ _ Hb)
          as (l & sk1 & mems1 & s1 & ev_step & rest & Hstep & -> & [Hr1 Hr2]);
        apply train_body_inv in Hb as [_ Ho1]
    end.
    destruct a as [[[total' skipped'] flag'] mems'].
    destruct Ho1 as (Hi1 & _).
    match goal with
    | Hl : train_loop _ _ _ _ _ _ _ = _ |- _ =>
        pose proof (train_loop_inv _ _ _ _ _ _ _ _ _ _ Hl) as (_ & _ & Hmax & _);
        apply IH in Hl as (Hmode & Hge & Heq)
    end.
    rewrite Hi1 in *.
    pose proof (train_step_model_call _ _ _ _ _ _ _ Hstep) as Hone.
    pose proof (train_step_calls _ _ _ _ _ _ _ Hstep) as Hcalls.
    apply step_calls_no_mode in Hcalls.
    destruct (no_mode_events false _ Hcalls) as [Hm1 Hc1].
    apply train_step_inv in Hstep as (_ & _ & _ & _ & _ & _ & Hnd).
    match goal with
    | |- mode_after false (_ ++ ?e) = _ ∧ _ => rename e into ev_tail
    end.
    assert (Hmode' : mode_after false ((ev_step ++ rest) ++ ev_tail) = false)
      by (by rewrite !mode_after_app, Hm1, Hr2).
    assert (Hlen : length (training_calls false ((ev_step ++ rest) ++ ev_tail))
                   = (count is_model_call ev_step
                      + length (training_calls false ev_tail))%nat).
    { rewrite !training_calls_app, !mode_after_app, Hm1, Hr2, Hc1, Hr1, app_nil_r.
      by rewrite length_app, all_calls_length. }
    split; [exact Hmode'|]. rewrite Hlen. split; [lia|].
    intros Hds. destruct (Hnd Hds) as (Cm & _). specialize (Heq Hds). lia.
Qed.

(** C1: [forward_step] passes the incoming mems to the model and
    returns what the model returns after the logits; a call of
    [train_step] that returns has passed its mems to its first model
    call, every later call of it receiving the mems that the call
    before it returned, and returns the mems of its last model call.
    The model calls that [train] makes outside evaluations form one
    such chain that starts from the empty list, and when [train]
    returns there is at least one of them for every iteration it went
    through, exactly one outside DeepSpeed; the model calls of
    [evaluate] form such a chain too, and there are [eval_iters] of
    them when it returns. *)
Theorem mems_carried_forward :
  (∀ it mems s,
      ∃ tokens position_ids attention_mask logits new_mems s',
        model_forward (exec (NextBatch it) (world s))
          tokens position_ids attention_mask mems = (logits, new_mems)
        ∧ forward_step it mems s
          = (Ret (length (tensors s), new_mems), s',
             [NextBatch it; ModelCall mems logits new_mems]))
  ∧ (∀ fuel it mems s l sk mems' s' ev,
        train_step fuel it mems s = (Ret (l, sk, mems'), s', ev) →
        chained mems (all_calls ev)
        ∧ ∃ m, last (all_calls ev) = Some (m, mems'))
  ∧ (∀ fuel inner s,
        chained [] (training_calls false (train fuel inner s).2)
        ∧ match (train fuel inner s).1.1 with
          | Ret (it, _) =>
              it - iteration s
              <= Z.of_nat (length (training_calls false (train fuel inner s).2))
              ∧ (deepspeed args = false →
                 length (training_calls false (train fuel inner s).2)
                 = Z.to_nat (it - iteration s))
          | Stop _ => True
          end)
  ∧ (∀ fuel it verbose s,
        chained [] (all_calls (evaluate fuel it verbose s).2)
        ∧ match (evaluate fuel it verbose s).1.1 with
          | Ret _ => length (all_calls (evaluate fuel it verbose s).2)
                     = Z.to_nat (eval_iters args)
          | Stop _ => True
          end).
Proof.
  split; [|split; [|split]].
  - intros it mems s.
    destruct (forward_step it mems s) as [[o s'] ev] eqn:E.
    destruct (forward_step_inv _ _ _ _ _ _ E)
      as (tokens & pids & amask & logits & new_mems & loss & Hfw & -> & -> & _).
    by exists tokens, pids, amask, logits, new_mems, s'.
  - intros fuel it mems s l sk mems' s' ev H.
    pose proof (train_step_model_call _ _ _ _ _ _ _ H) as Hone.
    pose proof (train_step_calls _ _ _ _ _ _ _ H) as Hcalls.
    apply step_calls_no_mode in Hcalls.
    apply train_step_inv in H as (_ & _ & _ & Hthr & Hrun & _).
    split; [apply (threaded_all_calls (mems, None)); [apply Hthr|exact Hcalls]|].
    pose proof (mon_run_last_call (mems, None) ev Hcalls) as Hlast.
    rewrite Hrun in Hlast. simpl in Hlast.
    rewrite <- all_calls_length in Hone.
    destruct (last (all_calls ev)) as [[m n]|] eqn:El.
    + exists m. by rewrite Hlast.
    + apply last_None in El. rewrite El in Hone. simpl in Hone. lia.
  - intros fuel inner s.
    destruct (train fuel inner s) as [[o s'] ev] eqn:E. simpl.
    apply train_inv in E as (ev' & -> & E).
    pose proof (train_loop_inv _ _ _ _ _ _ _ _ _ _ E) as [Ht _]. simpl.
    split; [apply (threaded_training_calls ([], None)); exact Ht|].
    destruct o as [[it sk]|r]; [|done].
    apply train_loop_calls in E as (_ & Hge & Heq). exact (conj Hge Heq).
  - intros fuel it verbose s.
    destruct (evaluate fuel it verbose s) as [[o s'] ev] eqn:E. simpl.
    split; [by eapply evaluate_chained|].
    destruct o as [v|r]; [|done]. apply evaluate_inv in E.
    destruct E as (_ & _ & _ & _ & _ & _ & _ & _ & Hc).
    by rewrite all_calls_length.
Qed.

(** C3: a call of [train_step] that returns ends with the call that
    applies the update, the read of [optimizer.overflow] when
    [args.fp16] is set, and [lr_scheduler.step()] unless [args.fp16] is
    set and the flag read is true; the scheduler is stepped nowhere
    else in the call, and [skipped_iter] is 1 when it is not stepped
    and 0 when it is.  [train] returns the number of steps whose
    [skipped_iter] was 1: with the scheduler steps they add up to the
    steps taken. *)
Theorem lr_step_unless_overflow :
  (∀ fuel it mems s l sk mems' s' ev,
      train_step fuel it mems s = (Ret (l, sk, mems'), s', ev) →
      ∃ ev0 b,
        ev = ev0 ++ step_done_event :: lr_events b
        ∧ b = overflow (replay (ev0 ++ [step_done_event]) (world s))
        ∧ count is_lr_step ev0 = 0%nat
        ∧ count is_lr_step ev = (if fp16 args && b then 0 else 1)%nat
        ∧ sk = (if fp16 args && b then 1 else 0))
  ∧ (∀ fuel inner s it sk s' ev,
        train fuel inner s = (Ret (it, sk), s', ev) →
        sk = Z.of_nat (count is_overflow ev)
        ∧ Z.of_nat (count is_lr_step ev) + sk = it - iteration s).
Proof.
  split.
  - intros fuel it mems s l sk mems' s' ev H.
    apply train_step_inv in H
      as (_ & _ & _ & _ & _ & (ev0 & b & -> & Hb & -> & Clr & _) & _).
    exists ev0, b. repeat split; try assumption.
    rewrite count_app, Clr. unfold step_done_event, lr_events.
    destruct (deepspeed args), (fp16 args), b; reflexivity.
  - intros fuel inner s it sk s' ev H.
    apply train_inv in H as (ev' & -> & H).
    apply train_loop_inv in H as (_ & _ & _ & _ & Hsk & Hc & _).
    simpl in *. lia.
Qed.

(** C4: outside DeepSpeed, [backward_step] runs the backward pass on
    the local loss [v], all-reduces the loss in place (the tensor the
    caller holds then carries the sum), returns a new tensor holding
    the sum divided by [args.world_size], and afterwards updates the
    master gradients (with [args.fp16]) and then clips the gradients,
    the latter exactly when [args.clip_grad > 0]. *)
Theorem backward_step_reduces_loss (lm_loss : nat) (v : float) (s : state) :
  deepspeed args = false →
  tensors s !! lm_loss = Some v →
  let total := fsum (v :: peer_losses (replay (backward_pass_events v) (world s))) in
  ∃ s',
    backward_step lm_loss s
    = (Ret (length (tensors s)), s',
       [ZeroGrad; Backward (if fp16 args then ByOptimizer else ByLoss) v;
        AllReduceLoss v total]
       ++ (if fp16 args then [UpdateMasterGrads] else [])
       ++ (if Qle_bool (clip_grad args) 0 then []
           else [if fp16 args then ClipMasterGrads (clip_grad args)
                 else ClipGradNorm (clip_grad args)]))
    ∧ tensors s' !! length (tensors s) = Some (fdiv total (of_Z (world_size args)))
    ∧ tensors s' !! lm_loss = Some total
    ∧ (Qle_bool (clip_grad args) 0 = false ↔ (0 < clip_grad args)%Q).
Proof.
  intros Hds Hv total.
  destruct (backward_step lm_loss s) as [[o s'] ev] eqn:E.
  apply backward_step_inv in E as (_ & _ & E). rewrite Hds, Hv in E. simpl in E.
  destruct E as (-> & -> & Ht).
  assert (Hlt : (lm_loss < length (tensors s))%nat) by (by eapply lookup_lt_Some).
  rewrite list_lookup_insert_eq in Ht by exact Hlt. simpl in Ht.
  exists s'. split; [reflexivity|]. rewrite Ht.
  split; [|split].
  - rewrite lookup_app_r by (rewrite length_insert; lia).
    rewrite length_insert, Nat.sub_diag. reflexivity.
  - rewrite lookup_app_l by (rewrite length_insert; lia).
    by apply list_lookup_insert_eq.
  - destruct (Qle_bool (clip_grad args) 0) eqn:Ec.
    + apply Qle_bool_iff in Ec. split; [discriminate|].
      intros Hlt'. exfalso. by apply (Qlt_not_le _ _ Hlt').
    + split; [|reflexivity]. intros _. apply Qnot_le_lt. intros Hle.
      apply Qle_bool_iff in Hle. congruence.
Qed.

(** *** [main] *)

Lemma main_inv fuel inner s o s' ev :
  main fuel inner s = (o, s', ev) →
  o = Ret tt →
  ∃ it ev_train ev_after,
    ev = ev_train ++ ev_after
    ∧ (if (0 <? train_iters args) && do_train args
       then ∃ sk s1, train fuel inner s = (Ret (it, sk), s1, ev_train)
       else it = 0 ∧ ev_train = [])
    ∧ saves ev_after = (if truthy_str (save args) && negb (it =? 0) then [it] else []).
Proof.
  unfold main. intros H ->.
  destruct (0 <? train_iters args); [destruct (do_train args)|]; simpl.
  - mcrush; rewrite ?app_nil_r, <- ?app_assoc;
    match goal with
    | Ht : train _ _ _ = (Ret (?i, ?k), ?st, ?e) |- _ =>
        exists i, e; eexists;
        split; [first [reflexivity | symmetry; apply app_nil_r]|];
        split; [by exists k, st|]
    end;
    repeat match goal with
      | He : evaluate_and_print_results _ _ _ _ = _ |- _ =>
          apply evaluate_and_print_results_inv in He as (_ & He & _)
      end;
    rewrite ?saves_app; simpl; rewrite ?saves_app;
    repeat match goal with Hs : saves _ = [] |- _ => rewrite Hs; clear Hs end;
    simpl;
    match goal with
    | Hc : truthy_str _ && _ = _ |- _ => rewrite Hc
    end; reflexivity.
  - mcrush;
      try match goal with
        | Hc : _ && false = true |- _ => rewrite andb_false_r in Hc; discriminate Hc
        end;
      exists 0, []; eexists; (split; [reflexivity|]); (split; [done|]);
      repeat match goal with
        | He : evaluate_and_print_results _ _ _ _ = _ |- _ =>
            apply evaluate_and_print_results_inv in He as (_ & He & _)
        end;
      rewrite ?saves_app, ?app_nil_r; simpl;
      repeat match goal with Hs : saves _ = [] |- _ => rewrite Hs; clear Hs end;
      simpl; rewrite ?andb_false_r; reflexivity.
  - mcrush;
      try match goal with
        | Hc : _ && false = true |- _ => rewrite andb_false_r in Hc; discriminate Hc
        end;
      exists 0, []; eexists; (split; [reflexivity|]); (split; [done|]);
      repeat match goal with
        | He : evaluate_and_print_results _ _ _ _ = _ |- _ =>
            apply evaluate_and_print_results_inv in He as (_ & He & _)
        end;
      rewrite ?saves_app, ?app_nil_r; simpl;
      repeat match goal with Hs : saves _ = [] |- _ => rewrite Hs; clear Hs end;
      simpl; rewrite ?andb_false_r; reflexivity.
Qed.

Lemma elem_of_due_saves from to i :
  i ∈ due_saves from to ↔ from < i <= to ∧ save_due i = true.
Proof.
  unfold due_saves. rewrite list_elem_of_In, filter_In, <- list_elem_of_In, elem_of_seqZ.
  intuition lia.
Qed.

Lemma save_due_spec i :
  save_due i = true
  ↔ truthy_str (save args) = true ∧ save_interval args ≠ 0
    ∧ i mod save_interval args = 0.
Proof.
  unfold save_due. rewrite !andb_true_iff, negb_true_iff, Z.eqb_neq, Z.eqb_eq. tauto.
Qed.

(** C5: when [train] returns, the checkpoints it saved are those of the
    iterations [i] it went through with [args.save] set,
    [args.save_interval] nonzero and [i] a multiple of it, once each
    and in order; after training, [main] saves one more checkpoint,
    of the iteration count [it] that [train] returned (0 when it did
    not run), exactly when [args.save] is set and [it] is nonzero. *)
Theorem checkpoint_schedule :
  (∀ fuel inner s it sk s' ev,
      train fuel inner s = (Ret (it, sk), s', ev) →
      saves ev = List.filter save_due (seqZ (iteration s + 1) (it - iteration s))
      ∧ ∀ i, i ∈ saves ev
             ↔ iteration s < i <= it
               ∧ truthy_str (save args) = true ∧ save_interval args ≠ 0
               ∧ i mod save_interval args = 0)
  ∧ (∀ fuel inner s s' ev,
        main fuel inner s = (Ret tt, s', ev) →
        ∃ it ev_train ev_after,
          ev = ev_train ++ ev_after
          ∧ (if (0 <? train_iters args) && do_train args
             then ∃ sk s1, train fuel inner s = (Ret (it, sk), s1, ev_train)
             else it = 0 ∧ ev_train = [])
          ∧ saves ev_after
            = (if truthy_str (save args) && negb (it =? 0) then [it] else [])).
Proof.
  split.
  - intros fuel inner s it sk s' ev H.
    apply train_inv in H as (ev' & -> & H).
    apply train_loop_inv in H as (_ & _ & _ & Hs & _).
    simpl in *. split; [exact Hs|].
    intros i. rewrite Hs, elem_of_due_saves, save_due_spec. tauto.
  - intros fuel inner s s' ev H. by eapply main_inv.
Qed.

(** C7 (as amended): outside DeepSpeed a call of [train_step] with
    fuel for one pass returns after one model call, one backward pass
    and one optimizer step; and when [args.exit_interval] is unset,
    [args.log_interval] and [args.eval_iters] are nonzero and the fuel
    exceeds the iterations to run, [train] returns with
    [args.iteration] equal to the larger of its initial value and
    [args.train_iters], after [max 0 (train_iters - initial)] steps. *)
Theorem train_terminates (fuel inner : nat) (s : state) :
  deepspeed args = false →
  truthy_int (exit_interval args) = false →
  log_interval args ≠ 0 →
  eval_iters args ≠ 0 →
  (Z.to_nat (train_iters args - iteration s) < fuel)%nat →
  (Z.to_nat (eval_iters args) < inner)%nat →
  (∀ fuel' it mems s0,
      ∃ r s1 ev,
        train_step (S fuel') it mems s0 = (Ret r, s1, ev)
        ∧ iteration s1 = iteration s0
        ∧ count is_model_call ev = 1%nat ∧ count is_backward ev = 1%nat
        ∧ count is_optimizer_step ev = 1%nat)
  ∧ ∃ sk s' ev,
      train fuel inner s = (Ret (Z.max (iteration s) (train_iters args), sk), s', ev)
      ∧ iteration s' = Z.max (iteration s) (train_iters args)
      ∧ count is_optimizer_step ev = Z.to_nat (train_iters args - iteration s)
      ∧ count is_backward ev = Z.to_nat (train_iters args - iteration s).
Proof.
  intros Hds Hexit Hlog Heval Hfuel Hinner. split.
  - intros fuel' it mems s0.
    destruct (train_step (S fuel') it mems s0) as [[o s1] ev] eqn:E.
    pose proof (train_step_inv _ _ _ _ _ _ _ E) as (Hi & _ & _ & _ & Ho).
    destruct o as [[[l sk] mems']|r].
    + destruct Ho as (_ & _ & Hc). destruct (Hc Hds) as (C1 & C2 & C3).
      by exists (l, sk, mems'), s1, ev.
    + destruct Ho as [_ [Hz|Hd]]; [discriminate|congruence].
  - destruct (train fuel inner s) as [[o s'] ev] eqn:E.
    pose proof E as E'.
    apply train_inv in E' as (ev' & -> & E').
    apply train_loop_inv in E' as [_ Ho]. simpl in Ho.
    destruct o as [[it sk]|r].
    + destruct Ho as (Hit & Hmax & _ & _ & _ & Hc). destruct (Hc Hds) as [C1 C2].
      exists sk, s', (ModelTrain :: ev'). subst it. rewrite Hmax.
      split; [reflexivity|]. split; [congruence|]. simpl. auto.
    + exfalso. rewrite Hexit in Ho.
      destruct Ho as [[_ Hr]|[[_ Hr]|[_ Hr]]]; [|tauto|discriminate].
      destruct Hr as [Hr|[Hr|[Hr|Hr]]]; try lia; congruence.
Qed.

(** *** The batch that [get_batch] hands to the model *)

(** X5: without [args.xl_dataset], and for a broadcast loss mask of the
    shape of the broadcast text, [get_batch] returns; for every row of
    the text, [tokens] holds the row without its last token, [labels]
    the row without its first token, so that the label at position [t]
    is the token at position [t + 1], and the loss mask holds a row of
    the same length whose cell at [t] is the broadcast cell at [t + 1],
    or 0 where the input token at [t] is the EOD token. *)
Theorem get_batch_next_token_labels (it : iterator) (s : state) :
  xl_dataset args = false →
  let data_b := broadcast_data it (world s) in
  Forall2 (fun row mrow => length mrow = length row) (text data_b) (loss_mask data_b) →
  ∃ tokens labels lmask att pids s',
    get_batch it s = (Ret (tokens, labels, lmask, att, pids), s', [NextBatch it])
    ∧ length tokens = length (text data_b)
    ∧ length labels = length (text data_b)
    ∧ length lmask = length (text data_b)
    ∧ ∀ b row,
        text data_b !! b = Some row →
        ∃ trow lrow mrow lm_row,
          tokens !! b = Some trow ∧ labels !! b = Some lrow
          ∧ loss_mask data_b !! b = Some mrow ∧ lmask !! b = Some lm_row
          ∧ length trow = (length row - 1)%nat
          ∧ length lrow = (length row - 1)%nat
          ∧ length lm_row = (length row - 1)%nat
          ∧ ∀ t, (t + 1 < length row)%nat →
                 trow !! t = row !! t
                 ∧ lrow !! t = row !! (t + 1)%nat
                 ∧ ∃ d m0,
                     row !! t = Some d ∧ mrow !! (t + 1)%nat = Some m0
                     ∧ lm_row !! t = Some (if d =? eod_token args then 0 else m0).
Proof.
  intros Hxl data_b Hshape. unfold get_batch, bind, ask, emit. rewrite Hxl. simpl.
  fold data_b.
  set (tokens := (fun row => take (length row - 1) row) <$> text data_b).
  destruct (get_masks_non_xl_ok tokens (eod_token args) (reset_position_ids args)
              (reset_attention_mask args) (Some (drop 1 <$> loss_mask data_b))
              (mem_length args)) as [[[att lmask] pids] Hok].
  rewrite Hok. simpl.
  apply non_xl_loss_mask in Hok. subst lmask.
  pose proof (Forall2_length _ _ _ Hshape) as Hrows.
  eexists _, _, _, _, _, _. split; [reflexivity|].
  split; [subst tokens; by rewrite length_fmap|].
  split; [by rewrite length_fmap|].
  split.
  { unfold zero_at_eod. subst tokens.
    rewrite length_zip_with, !length_fmap. lia. }
  intros b row Hb.
  destruct (Forall2_lookup_l _ _ _ _ _ Hshape Hb) as (mrow & Hmrow & Hlen).
  exists (take (length row - 1) row), (drop 1 row), mrow,
    (zip_with (fun d m => if d =? eod_token args then 0 else m)
       (take (length row - 1) row) (drop 1 mrow)).
  subst tokens. unfold zero_at_eod.
  rewrite !list_lookup_fmap, Hb.
  split; [done|]. split; [done|]. split; [exact Hmrow|].
  split.
  { erewrite lookup_zip_with_Some. eexists _, _. split; [reflexivity|].
    rewrite !list_lookup_fmap, Hb, Hmrow. done. }
  split; [rewrite length_take; lia|]. split; [rewrite length_drop; lia|].
  split; [rewrite length_zip_with, length_take, length_drop; lia|].
  intros t Ht.
  split; [apply lookup_take_lt; lia|].
  split; [rewrite lookup_drop; f_equal; lia|].
  destruct (lookup_lt_is_Some_2 row t) as [d Hd]; [lia|].
  destruct (lookup_lt_is_Some_2 mrow (t + 1)) as [m0 Hm0]; [lia|].
  exists d, m0. split; [exact Hd|]. split; [exact Hm0|].
  apply lookup_zip_with_Some. exists d, m0. split; [reflexivity|].
  split; [rewrite lookup_take_lt by lia; exact Hd|].
  rewrite lookup_drop. rewrite <- Hm0. f_equal. lia.
Qed.

(** *** [train_step] under DeepSpeed *)

Definition is_model_step (e : event) : bool :=
  match e with ModelStep => true | _ => false end.
Definition is_boundary_check (e : event) : bool :=
  match e with IsBoundary _ => true | _ => false end.
Definition is_boundary (e : event) : bool :=
  match e with IsBoundary true => true | _ => false end.

(** The calls that [train_step] makes itself under DeepSpeed. *)
Definition engine_call (e : event) : bool :=
  match e with
  | NextBatch _ | ModelCall _ _ _ | Backward ByEngine _ | IsBoundary _
  | ModelStep | ReadOverflow _ | LrSchedulerStep => true
  | _ => false
  end.

Lemma update_parameters_tensors s o s' ev :
  update_parameters s = (o, s', ev) → tensors s' = tensors s.
Proof.
  unfold update_parameters, update_learning_rate. intros H.
  mcrush_if; reflexivity.
Qed.

Lemma lr_events_engine b : Forall (fun e => engine_call e = true) (lr_events b).
Proof. unfold lr_events. destruct (fp16 args), b; simpl; repeat constructor. Qed.

Lemma train_step_deepspeed_inv fuel it mems s o s' ev :
  deepspeed args = true →
  train_step fuel it mems s = (o, s', ev) →
  let k := count is_model_call ev in
  count is_backward ev = k
  ∧ count is_boundary_check ev = k
  ∧ count is_model_step ev = k
  ∧ Forall (fun e => engine_call e = true) ev
  ∧ match o with
    | Ret (l, sk, mems') =>
        (1 <= k <= fuel)%nat
        ∧ S l = length (tensors s')
        ∧ ∃ ev0 b,
            ev = ev0 ++ [IsBoundary true; ModelStep] ++ lr_events b
            ∧ count is_boundary ev0 = 0%nat
    | Stop r => r = OutOfFuel ∧ k = fuel ∧ count is_boundary ev = 0%nat
    end.
Proof.
  intros Hds. revert mems s o s' ev.
  induction fuel as [|fuel IH]; intros mems s o s' ev H.
  - prim_inv H. simpl. auto 10.
  - simpl in H. minv1;
      match goal with
      | Hf : forward_step _ _ _ = _ |- _ =>
          apply forward_step_inv in Hf
            as (tokens & pids & amask & logits & new_mems & loss
                & Hfw & Ha & -> & Hw1 & Ht1 & Hi1)
      end; [|discriminate Ha].
    injection Ha as ->. minv1;
      match goal with
      | Hb : backward_step _ _ = _ |- _ =>
          apply backward_step_inv in Hb as (Hi2 & Hw2 & Hb);
          rewrite Hds in Hb; destruct Hb as (Hr & -> & Ht2)
      end; [|discriminate Hr].
    injection Hr as ->. minv1;
      match goal with
      | Hu : update_parameters _ = _ |- _ =>
          pose proof (update_parameters_tensors _ _ _ _ Hu) as Ht3;
          apply update_parameters_inv in Hu as (Hi3 & Hw3 & sk & complete & Ho & Hc)
      end; [|discriminate Ho].
    injection Ho as ->. destruct complete.
    + prim_inv Hk. destruct Hc as (pre & b & -> & Hpre & Hb & ->).
      rewrite Hds in Hpre. subst pre. unfold step_done_event. rewrite Hds.
      pose proof (lr_events_engine b) as Hlr.
      assert (Clr : count is_model_call (lr_events b) = 0%nat
                    ∧ count is_backward (lr_events b) = 0%nat
                    ∧ count is_boundary_check (lr_events b) = 0%nat
                    ∧ count is_model_step (lr_events b) = 0%nat)
        by (unfold lr_events; destruct (fp16 args), b; simpl; auto).
      destruct Clr as (C1 & C2 & C3 & C4).
      simpl. rewrite !count_app. simpl. rewrite ?count_app, C1, C2, C3, C4. simpl.
      split; [reflexivity|]. split; [reflexivity|]. split; [reflexivity|].
      split.
      { repeat constructor. rewrite app_nil_r. exact Hlr. }
      split; [lia|]. split; [rewrite Ht3, Ht2, Ht1, length_app; simpl; lia|].
      eexists [NextBatch it; ModelCall mems logits new_mems; Backward ByEngine _], b.
      rewrite app_nil_r. split; reflexivity.
    + destruct Hc as (_ & -> & ->).
      apply IH in Hk as (K1 & K2 & K3 & KF & Ko).
      cbv zeta. simpl. rewrite K1, K2, K3.
      split; [reflexivity|]. split; [reflexivity|]. split; [reflexivity|].
      split; [repeat constructor; exact KF|].
      destruct o as [[[l sk] mems']|r].
      * destruct Ko as (Kk & Kl & ev0 & b & -> & Kb).
        split; [lia|]. split; [exact Kl|].
        eexists ([NextBatch it; ModelCall mems logits new_mems; Backward ByEngine _;
                  IsBoundary false; ModelStep] ++ ev0), b.
        split; [reflexivity|]. rewrite count_app, Kb. reflexivity.
      * destruct Ko as (-> & Kk & Kb). split; [reflexivity|].
        split; [lia|exact Kb].
Qed.

(** X6: under DeepSpeed, [train_step] runs one forward pass, one
    backward pass through the engine, one boundary check and one
    [model.step()] per pass of its loop and calls nothing else but the
    learning-rate update; it returns at the first pass whose boundary
    check is true, with the loss tensor of that pass, and runs out of
    fuel only when all boundary checks were false. *)
Theorem deepspeed_accumulates_until_boundary
    (fuel : nat) (it : iterator) (mems : list Act) (s : state) :
  deepspeed args = true →
  let '(o, s', ev) := train_step fuel it mems s in
  let k := count is_model_call ev in
  count is_backward ev = k
  ∧ count is_boundary_check ev = k
  ∧ count is_model_step ev = k
  ∧ Forall (fun e => engine_call e = true) ev
  ∧ match o with
    | Ret (l, sk, mems') =>
        (1 <= k <= fuel)%nat
        ∧ S l = length (tensors s')
        ∧ ∃ ev0 b,
            ev = ev0 ++ [IsBoundary true; ModelStep] ++ lr_events b
            ∧ count is_boundary ev0 = 0%nat
    | Stop r => r = OutOfFuel ∧ k = fuel ∧ count is_boundary ev = 0%nat
    end.
Proof.
  intros Hds. destruct (train_step fuel it mems s) as [[o s'] ev] eqn:E.
  by apply (train_step_deepspeed_inv fuel it mems s).
Qed.

(** *** [evaluate] changes nothing but the mode *)

Definition iterator_eqb (a b : iterator) : bool :=
  match a, b with
  | TrainData, TrainData | ValData, ValData | TestData, TestData => true
  | _, _ => false
  end.

(** The calls that an evaluation on [it] may make. *)
Definition eval_call (it : iterator) (e : event) : bool :=
  match e with
  | NextBatch it' => iterator_eqb it' it
  | ModelEval | ModelTrain | ModelCall _ _ _ | CheckpointingReset
  | AllReduceLoss _ _ => true
  | _ => false
  end.

Lemma iterator_eqb_refl it : iterator_eqb it it = true.
Proof. by destruct it. Qed.

Lemma evaluate_loop_calls fuel it verbose i total mems s o s' ev :
  evaluate_loop fuel it verbose i total mems s = (o, s', ev) →
  Forall (fun e => eval_call it e = true) ev.
Proof.
  revert i total mems s o s' ev.
  induction fuel as [|fuel IH]; intros i total mems s o s' ev H.
  - prim_inv H. constructor.
  - simpl in H. destruct (i <? eval_iters args); [|prim_inv H; constructor].
    destruct verbose, (log_interval args =? 0),
      (deepspeed args && deepspeed_activation_checkpointing args), model_is_DDP;
      mcrush; try (by constructor);
      match goal with
      | Hf : forward_step _ _ _ = _ |- _ =>
          apply forward_step_inv in Hf
            as (tokens & pids & amask & logits & new_mems & loss
                & Hfw & Ha & -> & Hw1 & Ht1 & Hi1)
      end; simplify_eq; mcrush;
      match goal with
      | Hl : evaluate_loop _ _ _ _ _ _ _ = _ |- _ => apply IH in Hl
      end;
      repeat (constructor; [first [reflexivity | apply iterator_eqb_refl]|]);
      assumption.
Qed.

(** X7: [evaluate] leaves [args.iteration] as it was and calls nothing
    but [model.eval()], [model.train()], the data iterator it was given,
    the model, the all-reduce of the loss and the reset of activation
    checkpointing: no backward pass, no optimizer or scheduler step, no
    checkpoint.  When it returns, it has switched to evaluation mode
    first and back to training mode last, with [args.eval_iters] model
    calls between; otherwise it ran out of fuel or divided by zero. *)
Theorem evaluate_read_only (fuel : nat) (it : iterator) (verbose : bool) (s : state) :
  let '(o, s', ev) := evaluate fuel it verbose s in
  iteration s' = iteration s
  ∧ Forall (fun e => eval_call it e = true) ev
  ∧ match o with
    | Ret _ =>
        ∃ mid, ev = ModelEval :: mid ++ [ModelTrain]
               ∧ count is_mode mid = 0%nat
               ∧ count is_model_call mid = Z.to_nat (eval_iters args)
    | Stop r => r = OutOfFuel ∨ r = Raised ZeroDivisionError
    end.
Proof.
  destruct (evaluate fuel it verbose s) as [[o s'] ev] eqn:E.
  pose proof (evaluate_inv _ _ _ _ _ _ _ E) as (Hi & _ & _ & _ & _ & _ & _ & Hpost).
  split; [exact Hi|].
  unfold evaluate in E. minv1; [|prim_inv Hm]. prim_inv Hm.
  minv1;
    match goal with
    | Hl : evaluate_loop _ _ _ _ _ _ _ = _ |- _ =>
        pose proof (evaluate_loop_calls _ _ _ _ _ _ _ _ _ _ Hl) as Hcalls;
        apply evaluate_loop_inv in Hl as (_ & _ & _ & _ & _ & _ & Cmode & _ & Ho)
    end.
  - minv1; [|prim_inv Hm]. prim_inv Hm.
    destruct Ho as [_ Hc]. rewrite Z.sub_0_r in Hc.
    destruct (eval_iters args =? 0); prim_inv Hk.
    + split; [|by right].
      constructor; [done|]. apply Forall_app. split; [exact Hcalls|by repeat constructor].
    + split.
      { constructor; [done|]. apply Forall_app. split; [exact Hcalls|by repeat constructor]. }
      exists ev. auto.
  - split; [by constructor|].
    destruct Hpost as [[-> _]|[-> _]]; auto.
Qed.

(** *** [train] with [args.log_interval = 0] *)

Lemma train_body_log_zero inner total skipped flag mems s o s' ev :
  log_interval args = 0 → deepspeed args = false →
  train_body (S inner) total skipped flag mems s = (o, s', ev) →
  o = Stop (Raised ZeroDivisionError)
  ∧ iteration s' = iteration s + 1
  ∧ count is_optimizer_step ev = 1%nat
  ∧ count is_backward ev = 1%nat
  ∧ saves ev = [].
Proof.
  intros Hlog Hds H. unfold train_body in H. rewrite Hlog in H.
  change (0 =? 0) with true in H. cbv iota in H.
  minv1;
    match goal with
    | Hs : train_step _ _ _ _ = _ |- _ =>
        apply train_step_inv in Hs as (Hi0 & _ & Hs0 & _ & Ho0)
    end.
  2:{ destruct Ho0 as [_ [Hz|Hd]]; [discriminate|congruence]. }
  destruct a as [[lm_loss sk] mems1].
  destruct Ho0 as (_ & _ & Hnd).
  destruct (Hnd Hds) as (_ & Cb & Copt).
  mcrush. rewrite app_nil_r.
  split; [reflexivity|]. split; [lia|]. auto.
Qed.

(** X8: with [args.log_interval = 0], outside DeepSpeed, a call of
    [train] that has an iteration to run performs one full training
    step (one backward pass, one optimizer step), increments
    [args.iteration] and then raises [ZeroDivisionError] at the logging
    test, before any checkpoint is saved. *)
Theorem train_log_interval_zero (fuel inner : nat) (s : state) :
  log_interval args = 0 →
  deepspeed args = false →
  iteration s < train_iters args →
  ∃ s' ev,
    train (S fuel) (S inner) s = (Stop (Raised ZeroDivisionError), s', ev)
    ∧ iteration s' = iteration s + 1
    ∧ count is_optimizer_step ev = 1%nat
    ∧ count is_backward ev = 1%nat
    ∧ saves ev = [].
Proof.
  intros Hlog Hds Hlt.
  destruct (train (S fuel) (S inner) s) as [[o s'] ev] eqn:E.
  apply train_inv in E as (ev' & -> & E). simpl in E.
  minv1; [|prim_inv Hm]. prim_inv Hm. simpl in Hk.
  apply Z.ltb_lt in Hlt. rewrite Hlt in Hk.
  minv1;
    match goal with
    | Hb : train_body _ _ _ _ _ _ = _ |- _ =>
        apply (train_body_log_zero _ _ _ _ _ _ _ _ _ Hlog Hds) in Hb
          as (Ho & Hi & Co & Cb & Hs)
    end; [discriminate Ho|].
  injection Ho as ->. eexists _, _. split; [reflexivity|]. simpl in *. auto.
Qed.

(** *** [train] with [args.exit_interval] *)

(** [args.exit_interval and args.iteration % args.exit_interval == 0] *)
Definition exit_due (i : Z) : bool :=
  truthy_int (exit_interval args) && (i mod default 0 (exit_interval args) =? 0).

Lemma train_body_exit inner total skipped flag mems s o s' ev :
  train_body inner total skipped flag mems s = (o, s', ev) →
  match o with
  | Ret _ => exit_due (iteration s + 1) = false
  | Stop Exited =>
      exit_due (iteration s + 1) = true
      ∧ iteration s' = iteration s + 1
      ∧ saves ev = (if save_due (iteration s + 1) then [iteration s + 1] else [])
      ∧ last ev = Some Barrier
  | Stop _ => True
  end.
Proof.
  intros H. unfold train_body in H. minv1;
    match goal with
    | Hs : train_step _ _ _ _ = _ |- _ =>
        apply train_step_inv in Hs as (Hi0 & _ & Hs0 & _ & Ho0)
    end.
  2:{ by destruct Ho0 as [-> _]. }
  destruct a as [[lm_loss sk] mems1]. clear Ho0.
  mcrush_if;
    repeat match goal with
      | He : evaluate_and_print_results _ _ _ _ = _ |- _ =>
          apply evaluate_and_print_results_inv in He
            as (Hie & Hse & _ & _ & _ & _ & _ & Hoe);
          simpl in Hie
      end.
  all: try (destruct Hoe as [[-> _]|[-> _]]; exact I).
  all: try exact I.
  all: try (unfold exit_due; rewrite <- Hi0; assumption).
  all: (split; [unfold exit_due; rewrite <- Hi0; assumption|]);
    (split; [simpl in *; congruence|]);
    (split;
     [rewrite ?saves_app, ?Hs0; simpl; rewrite ?saves_app, ?Hse; simpl;
      unfold save_due; rewrite <- Hi0;
      match goal with
      | Hc : truthy_str _ && _ && _ = _ |- _ => rewrite Hc
      end; reflexivity|]);
    repeat first [rewrite last_app | rewrite last_cons]; reflexivity.
Qed.

Lemma due_saves_one i :
  due_saves i (i + 1) = if save_due (i + 1) then [i + 1] else [].
Proof.
  rewrite due_saves_step by lia. unfold due_saves at 1.
  rewrite seqZ_nil by lia. simpl. by rewrite app_nil_r.
Qed.

Lemma train_loop_exit fuel inner total skipped flag mems s o s' ev :
  train_loop fuel inner total skipped flag mems s = (o, s', ev) →
  match o with
  | Ret (it, _) => ∀ i, iteration s < i <= it → exit_due i = false
  | Stop Exited =>
      iteration s < iteration s' <= train_iters args
      ∧ exit_due (iteration s') = true
      ∧ (∀ i, iteration s < i < iteration s' → exit_due i = false)
      ∧ saves ev = due_saves (iteration s) (iteration s')
      ∧ last ev = Some Barrier
  | Stop _ => True
  end.
Proof.
  revert total skipped flag mems s o s' ev.
  induction fuel as [|fuel IH]; intros total skipped flag mems s o s' ev H.
  - by prim_inv H.
  - simpl in H. minv1; [|prim_inv Hm]. prim_inv Hm.
    match goal with
    | Hl : (if iteration ?st <? _ then _ else _) _ = _ |- _ =>
        rename st into s_; rename Hl into H
    end.
    simpl. destruct (iteration s_ <? train_iters args) eqn:Elt.
    2:{ mcrush. intros i Hi. lia. }
    apply Z.ltb_lt in Elt. minv1;
      match goal with
      | Hb : train_body _ _ _ _ _ _ = _ |- _ =>
          pose proof (train_body_exit _ _ _ _ _ _ _ _ _ Hb) as Hx;
          apply train_body_inv in Hb as [_ Ho1]
      end.
    2:{ destruct r; try exact I.
        destruct Hx as (Hdue & Hi & Hs & Hlast). rewrite Hi.
        split; [lia|]. split; [exact Hdue|]. split; [intros i Hlt; lia|].
        split; [by rewrite due_saves_one|exact Hlast]. }
    destruct a as [[[total' skipped'] flag'] mems'].
    destruct Ho1 as (Hi1 & _ & Hs1 & _).
    match goal with
    | Hl : train_loop _ _ _ _ _ _ _ = _ |- _ => apply IH in Hl
    end.
    destruct o as [[it sk]|r].
    + intros i Hi. destruct (decide (i = iteration s_ + 1)) as [->|Hne];
        [exact Hx|]. apply Hk. lia.
    + destruct r; try exact I.
      destruct Hk as (Hrange & Hdue & Hbefore & Hs2 & Hlast). rewrite Hi1 in *.
      split; [lia|]. split; [exact Hdue|]. split.
      { intros i Hi. destruct (decide (i = iteration s_ + 1)) as [->|Hne];
          [exact Hx|]. apply Hbefore. lia. }
      split.
      { rewrite saves_app, Hs1, Hs2. symmetry. apply due_saves_step. lia. }
      by rewrite last_app, Hlast.
Qed.

(** X9: [train] stops by [exit()] at the first iteration that is a
    multiple of a nonzero [args.exit_interval]: when it returns, it
    went through no such iteration; when it exits, [args.iteration] is
    such an iteration, within [args.train_iters], no earlier one was,
    the checkpoints due up to and including it were saved, and the
    barrier was passed, after which no model call, backward pass,
    optimizer step or scheduler step is made and no checkpoint is
    saved.  (The rank query and the message printed
    between the barrier and [exit()] are not recorded in the trace.) *)
Theorem train_exits_at_first_multiple :
  (∀ i, exit_due i = true
        ↔ ∃ x, exit_interval args = Some x ∧ x ≠ 0 ∧ i mod x = 0)
  ∧ (∀ fuel inner s it sk s' ev,
        train fuel inner s = (Ret (it, sk), s', ev) →
        ∀ i, iteration s < i <= it → exit_due i = false)
  ∧ (∀ fuel inner s s' ev,
        train fuel inner s = (Stop Exited, s', ev) →
        iteration s < iteration s' <= train_iters args
        ∧ exit_due (iteration s') = true
        ∧ (∀ i, iteration s < i < iteration s' → exit_due i = false)
        ∧ saves ev = List.filter save_due
                       (seqZ (iteration s + 1) (iteration s' - iteration s))
        ∧ ∃ before after,
            ev = before ++ Barrier :: after
            ∧ saves after = []
            ∧ count is_model_call after = 0%nat
            ∧ count is_backward after = 0%nat
            ∧ count is_optimizer_step after = 0%nat
            ∧ count is_lr_step after = 0%nat).
Proof.
  split; [|split].
  - intros i. unfold exit_due, truthy_int.
    destruct (exit_interval args) as [x|]; simpl.
    + rewrite andb_true_iff, negb_true_iff, Z.eqb_neq, Z.eqb_eq. split.
      * intros [Hx Hi]. by exists x.
      * intros (x' & Hx' & Hne & Hi). by injection Hx' as <-.
    + split; [discriminate|]. intros (x & Hx & _). discriminate Hx.
  - intros fuel inner s it sk s' ev H.
    apply train_inv in H as (ev' & -> & H).
    apply train_loop_exit in H. exact H.
  - intros fuel inner s s' ev H.
    apply train_inv in H as (ev' & -> & H).
    apply train_loop_exit in H. simpl in H.
    destruct H as (H1 & H2 & H3 & H4 & H5).
    split; [exact H1|]. split; [exact H2|]. split; [exact H3|].
    split; [exact H4|].
    apply last_Some in H5 as [before Hev].
    exists (ModelTrain :: before), []. subst ev'.
    by repeat split.
Qed.

(** *** Logging and evaluation during [train] *)

(** The iterations that were reported by [report_iteration_metrics],
    in order. *)
Fixpoint logged (ev : list event) : list Z :=
  match ev with
  | [] => []
  | ReportIteration _ i :: ev => i :: logged ev
  | _ :: ev => logged ev
  end.

Definition is_report_evaluate (e : event) : bool :=
  match e with ReportEvaluate _ => true | _ => false end.

(** [args.eval_interval and args.iteration % args.eval_interval == 0
     and args.do_valid] *)
Definition eval_due (i : Z) : bool :=
  negb (eval_interval args =? 0) && (i mod eval_interval args =? 0) && do_valid args.

Definition log_due (i : Z) : bool := i mod log_interval args =? 0.

Lemma logged_app ev1 ev2 : logged (ev1 ++ ev2) = logged ev1 ++ logged ev2.
Proof.
  induction ev1 as [|e ev1 IH]; simpl; [done|]. destruct e; simpl; by rewrite ?IH.
Qed.

Lemma step_calls_quiet ev :
  Forall (fun e => step_call e = true) ev →
  logged ev = [] ∧ count is_report_evaluate ev = 0%nat.
Proof.
  induction 1 as [|e ev He Hall [IH1 IH2]]; [done|].
  destruct e; simpl in *; try discriminate; auto.
Qed.

Lemma eval_calls_quiet it ev :
  Forall (fun e => eval_call it e = true) ev →
  logged ev = [] ∧ count is_report_evaluate ev = 0%nat.
Proof.
  induction 1 as [|e ev He Hall [IH1 IH2]]; [done|].
  destruct e; simpl in *; try discriminate; auto.
Qed.

Lemma evaluate_calls fuel it verbose s o s' ev :
  evaluate fuel it verbose s = (o, s', ev) →
  Forall (fun e => eval_call it e = true) ev.
Proof.
  unfold evaluate. intros H. minv1; [|prim_inv Hm]. prim_inv Hm.
  minv1;
    match goal with
    | Hl : evaluate_loop _ _ _ _ _ _ _ = _ |- _ =>
        apply evaluate_loop_calls in Hl; rename Hl into Hcalls
    end; [|by constructor].
  minv1; [|prim_inv Hm]. prim_inv Hm.
  constructor; [done|]. apply Forall_app. split; [exact Hcalls|].
  destruct (eval_iters args =? 0); prim_inv Hk; by repeat constructor.
Qed.

Lemma evaluate_and_print_results_reports fuel it verbose s v s' ev :
  evaluate_and_print_results fuel it verbose s = (Ret v, s', ev) →
  logged ev = [] ∧ count is_report_evaluate ev = 1%nat.
Proof.
  unfold evaluate_and_print_results. intros H. minv1.
  apply evaluate_calls, eval_calls_quiet in Hm as [H1 H2].
  minv. rewrite logged_app, count_app, H1, H2. done.
Qed.

Lemma train_body_reports inner total skipped flag mems s r s' ev :
  train_body inner total skipped flag mems s = (Ret r, s', ev) →
  let i := iteration s + 1 in
  log_interval args ≠ 0
  ∧ logged ev = (if log_due i then [i] else [])
  ∧ count is_report_evaluate ev = (if eval_due i then 1 else 0)%nat.
Proof.
  intros H i. unfold train_body in H. minv1.
  match goal with
  | Hs : train_step _ _ _ _ = _ |- _ =>
      pose proof (train_step_calls _ _ _ _ _ _ _ Hs) as Hq;
      apply step_calls_quiet in Hq as [Hq1 Hq2];
      apply train_step_inv in Hs as (Hi0 & _ & _ & _ & _)
  end.
  destruct a as [[lm_loss sk] mems1].
  mcrush_if;
    repeat match goal with
      | He : evaluate_and_print_results _ _ _ _ = _ |- _ =>
          apply evaluate_and_print_results_reports in He as [He1 He2]
      end;
    (split; [by apply Z.eqb_neq|]);
    rewrite ?logged_app, ?count_app, ?Hq1, ?Hq2; simpl;
    rewrite ?logged_app, ?count_app, ?He1, ?He2; simpl;
    unfold log_due, eval_due; subst i; rewrite <- Hi0;
    repeat match goal with
      | Hc : (_ mod log_interval args =? 0) = _ |- _ => rewrite Hc; clear Hc
      | Hc : negb (eval_interval args =? 0) && _ && _ = _ |- _ => rewrite Hc; clear Hc
      end;
    split; reflexivity.
Qed.

Lemma filter_seqZ_step (P : Z → bool) from to :
  from < to →
  List.filter P (seqZ (from + 1) (to - from))
  = (if P (from + 1) then [from + 1] else [])
    ++ List.filter P (seqZ (from + 1 + 1) (to - (from + 1))).
Proof.
  intros Hlt. rewrite (seqZ_cons (from + 1)) by lia. simpl.
  replace (Z.pred (to - from)) with (to - (from + 1)) by lia.
  replace (Z.succ (from + 1)) with (from + 1 + 1) by lia.
  by destruct (P (from + 1)).
Qed.

Lemma train_loop_reports fuel inner total skipped flag mems s it sk s' ev :
  train_loop fuel inner total skipped flag mems s = (Ret (it, sk), s', ev) →
  logged ev = List.filter log_due (seqZ (iteration s + 1) (it - iteration s))
  ∧ count is_report_evaluate ev
    = length (List.filter eval_due (seqZ (iteration s + 1) (it - iteration s))).
Proof.
  revert total skipped flag mems s ev.
  induction fuel as [|fuel IH]; intros total skipped flag mems s ev H.
  - prim_inv H.
  - simpl in H. minv1. prim_inv Hm.
    match goal with
    | Hl : (if iteration ?st <? _ then _ else _) _ = _ |- _ =>
        rename st into s_; rename Hl into H
    end.
    simpl. destruct (iteration s_ <? train_iters args) eqn:Elt.
    2:{ mcrush. rewrite seqZ_nil by lia. done. }
    apply Z.ltb_lt in Elt. minv1.
    match goal with
    | Hb : train_body _ _ _ _ _ _ = _ |- _ =>
        pose proof (train_body_reports _ _ _ _ _ _ _ _ _ Hb) as (_ & Hl1 & He1);
        apply train_body_inv in Hb as [_ Ho1]
    end.
    destruct a as [[[total' skipped'] flag'] mems'].
    destruct Ho1 as (Hi1 & _).
    match goal with
    | Hl : train_loop _ _ _ _ _ _ _ = _ |- _ =>
        pose proof (train_loop_inv _ _ _ _ _ _ _ _ _ _ Hl) as (_ & _ & Hmax & _);
        apply IH in Hl as [Hl2 He2]
    end.
    rewrite Hi1 in *.
    rewrite logged_app, count_app, Hl1, He1, Hl2, He2.
    rewrite !(filter_seqZ_step _ (iteration s_) it) by lia.
    split; [reflexivity|]. rewrite length_app. by destruct (eval_due _).
Qed.

(** X23: when [train] returns, [report_iteration_metrics] was called
    for exactly the iterations it went through that are multiples of
    [args.log_interval], in order, and the validation set was evaluated
    and reported once for each iteration that is a multiple of a
    nonzero [args.eval_interval], provided [args.do_valid] is set. *)
Theorem train_reports_on_schedule (fuel inner : nat) (s : state) :
  match train fuel inner s with
  | (Ret (it, sk), s', ev) =>
      logged ev
      = List.filter (fun i => i mod log_interval args =? 0)
          (seqZ (iteration s + 1) (it - iteration s))
      ∧ count is_report_evaluate ev
        = length (List.filter
                    (fun i => negb (eval_interval args =? 0)
                              && (i mod eval_interval args =? 0) && do_valid args)
                    (seqZ (iteration s + 1) (it - iteration s)))
  | (Stop _, _, _) => True
  end.
Proof.
  destruct (train fuel inner s) as [[[[it sk]|r] s'] ev] eqn:E; [|done].
  apply train_inv in E as (ev' & -> & E).
  apply train_loop_reports in E. exact E.
Qed.

(** *** The checkpoint that [main] saves after training *)

(** X24: when [main] has trained up to [args.train_iters] and returns,
    with [args.save] set, the checkpoints saved are those that [train]
    saved at the multiples of [args.save_interval], followed by one of
    the last iteration; so when [args.train_iters] is itself such a
    multiple, the last iteration is saved twice in a row. *)
Theorem final_checkpoint_after_training (fuel inner : nat) (s s' : state)
    (ev : list event) :
  main fuel inner s = (Ret tt, s', ev) →
  do_train args = true →
  0 < train_iters args →
  iteration s < train_iters args →
  truthy_str (save args) = true →
  saves ev
  = List.filter save_due (seqZ (iteration s + 1) (train_iters args - iteration s))
    ++ [train_iters args]
  ∧ (save_interval args ≠ 0 → train_iters args mod save_interval args = 0 →
     ∃ earlier, saves ev = earlier ++ [train_iters args; train_iters args]).
Proof.
  intros H Hdo Hpos Hlt Hsave.
  destruct (main_inv _ _ _ _ _ _ H eq_refl) as (it & ev_train & ev_after & -> & Htr & Hafter).
  apply Z.ltb_lt in Hpos as Hpos'. rewrite Hpos', Hdo in Htr. simpl in Htr.
  destruct Htr as (sk & s1 & Htr).
  apply train_inv in Htr as (ev' & -> & Htr).
  apply train_loop_inv in Htr as (_ & _ & Hmax & Hs & _). simpl in Hmax, Hs.
  assert (Hit : it = train_iters args) by lia. clear Hmax. subst it.
  rewrite Hsave in Hafter.
  destruct (train_iters args =? 0) eqn:E0; [apply Z.eqb_eq in E0; lia|].
  simpl in Hafter.
  assert (Hall : saves ((ModelTrain :: ev') ++ ev_after)
                 = List.filter save_due
                     (seqZ (iteration s + 1) (train_iters args - iteration s))
                   ++ [train_iters args]).
  { rewrite saves_app, Hafter. simpl. by rewrite Hs. }
  split; [exact Hall|].
  intros Hint Hmod. rewrite Hall.
  replace (train_iters args - iteration s)
    with ((train_iters args - iteration s - 1) + 1) by lia.
  rewrite seqZ_app by lia. rewrite List.filter_app.
  replace (iteration s + 1 + (train_iters args - iteration s - 1))
    with (train_iters args) by lia.
  assert (Hdue : save_due (train_iters args) = true) by (by apply save_due_spec).
  change (seqZ (train_iters args) 1) with [train_iters args].
  simpl. rewrite Hdue. eexists. by rewrite <- app_assoc.
Qed.

End Framework.

(** *** A small framework to run the program on

    The world counts the calls made so far; a batch holds one row of four
    tokens; the model returns the call count as logits and pushes it on
    the mems; one other rank contributes the loss 1; the optimizer
    reports an overflow at every third call count. *)

Module Demo.

Definition exec (e : event Z) (w : nat) : nat := S w.

Definition broadcast_data (it : iterator) (w : nat) : batch_data :=
  {| text := [[Z.of_nat w; 0; 3; 4]];
     target := [[0; 3; 4]];
     loss_mask := [[1; 1; 1; 0]];
     attention_mask := [[[1; 1; 1]; [1; 1; 1]; [1; 1; 1]]] |}.

Definition model_forward (w : nat) (tokens position_ids : t2) (attention_mask : t4)
    (mems : list Z) : Z * list Z :=
  (Z.of_nat w, Z.of_nat w :: mems).

Definition vocab_parallel_cross_entropy (logits : Z) (labels : t2) : list float :=
  (fun l => Finite (inject_Z (l + logits))) <$> concat labels.

Definition peer_losses (w : nat) : list float := [Finite 1].

Definition is_gradient_accumulation_boundary (w : nat) : bool := Nat.even w.

Definition overflow (w : nat) : bool := Nat.eqb (w mod 3) 0.

Definition args (train_iters : Z) : Args :=
  {| fp16 := true; deepspeed := false; deepspeed_activation_checkpointing := false;
     clip_grad := 1; world_size := 2; train_iters := train_iters; eval_iters := 2;
     log_interval := 2; save_interval := 2; eval_interval := 3;
     exit_interval := None; save := Some "ckpt"%string;
     do_train := true; do_valid := true; do_test := false;
     xl_dataset := false; mem_length := 0; eod_token := 0;
     reset_position_ids := true; reset_attention_mask := true |}.

Definition start (iteration : Z) : state nat :=
  {| world := 0%nat; tensors := []; iteration := iteration |}.

Abbreviation train_step :=
  (train_step nat Z exec broadcast_data model_forward vocab_parallel_cross_entropy
     peer_losses is_gradient_accumulation_boundary overflow).

Abbreviation train :=
  (train nat Z exec broadcast_data model_forward vocab_parallel_cross_entropy
     peer_losses is_gradient_accumulation_boundary overflow true).

Abbreviation main :=
  (main nat Z exec broadcast_data model_forward vocab_parallel_cross_entropy
     peer_losses is_gradient_accumulation_boundary overflow true).

Abbreviation backward_step := (backward_step nat Z exec peer_losses).

End Demo.

Lemma backward_step_reduces_loss_witness :
  let s := {| world := 0%nat; tensors := [Finite 2]; iteration := 0 |} in
  let total := Finite (0 + 2 + 1) in
  ∃ s',
    Demo.backward_step (Demo.args 4) 0 s
    = (Ret 1%nat, s',
       [ZeroGrad Z; Backward Z ByOptimizer (Finite 2); AllReduceLoss Z (Finite 2) total;
        UpdateMasterGrads Z; ClipMasterGrads Z 1])
    ∧ tensors nat s' !! 1%nat = Some (fdiv total (of_Z 2))
    ∧ tensors nat s' !! 0%nat = Some total
    ∧ (Qle_bool 1 0 = false ↔ (0 < 1)%Q).
Proof.
  exact (backward_step_reduces_loss nat Z Demo.exec Demo.peer_losses (Demo.args 4)
           0 (Finite 2) {| world := 0%nat; tensors := [Finite 2]; iteration := 0 |}
           eq_refl eq_refl).
Defined.

Lemma train_terminates_witness :
  (∀ fuel' it mems s0,
      ∃ r s1 ev,
        Demo.train_step (Demo.args 4) (S fuel') it mems s0 = (Ret r, s1, ev)
        ∧ iteration nat s1 = iteration nat s0
        ∧ count Z (is_model_call Z) ev = 1%nat ∧ count Z (is_backward Z) ev = 1%nat
        ∧ count Z (is_optimizer_step Z) ev = 1%nat)
  ∧ ∃ sk s' ev,
      Demo.train (Demo.args 4) 5 3 (Demo.start 1) = (Ret (4, sk), s', ev)
      ∧ iteration nat s' = 4
      ∧ count Z (is_optimizer_step Z) ev = 3%nat
      ∧ count Z (is_backward Z) ev = 3%nat.
Proof.
  apply (train_terminates nat Z Demo.exec Demo.broadcast_data Demo.model_forward
           Demo.vocab_parallel_cross_entropy Demo.peer_losses
           Demo.is_gradient_accumulation_boundary Demo.overflow true
           (Demo.args 4) 5 3 (Demo.start 1));
    simpl; first [reflexivity | discriminate | lia].
Defined.

(** C7 as written fails: resumed at iteration 5 with [train_iters = 3],
    [train] returns at once and [args.iteration] stays 5. *)
Lemma train_resumed_past_train_iters :
  ¬ (∀ (a : Args) (fuel inner : nat) (s : state nat),
        deepspeed a = false → exit_interval a = None →
        (Z.to_nat (train_iters a - iteration nat s) < fuel)%nat →
        ∃ sk s' ev,
          Demo.train a fuel inner s = (Ret (train_iters a, sk), s', ev)
          ∧ iteration nat s' = train_iters a).
Proof.
  intros H.
  destruct (H (Demo.args 3) 1%nat 1%nat (Demo.start 5) eq_refl eq_refl ltac:(simpl; lia))
    as (sk & s' & ev & Hrun & _).
  vm_compute in Hrun. discriminate Hrun.
Qed.

(** A run of [train] and of [main] in the small framework, four
    iterations from iteration 0. *)
Definition demo_train_run : outcome (Z * Z) * state nat * list (event Z) :=
  Eval vm_compute in Demo.train (Demo.args 4) 5 3 (Demo.start 0).

Definition demo_main_run : outcome unit * state nat * list (event Z) :=
  Eval vm_compute in Demo.main (Demo.args 4) 5 3 (Demo.start 0).

Lemma demo_train_run_eq :
  Demo.train (Demo.args 4) 5 3 (Demo.start 0)
  = (Ret (4, 4), demo_train_run.1.2, demo_train_run.2).
Proof. vm_compute. reflexivity. Qed.

Lemma demo_main_run_eq :
  Demo.main (Demo.args 4) 5 3 (Demo.start 0)
  = (Ret tt, demo_main_run.1.2, demo_main_run.2).
Proof. vm_compute. reflexivity. Qed.

(** In the run of four iterations, with an evaluation after the third,
    each training call receives the mems of the training call before it;
    the evaluation, which starts from the empty list, does not come
    between. *)
Example demo_training_chain :
  training_calls Z false demo_train_run.2
  = [([], [2]); ([2], [11; 2]); ([11; 2], [23; 11; 2]);
     ([23; 11; 2], [41; 23; 11; 2])]
  ∧ all_calls Z demo_train_run.2
    = [([], [2]); ([2], [11; 2]); ([11; 2], [23; 11; 2]); ([], [33]);
       ([33], [36; 33]); ([23; 11; 2], [41; 23; 11; 2])].
Proof. split; vm_compute; reflexivity. Qed.

Lemma mems_carried_forward_witness :
  chained Z [] (training_calls Z false demo_train_run.2)
  ∧ 4 - 0 <= Z.of_nat (length (training_calls Z false demo_train_run.2))
  ∧ length (training_calls Z false demo_train_run.2) = Z.to_nat (4 - 0).
Proof.
  pose proof (proj1 (proj2 (proj2
                (mems_carried_forward nat Z Demo.exec Demo.broadcast_data
                   Demo.model_forward Demo.vocab_parallel_cross_entropy Demo.peer_losses
                   Demo.is_gradient_accumulation_boundary Demo.overflow true
                   (Demo.args 4))))
                5%nat 3%nat (Demo.start 0)) as H.
  rewrite demo_train_run_eq in H. cbn [fst snd] in H.
  destruct H as (Hchain & Hge & Heq).
  exact (conj Hchain (conj Hge (Heq eq_refl))).
Defined.

Lemma lr_step_unless_overflow_witness :
  4 = Z.of_nat (count Z (is_overflow Z) demo_train_run.2)
  ∧ Z.of_nat (count Z (is_lr_step Z) demo_train_run.2) + 4 = 4 - 0.
Proof.
  exact (proj2 (lr_step_unless_overflow nat Z Demo.exec Demo.broadcast_data
                  Demo.model_forward Demo.vocab_parallel_cross_entropy Demo.peer_losses
                  Demo.is_gradient_accumulation_boundary Demo.overflow true (Demo.args 4))
           5%nat 3%nat (Demo.start 0) 4 4 demo_train_run.1.2 demo_train_run.2
           demo_train_run_eq).
Defined.

Lemma checkpoint_schedule_witness :
  (saves Z demo_train_run.2 = List.filter (save_due (Demo.args 4)) (seqZ (0 + 1) (4 - 0))
   ∧ ∀ i, i ∈ saves Z demo_train_run.2
          ↔ 0 < i <= 4
            ∧ truthy_str (Some "ckpt"%string) = true ∧ 2 ≠ 0 ∧ i mod 2 = 0)
  ∧ ∃ it ev_train ev_after,
      demo_main_run.2 = ev_train ++ ev_after
      ∧ (∃ sk s1, Demo.train (Demo.args 4) 5 3 (Demo.start 0) = (Ret (it, sk), s1, ev_train))
      ∧ saves Z ev_after = (if true && negb (it =? 0) then [it] else []).
Proof.
  split.
  - exact (proj1 (checkpoint_schedule nat Z Demo.exec Demo.broadcast_data
                    Demo.model_forward Demo.vocab_parallel_cross_entropy Demo.peer_losses
                    Demo.is_gradient_accumulation_boundary Demo.overflow true (Demo.args 4))
             5%nat 3%nat (Demo.start 0) 4 4 demo_train_run.1.2 demo_train_run.2
             demo_train_run_eq).
  - exact (proj2 (checkpoint_schedule nat Z Demo.exec Demo.broadcast_data
                    Demo.model_forward Demo.vocab_parallel_cross_entropy Demo.peer_losses
                    Demo.is_gradient_accumulation_boundary Demo.overflow true (Demo.args 4))
             5%nat 3%nat (Demo.start 0) demo_main_run.1.2 demo_main_run.2
             demo_main_run_eq).
Defined.

(** The small framework with DeepSpeed switched on or off, a logging
    interval and an exit interval. *)
Definition demo_args (deepspeed : bool) (log_interval : Z) (exit_interval : option Z)
  : Args :=
  {| fp16 := true; deepspeed := deepspeed; deepspeed_activation_checkpointing := false;
     clip_grad := 1; world_size := 2; train_iters := 4; eval_iters := 2;
     log_interval := log_interval; save_interval := 2; eval_interval := 3;
     exit_interval := exit_interval; save := Some "ckpt"%string;
     do_train := true; do_valid := true; do_test := false;
     xl_dataset := false; mem_length := 0; eod_token := 0;
     reset_position_ids := true; reset_attention_mask := true |}.

Lemma get_batch_next_token_labels_witness :
  let data_b := Demo.broadcast_data TrainData (world nat (Demo.start 0)) in
  ∃ (tokens labels lmask : t2) (att : t4) (pids : t2) (s' : state nat),
    get_batch nat Z Demo.exec Demo.broadcast_data (Demo.args 4) TrainData (Demo.start 0)
    = (Ret (tokens, labels, lmask, att, pids), s', [NextBatch Z TrainData])
    ∧ length tokens = length (text data_b)
    ∧ length labels = length (text data_b)
    ∧ length lmask = length (text data_b)
    ∧ ∀ b row,
        text data_b !! b = Some row →
        ∃ trow lrow mrow lm_row,
          tokens !! b = Some trow ∧ labels !! b = Some lrow
          ∧ loss_mask data_b !! b = Some mrow ∧ lmask !! b = Some lm_row
          ∧ length trow = (length row - 1)%nat
          ∧ length lrow = (length row - 1)%nat
          ∧ length lm_row = (length row - 1)%nat
          ∧ ∀ t, (t + 1 < length row)%nat →
                 trow !! t = row !! t
                 ∧ lrow !! t = row !! (t + 1)%nat
                 ∧ ∃ d m0,
                     row !! t = Some d ∧ mrow !! (t + 1)%nat = Some m0
                     ∧ lm_row !! t
                       = Some (if d =? eod_token (Demo.args 4) then 0 else m0).
Proof.
  apply (get_batch_next_token_labels nat Z Demo.exec Demo.broadcast_data (Demo.args 4)
           TrainData (Demo.start 0) eq_refl).
  repeat constructor.
Defined.

Lemma deepspeed_accumulates_until_boundary_witness :
  let '(o, s', ev) := Demo.train_step (demo_args true 2 None) 5 TrainData [] (Demo.start 0) in
  let k := count Z (is_model_call Z) ev in
  count Z (is_backward Z) ev = k
  ∧ count Z (is_boundary_check Z) ev = k
  ∧ count Z (is_model_step Z) ev = k
  ∧ Forall (fun e => engine_call Z e = true) ev
  ∧ match o with
    | Ret (l, _, _) =>
        (1 <= k <= 5)%nat
        ∧ S l = length (tensors nat s')
        ∧ ∃ ev0 b,
            ev = ev0 ++ [IsBoundary Z true; ModelStep Z]
                 ++ lr_events Z (demo_args true 2 None) b
            ∧ count Z (is_boundary Z) ev0 = 0%nat
    | Stop r => r = OutOfFuel ∧ k = 5%nat ∧ count Z (is_boundary Z) ev = 0%nat
    end.
Proof.
  exact (deepspeed_accumulates_until_boundary nat Z Demo.exec Demo.broadcast_data
           Demo.model_forward Demo.vocab_parallel_cross_entropy Demo.peer_losses
           Demo.is_gradient_accumulation_boundary Demo.overflow (demo_args true 2 None)
           5 TrainData [] (Demo.start 0) eq_refl).
Defined.

Lemma train_log_interval_zero_witness :
  ∃ s' ev,
    Demo.train (demo_args false 0 None) 4 3 (Demo.start 0)
    = (Stop (Raised ZeroDivisionError), s', ev)
    ∧ iteration nat s' = iteration nat (Demo.start 0) + 1
    ∧ count Z (is_optimizer_step Z) ev = 1%nat
    ∧ count Z (is_backward Z) ev = 1%nat
    ∧ saves Z ev = [].
Proof.
  exact (train_log_interval_zero nat Z Demo.exec Demo.broadcast_data Demo.model_forward
           Demo.vocab_parallel_cross_entropy Demo.peer_losses
           Demo.is_gradient_accumulation_boundary Demo.overflow true
           (demo_args false 0 None) 3 2 (Demo.start 0) eq_refl eq_refl eq_refl).
Defined.

(** A run of [train] that exits at iteration 3, the first multiple of
    the exit interval 3. *)
Definition demo_exit_run : outcome (Z * Z) * state nat * list (event Z) :=
  Eval vm_compute in Demo.train (demo_args false 2 (Some 3)) 5 3 (Demo.start 0).

Lemma demo_exit_run_eq :
  Demo.train (demo_args false 2 (Some 3)) 5 3 (Demo.start 0)
  = (Stop Exited, demo_exit_run.1.2, demo_exit_run.2).
Proof. vm_compute. reflexivity. Qed.

Lemma train_exits_at_first_multiple_witness :
  0 < iteration nat demo_exit_run.1.2 <= 4
  ∧ exit_due (demo_args false 2 (Some 3)) (iteration nat demo_exit_run.1.2) = true
  ∧ (∀ i, 0 < i < iteration nat demo_exit_run.1.2 →
          exit_due (demo_args false 2 (Some 3)) i = false)
  ∧ saves Z demo_exit_run.2
    = List.filter (save_due (demo_args false 2 (Some 3)))
        (seqZ (0 + 1) (iteration nat demo_exit_run.1.2 - 0))
  ∧ ∃ before after,
      demo_exit_run.2 = before ++ Barrier Z :: after
      ∧ saves Z after = []
      ∧ count Z (is_model_call Z) after = 0%nat
      ∧ count Z (is_backward Z) after = 0%nat
      ∧ count Z (is_optimizer_step Z) after = 0%nat
      ∧ count Z (is_lr_step Z) after = 0%nat.
Proof.
  exact (proj2 (proj2 (train_exits_at_first_multiple nat Z Demo.exec Demo.broadcast_data
                         Demo.model_forward Demo.vocab_parallel_cross_entropy
                         Demo.peer_losses Demo.is_gradient_accumulation_boundary
                         Demo.overflow true (demo_args false 2 (Some 3))))
           5%nat 3%nat (Demo.start 0) demo_exit_run.1.2 demo_exit_run.2
           demo_exit_run_eq).
Defined.

Lemma final_checkpoint_after_training_witness :
  saves Z demo_main_run.2
  = List.filter (save_due (Demo.args 4)) (seqZ (0 + 1) (4 - 0)) ++ [4]
  ∧ (2 ≠ 0 → 4 mod 2 = 0 → ∃ earlier, saves Z demo_main_run.2 = earlier ++ [4; 4]).
Proof.
  exact (final_checkpoint_after_training nat Z Demo.exec Demo.broadcast_data
           Demo.model_forward Demo.vocab_parallel_cross_entropy Demo.peer_losses
           Demo.is_gradient_accumulation_boundary Demo.overflow true (Demo.args 4)
           5%nat 3%nat (Demo.start 0) demo_main_run.1.2 demo_main_run.2
           demo_main_run_eq eq_refl eq_refl eq_refl eq_refl).
Defined.

End Pretrain.

(** ** Vocabulary padding

    [get_train_val_test_data] of pretrain_gpt2.py and [prepare_tokenizer]
    of generate_samples.py pad the vocabulary size with the same loop and
    a different multiple. *)

Module Vocab.

(** [while (after % multiple) != 0: after += 1]; [%] raises on a zero
    multiple. *)
Fixpoint pad_loop (fuel : nat) (after multiple : Z) : outcome Z :=
  match fuel with
  | O => Stop OutOfFuel
  | S fuel =>
      if multiple =? 0 then Stop (Raised ZeroDivisionError)
      else if negb (after mod multiple =? 0) then pad_loop fuel (after + 1) multiple
      else Ret after
  end.

(** The padded size that [get_train_val_test_data] computes on rank 0 and
    broadcasts as [token_counts[0]]. *)
Definition get_train_val_test_data (fuel : nat) (num_tokens : Z)
    (make_vocab_size_divisible_by model_parallel_world_size : Z) : outcome Z :=
  let before := num_tokens in
  let after := before in
  let multiple := make_vocab_size_divisible_by * model_parallel_world_size in
  pad_loop fuel after multiple.

(** The padded size that [prepare_tokenizer] stores in [args.vocab_size];
    the model-parallel world size is not read. *)
Definition prepare_tokenizer (fuel : nat) (num_tokens : Z)
    (make_vocab_size_divisible_by model_parallel_world_size : Z) : outcome Z :=
  let before := num_tokens in
  let after := before in
  let multiple := make_vocab_size_divisible_by in
  pad_loop fuel after multiple.

Lemma pad_loop_spec (fuel : nat) (after multiple : Z) :
  0 < multiple →
  ((- after) mod multiple < Z.of_nat fuel) →
  pad_loop fuel after multiple = Ret (after + (- after) mod multiple).
Proof.
  intros Hm. revert after. induction fuel as [|fuel IH]; intros after Hfuel.
  - pose proof (Z.mod_pos_bound (- after) multiple Hm). lia.
  - simpl. destruct (multiple =? 0) eqn:E0; [apply Z.eqb_eq in E0; lia|].
    destruct (after mod multiple =? 0) eqn:E; simpl.
    + apply Z.eqb_eq in E.
      assert (Hz : (- after) mod multiple = 0).
      { apply Z.mod_divide in E; [|lia]. apply Z.mod_divide; [lia|].
        by apply Z.divide_opp_r. }
      rewrite Hz. f_equal. lia.
    + apply Z.eqb_neq in E.
      assert (Hstep : (- (after + 1)) mod multiple = (- after) mod multiple - 1).
      { pose proof (Z.mod_pos_bound (- after) multiple Hm) as Hb.
        assert (Hnz : (- after) mod multiple ≠ 0).
        { intros Hz. apply E. apply Z.mod_divide in Hz; [|lia].
          apply Z.mod_divide; [lia|].
          apply Z.divide_opp_r in Hz. by rewrite Z.opp_involutive in Hz. }
        symmetry. apply (Z.mod_unique_pos _ _ ((- after) / multiple)); [lia|].
        pose proof (Z.div_mod (- after) multiple ltac:(lia)). lia. }
      rewrite IH by lia. f_equal. lia.
Qed.

(** The value is the least multiple at or above [after]. *)
Lemma least_multiple_above (after multiple : Z) :
  0 < multiple →
  let padded := after + (- after) mod multiple in
  after <= padded ∧ (multiple | padded)
  ∧ ∀ k, after <= k → (multiple | k) → padded <= k.
Proof.
  intros Hm padded. subst padded.
  pose proof (Z.mod_pos_bound (- after) multiple Hm) as Hb.
  pose proof (Z.div_mod (- after) multiple ltac:(lia)) as Hdm.
  split; [lia|]. split.
  - exists (- ((- after) / multiple)). lia.
  - intros k Hk [q ->].
    assert (Hq : - ((- after) / multiple) <= q); [|nia].
    assert (- q <= (- after) / multiple); [|lia].
    apply Z.div_le_lower_bound; [lia|]. lia.
Qed.

(** C6: [get_train_val_test_data] pads to the least multiple of
    [make_vocab_size_divisible_by * model_parallel_world_size] at or above
    the tokenizer's size; [prepare_tokenizer] pads to a multiple of
    [make_vocab_size_divisible_by] alone, and for 5 tokens, divisor 2 and
    two model-parallel ranks the two sizes are 8 and 6. *)
Theorem vocab_padding_mismatch :
  (∀ num_tokens d w,
      0 < d * w →
      ∃ padded,
        get_train_val_test_data (Z.to_nat (d * w)) num_tokens d w = Ret padded
        ∧ num_tokens <= padded ∧ (d * w | padded)
        ∧ ∀ k, num_tokens <= k → (d * w | k) → padded <= k)
  ∧ get_train_val_test_data 4 5 2 2 = Ret 8
  ∧ prepare_tokenizer 4 5 2 2 = Ret 6.
Proof.
  split; [|split; reflexivity].
  intros num_tokens d w Hm.
  exists (num_tokens + (- num_tokens) mod (d * w)).
  split; [|by apply least_multiple_above].
  unfold get_train_val_test_data. apply pad_loop_spec; [exact Hm|].
  pose proof (Z.mod_pos_bound (- num_tokens) (d * w) Hm). lia.
Qed.

End Vocab.

(** ** [sample_sequence] of generate_samples.py *)

Module Generate.
Import Tensor Masks.

(** [l[start:stop]] with Python's clamping and negative indices. *)
Definition py_index (len i : Z) : Z :=
  if i <? 0 then Z.max 0 (len + i) else Z.min i len.

Definition py_slice {A} (start stop : Z) (l : list A) : list A :=
  let len := Z.of_nat (length l) in
  let a := py_index len start in
  let b := py_index len stop in
  take (Z.to_nat (b - a)) (drop (Z.to_nat a) l).

Section Sampling.

(** The model with its parameters and the random generator. *)
Variable World : Type.
Variable Act : Type.

(** [model(tokens, position_ids, attention_mask, *mems)]: the logits, the
    new memories, the world after the call. *)
Variable model : World → t2 → t2 → t4 → list Act → Act * list Act * World.

(** From [logits[:, -1]] to [prev]: temperature, [top_k_logits], softmax
    and [torch.multinomial]. *)
Variable sample : World → Act → Z * World.

(** The fields of [args] that are read; [main] sets [batch_size] to 1. *)
Variable transformer_xl : bool.
Variable mem_length : Z.
Variable eod_token : Z.
Variable out_seq_length : Z.

(** [get_batch]: one row of tokens, its masks and position ids. *)
Definition get_batch (context_tokens : list Z) : result (t2 * t4 * t2) :=
  let tokens := [context_tokens] in
  match get_masks_and_position_ids tokens eod_token false false None None
          transformer_xl mem_length with
  | Err e => Err e
  | Ok (attention_mask, loss_mask, position_ids) =>
      Ok (tokens, attention_mask, position_ids)
  end.

(** The loop of [sample_sequence].  It returns how the run ended and the
    values of [prev] in the order they were drawn. *)
Fixpoint sample_loop (fuel : nat) (org_context_length : Z) (end_token : Z)
    (attention_mask : t4) (position_ids : t2)
    (tokens : list Z) (context_length counter : Z) (mems : list Act) (w : World)
  : outcome (list Z * list Act) * list Z :=
  match fuel with
  | O => (Stop OutOfFuel, [])
  | S fuel =>
      if counter <? out_seq_length - org_context_length then
        let called :=
          if counter =? 0 then
            Ok (model w [tokens] position_ids attention_mask mems)
          else
            let index := org_context_length + counter in
            if mem_length + 1 <? 0 then Err RuntimeError
            else
              Ok (model w [py_slice (index - 1) index tokens] [[index - 1]]
                    [[[replicate (Z.to_nat (mem_length + 1)) 1]]] mems)
        in
        match called with
        | Err e => (Stop (Raised e), [])
        | Ok (logits, mems, w) =>
            let '(prev, w) := sample w logits in
            let is_end := prev =? end_token in
            if is_end then (Ret (tokens, mems), [prev])
            else
              let tokens := tokens ++ [prev] in
              let context_length := context_length + 1 in
              let counter := counter + 1 in
              let '(o, drawn) :=
                sample_loop fuel org_context_length end_token attention_mask
                  position_ids tokens context_length counter mems w in
              (o, prev :: drawn)
        end
      else (Ret (tokens, mems), [])
  end.

Definition sample_sequence (fuel : nat) (context_tokens : list Z) (context_length : Z)
    (mems : option (list Act)) (end_token : option Z) (w : World)
  : outcome (list Z * list Act) * list Z :=
  match get_batch context_tokens with
  | Err e => (Stop (Raised e), [])
  | Ok (tokens, attention_mask, position_ids) =>
      let counter := 0 in
      let mems := default [] mems in
      let end_token := default eod_token end_token in
      let org_context_length := context_length in
      sample_loop fuel org_context_length end_token attention_mask position_ids
        context_tokens context_length counter mems w
  end.

Lemma sample_loop_spec fuel org end_token amask pids tokens cl counter mems w :
  0 <= counter →
  let '(o, drawn) := sample_loop fuel org end_token amask pids tokens cl counter mems w in
  (Z.of_nat (length drawn) <= Z.max 0 (out_seq_length - org - counter))
  ∧ (o = Stop OutOfFuel → (fuel <= Z.to_nat (out_seq_length - org - counter))%nat)
  ∧ match o with
    | Ret (out, _) =>
        ∃ appended,
          out = tokens ++ appended
          ∧ Forall (fun t => t ≠ end_token) appended
          ∧ (drawn = appended ∨ drawn = appended ++ [end_token])
          ∧ Z.of_nat (length appended) <= Z.max 0 (out_seq_length - org - counter)
    | Stop _ => True
    end.
Proof.
  revert tokens cl counter mems w.
  induction fuel as [|fuel IH]; intros tokens cl counter mems w Hc; simpl.
  - split; [lia|]. split; [lia|done].
  - destruct (counter <? out_seq_length - org) eqn:Elt.
    2:{ apply Z.ltb_ge in Elt. simpl. split; [lia|]. split; [discriminate|].
        exists []. rewrite app_nil_r. repeat split; auto. simpl. lia. }
    apply Z.ltb_lt in Elt.
    match goal with
    | |- context [match ?c with Ok _ => _ | Err _ => _ end] => destruct c as [[[lg ms] w1]|e]
    end.
    2:{ simpl. split; [lia|]. split; [discriminate|done]. }
    destruct (sample w1 lg) as [prev w2].
    destruct (prev =? end_token) eqn:Eend.
    + apply Z.eqb_eq in Eend. subst prev. simpl.
      split; [lia|]. split; [discriminate|].
      exists []. rewrite app_nil_r. repeat split; auto. simpl. lia.
    + apply Z.eqb_neq in Eend.
      specialize (IH (tokens ++ [prev]) (cl + 1) (counter + 1) ms w2 ltac:(lia)).
      destruct (sample_loop fuel org end_token amask pids (tokens ++ [prev])
                  (cl + 1) (counter + 1) ms w2) as [o drawn].
      destruct IH as (Hlen & Hfuel & Ho). simpl length.
      split; [lia|]. split; [intros Hs; specialize (Hfuel Hs); lia|].
      destruct o as [[out ms']|r]; [|done].
      destruct Ho as (appended & -> & Hall & Hdrawn & Hal).
      exists (prev :: appended). rewrite <- app_assoc. simpl.
      split; [reflexivity|]. split; [by constructor|].
      split; [destruct Hdrawn as [-> | ->]; auto|]. lia.
Qed.

(** C9: for a context of [L] tokens and [args.out_seq_length = N], a run
    of [sample_sequence] draws at most [N - L] tokens and does not run out
    of fuel when given more than that; the tokens it returns are the
    context followed by the tokens drawn before the end token (which is
    not appended), none of them the end token, at most [max L N] in all. *)
Theorem sample_sequence_bounds (fuel : nat) (context_tokens : list Z)
    (context_length : Z) (mems : option (list Act)) (end_token : option Z) (w : World) :
  context_length = Z.of_nat (length context_tokens) →
  let L := length context_tokens in
  let '(o, drawn) := sample_sequence fuel context_tokens context_length mems end_token w in
  (length drawn <= Z.to_nat (out_seq_length - Z.of_nat L))%nat
  ∧ ((Z.to_nat (out_seq_length - Z.of_nat L) < fuel)%nat → o ≠ Stop OutOfFuel)
  ∧ match o with
    | Ret (out, _) =>
        ∃ appended,
          out = context_tokens ++ appended
          ∧ Forall (fun t => t ≠ default eod_token end_token) appended
          ∧ (drawn = appended ∨ drawn = appended ++ [default eod_token end_token])
          ∧ Z.of_nat (length out) <= Z.max (Z.of_nat L) out_seq_length
    | Stop _ => True
    end.
Proof.
  intros HL L. unfold sample_sequence.
  destruct (get_batch context_tokens) as [[[tokens amask] pids]|e].
  2:{ simpl. split; [lia|]. split; [discriminate|done]. }
  pose proof (sample_loop_spec fuel context_length (default eod_token end_token)
                amask pids context_tokens context_length 0 (default [] mems) w
                ltac:(lia)) as H.
  destruct (sample_loop _ _ _ _ _ _ _ _ _ _) as [o drawn].
  destruct H as (Hlen & Hfuel & Ho). subst context_length L.
  rewrite Z.sub_0_r in *.
  split; [lia|]. split; [intros Hf Hs; specialize (Hfuel Hs); lia|].
  destruct o as [[out ms]|r]; [|done].
  destruct Ho as (appended & -> & Hall & Hdrawn & Hal).
  exists appended. repeat split; auto. rewrite length_app. lia.
Qed.

End Sampling.

(** A model that needs no state and a sampler that counts down to the end
    token 0. *)
Lemma sample_sequence_bounds_witness :
  let '(o, drawn) :=
    sample_sequence nat unit (fun w _ _ _ _ => (tt, [], w))
      (fun w _ => (Z.of_nat w, Nat.pred w)) true 1 0 10 8 [5; 6; 7] 3 None None 2%nat in
  (length drawn <= Z.to_nat (10 - 3))%nat
  ∧ ((Z.to_nat (10 - 3) < 8)%nat → o ≠ Stop OutOfFuel)
  ∧ match o with
    | Ret (out, _) =>
        ∃ appended,
          out = [5; 6; 7] ++ appended
          ∧ Forall (fun t => t ≠ 0) appended
          ∧ (drawn = appended ∨ drawn = appended ++ [0])
          ∧ Z.of_nat (length out) <= Z.max 3 10
    | Stop _ => True
    end.
Proof.
  exact (sample_sequence_bounds nat unit (fun w _ _ _ _ => (tt, [], w))
           (fun w _ => (Z.of_nat w, Nat.pred w)) true 1 0 10 8 [5; 6; 7] 3 None None 2%nat
           eq_refl).
Defined.

End Generate.

(** ** [get_dataset_by_type] of CogView/data_utils/datasets.py *)

Module CogView.

(** What [process_fn] returns: the dictionary with keys ['text'] and
    ['loss_mask']. *)
Record sample := {
  text : list Z;
  loss_mask : list Z
}.

(** [[x] * n]: a Python list repeated; a negative count gives the empty
    list. *)
Definition py_repeat (x : Z) (n : Z) : list Z := replicate (Z.to_nat n) x.

Section Datasets.

(** [tokenizer['[PAD]']] and [TextCodeTemplate] of the templates module,
    which builds a token row from a text and its flattened code. *)
Variable PAD : Z.
Variable Text : Type.
Variable TextCodeTemplate : Text → list Z → list Z.

(** The fields of [args] that are read. *)
Variable finetune : bool.
Variable max_position_embeddings_finetune : Z.
Variable max_position_embeddings : Z.

Definition ml : Z :=
  if finetune && (max_position_embeddings <? max_position_embeddings_finetune)
  then max_position_embeddings_finetune
  else max_position_embeddings.

Definition pad_to_len (ret : list Z) : list Z * Z :=
  let len := Z.of_nat (length ret) in
  if len <? ml then
    (* pad *)
    (ret ++ py_repeat PAD (ml - len), len)
  else
    (Generate.py_slice 0 ml ret, ml).

Definition make_sample (padded : list Z * Z) : sample :=
  let '(ret, attention_mask_sep) := padded in
  {| text := ret;
     loss_mask := py_repeat 1 attention_mask_sep
                  ++ py_repeat 0 (Z.of_nat (length ret) - attention_mask_sep) |}.

(** [process_fn] for ['TokenizedDataset']: the row is flattened. *)
Definition process_fn_tokenized (row : list (list Z)) : sample :=
  make_sample (pad_to_len (concat row)).

(** [process_fn] for ['TextCodeDataset']: [row[0]] is the text, [row[1]]
    the code. *)
Definition process_fn_text_code (row : Text * list (list Z)) : sample :=
  let '(text, code) := (fst row, concat (snd row)) in
  let ret := TextCodeTemplate text code in
  make_sample (pad_to_len ret).

(** What is expected of a sample made from the flat row [flat]. *)
Definition padded_sample (flat : list Z) (smp : sample) : Prop :=
  let n := Z.to_nat ml in
  length (text smp) = n
  ∧ text smp = take n (flat ++ replicate (n - length flat) PAD)
  ∧ length (loss_mask smp) = n
  ∧ ∀ i, (i < n)%nat →
         loss_mask smp !! i = Some (if (i <? Nat.min (length flat) n)%nat then 1 else 0).

Lemma make_sample_padded (flat : list Z) :
  0 <= ml → padded_sample flat (make_sample (pad_to_len flat)).
Proof.
  intros Hml. unfold padded_sample, pad_to_len, make_sample, py_repeat.
  destruct (Z.of_nat (length flat) <? ml) eqn:E.
  - apply Z.ltb_lt in E. simpl.
    assert (Hn : Z.to_nat (ml - Z.of_nat (length flat)) = (Z.to_nat ml - length flat)%nat)
      by lia.
    rewrite Hn, !length_app, !length_replicate, Nat2Z.id.
    split; [lia|]. split.
    { rewrite take_ge; [reflexivity|]. rewrite length_app, length_replicate. lia. }
    split; [lia|].
    intros i Hi. destruct (i <? Nat.min (length flat) (Z.to_nat ml))%nat eqn:Ei.
    + apply Nat.ltb_lt in Ei. rewrite lookup_app_l by (rewrite length_replicate; lia).
      apply lookup_replicate_2. lia.
    + apply Nat.ltb_ge in Ei. rewrite lookup_app_r by (rewrite length_replicate; lia).
      apply lookup_replicate_2. rewrite length_replicate. lia.
  - apply Z.ltb_ge in E. simpl.
    unfold Generate.py_slice, Generate.py_index. simpl.
    destruct (ml <? 0) eqn:Eneg; [apply Z.ltb_lt in Eneg; lia|].
    rewrite (Z.min_l ml) by lia. rewrite (Z.min_l 0) by lia.
    rewrite Z.sub_0_r. change (Z.to_nat 0) with 0%nat. rewrite drop_0.
    rewrite !length_app, !length_replicate, length_take.
    replace (Z.to_nat (Z.of_nat (Z.to_nat ml `min` length flat) - ml)) with 0%nat by lia.
    replace (Z.to_nat ml - length flat)%nat with 0%nat by lia.
    simpl. rewrite !app_nil_r.
    split; [lia|]. split; [reflexivity|]. split; [lia|].
    intros i Hi. rewrite Nat.min_r by lia.
    apply Nat.ltb_lt in Hi as Hi'. rewrite Hi'.
    apply lookup_replicate_2. lia.
Qed.

(** C10: when [ml] is not negative, the sample that either [process_fn]
    makes has a ['text'] of [ml] tokens, the flat row padded with [PAD] or
    cut to [ml], and a ['loss_mask'] of [ml] cells that is 1 on the first
    [min (original length) ml] cells and 0 after them. *)
Theorem process_fn_pads_to_ml :
  0 <= ml →
  (∀ row, padded_sample (concat row) (process_fn_tokenized row))
  ∧ (∀ row, padded_sample (TextCodeTemplate (fst row) (concat (snd row)))
              (process_fn_text_code row)).
Proof.
  intros Hml. split; intros row.
  - by apply make_sample_padded.
  - unfold process_fn_text_code. simpl. by apply make_sample_padded.
Qed.

End Datasets.

Lemma process_fn_pads_to_ml_witness :
  (∀ row, padded_sample 0 false 0 4 (concat row) (process_fn_tokenized 0 false 0 4 row))
  ∧ (∀ row : unit * list (list Z),
        padded_sample 0 false 0 4 ((fun _ code => 9 :: code) (fst row) (concat (snd row)))
          (process_fn_text_code 0 unit (fun _ code => 9 :: code) false 0 4 row)).
Proof.
  apply (process_fn_pads_to_ml 0 unit (fun _ code => 9 :: code) false 0 4).
  unfold ml. simpl. lia.
Defined.

Example process_fn_tokenized_short :
  process_fn_tokenized 0 false 0 4 [[7; 8]] = {| text := [7; 8; 0; 0]; loss_mask := [1; 1; 0; 0] |}.
Proof. reflexivity. Qed.

Example process_fn_tokenized_long :
  process_fn_tokenized 0 false 0 4 [[7; 8; 9]; [1; 2; 3]]
  = {| text := [7; 8; 9; 1]; loss_mask := [1; 1; 1; 1] |}.
Proof. reflexivity. Qed.

End CogView.

(** ** Attention masks and position ids outside Transformer-XL mode *)

Section MaskReset.
Import Tensor Masks.

(** The position ids that restart after every EOD token, counting from
    [c]: a reference for what the loop over the EOD indices leaves. *)
Fixpoint restart_after_eod (eod : Z) (c : Z) (row : list Z) : list Z :=
  match row with
  | [] => []
  | d :: row => c :: restart_after_eod eod (if d =? eod then 0 else c + 1) row
  end.

Lemma restart_after_eod_length eod c row :
  length (restart_after_eod eod c row) = length row.
Proof. revert c. induction row as [|d row IH]; intros c; simpl; [done|]. by rewrite IH. Qed.

Lemma restart_after_eod_head eod c d row :
  restart_after_eod eod c (d :: row) !! 0%nat = Some c.
Proof. reflexivity. Qed.

Lemma restart_after_eod_step eod c row t d p :
  row !! t = Some d → restart_after_eod eod c row !! t = Some p →
  (S t < length row)%nat →
  restart_after_eod eod c row !! S t = Some (if d =? eod then 0 else p + 1).
Proof.
  revert c t. induction row as [|d0 row IH]; intros c t Hd Hp Hlt; [done|].
  destruct t as [|t].
  - simpl in *. injection Hd as ->. injection Hp as ->.
    destruct row as [|d1 row]; [simpl in Hlt; lia|]. reflexivity.
  - simpl in *. apply IH; [exact Hd|exact Hp|lia].
Qed.

Lemma eod_index_cons eod i ids d row :
  eod_index eod (i :: ids) (d :: row)
  = if d =? eod then i :: eod_index eod ids row else eod_index eod ids row.
Proof.
  unfold eod_index. simpl. rewrite filter_cons. simpl.
  destruct (decide (d = eod)) as [->|Hne].
  - by rewrite Z.eqb_refl.
  - apply Z.eqb_neq in Hne. by rewrite Hne.
Qed.

(** [ids[(i+1):] -= d] leaves the first [i + 1] cells alone. *)
Lemma shift_after_split (k : nat) (d : Z) (done : list Z) (x : Z) (rest : list Z) :
  length done = k →
  shift_after (Z.of_nat k) d (done ++ x :: rest)
  = (done ++ [x]) ++ ((fun p => p - d) <$> rest).
Proof.
  intros Hk. unfold shift_after. apply list_eq. intros t.
  rewrite list_lookup_imap.
  destruct (decide (t < k)%nat) as [Hlt|Hge].
  - rewrite <- app_assoc. rewrite !lookup_app_l by lia.
    destruct (done !! t) as [p|]; simpl; [|done].
    destruct (Z.of_nat k + 1 <=? Z.of_nat t) eqn:E; [lia|done].
  - destruct (decide (t = k)) as [->|Hne].
    + rewrite <- app_assoc. rewrite !lookup_app_r by lia.
      rewrite Hk, Nat.sub_diag. simpl.
      destruct (Z.of_nat k + 1 <=? Z.of_nat k) eqn:E; [lia|done].
    + rewrite lookup_app_r by lia.
      rewrite (lookup_app_r (done ++ [x])) by (rewrite length_app; simpl; lia).
      rewrite length_app, Hk. simpl.
      replace (t - k)%nat with (S (t - (k + 1))) by lia. simpl.
      rewrite list_lookup_fmap.
      destruct (rest !! (t - (k + 1))%nat) as [p|]; simpl; [|done].
      destruct (Z.of_nat k + 1 <=? Z.of_nat t) eqn:E; [done|lia].
Qed.

(** The loop over the EOD indices of one row, with [reset_position_ids]:
    the row of position ids becomes [restart_after_eod]. *)
Lemma eod_loop_positions eod ra b (row : list Z) :
  ∀ (k : nat) (prev : Z) (done : list Z) A A' ids',
    length done = k →
    eod_loop true ra b
      (eod_index eod (Z.of_nat <$> seq k (length row)) row) prev A
      (done ++ ((fun t => Z.of_nat t - prev) <$> seq k (length row)))
    = Ok (A', ids') →
    ids' = done ++ restart_after_eod eod (Z.of_nat k - prev) row.
Proof.
  induction row as [|d row IH]; intros k prev done A A' ids' Hk H.
  - simpl in H. by injection H as _ <-.
  - simpl length in H. simpl seq in H. rewrite !fmap_cons, eod_index_cons in H.
    simpl restart_after_eod.
    destruct (d =? eod) eqn:Ed.
    + simpl in H.
      destruct (if ra then mask_after b (Z.of_nat k) A else Ok A) as [A1|e];
        [|discriminate].
      rewrite shift_after_split in H by exact Hk.
      rewrite <- list_fmap_compose in H.
      rewrite (list_fmap_ext (_ ∘ _) (fun t => Z.of_nat t - (Z.of_nat k + 1))) in H
        by (intros i x _; simpl; lia).
      apply IH in H; [|rewrite length_app; simpl; lia].
      rewrite H, <- app_assoc. simpl. do 3 f_equal. lia.
    + rewrite cons_middle, app_assoc in H.
      apply IH in H; [|rewrite length_app; simpl; lia].
      rewrite H, <- app_assoc. simpl. do 3 f_equal. lia.
Qed.

Lemma arange_shifted (n : nat) :
  arange n = (fun t => Z.of_nat t - 0) <$> seq 0 n.
Proof. unfold arange. apply list_fmap_ext. intros i x _. lia. Qed.

Lemma zip_replicate_l {A B} (x : A) (l : list B) :
  zip (replicate (length l) x) l = (fun y => (x, y)) <$> l.
Proof. induction l as [|y l IH]; simpl; [done|]. by rewrite IH. Qed.

Lemma batch_loop_positions eod ra (S : nat) (rows : list (list Z)) :
  Forall (fun row => length row = S) rows →
  ∀ b A done A' ids',
    batch_loop eod true ra b ((fun row => (arange S, row)) <$> rows) A done
    = Ok (A', ids') →
    ids' = done ++ (restart_after_eod eod 0 <$> rows).
Proof.
  induction 1 as [|row rows Hrow Hall IH]; intros b A done A' ids' H.
  - simpl in H. injection H as _ <-. by rewrite app_nil_r.
  - simpl in H.
    destruct (eod_loop true ra b (eod_index eod (arange S) row) 0 A (arange S))
      as [[A1 ids1]|e] eqn:E; [|discriminate].
    apply IH in H. rewrite H, <- app_assoc. simpl. do 2 f_equal.
    rewrite arange_shifted in E at 2. unfold arange in E. rewrite <- Hrow in E.
    apply (eod_loop_positions eod ra b row 0 0 []) in E; [|done].
    exact E.
Qed.

(** Without [reset_attention_mask] the loops leave the mask alone, and
    without [reset_position_ids] the position ids. *)
Lemma eod_loop_untouched rp ra b eods prev A ids A' ids' :
  eod_loop rp ra b eods prev A ids = Ok (A', ids') →
  (ra = false → A' = A) ∧ (rp = false → ids' = ids).
Proof.
  revert prev A ids. induction eods as [|i eods IH]; intros prev A ids H.
  - simpl in H. injection H as <- <-. done.
  - simpl in H. destruct ra.
    + destruct (mask_after b i A) as [A1|e]; [|discriminate].
      destruct rp; apply IH in H as [_ H2]; split; try done.
    + destruct rp; apply IH in H as [H1 H2]; split; auto; done.
Qed.

Lemma batch_loop_untouched eod rp ra b todo A done A' ids' :
  batch_loop eod rp ra b todo A done = Ok (A', ids') →
  (ra = false → A' = A) ∧ (rp = false → ids' = done ++ (fst <$> todo)).
Proof.
  revert b A done. induction todo as [|[ids_b data_b] todo IH]; intros b A done H.
  - simpl in H. injection H as <- <-. by rewrite app_nil_r.
  - simpl in H.
    destruct (eod_loop rp ra b (eod_index eod ids_b data_b) 0 A ids_b)
      as [[A1 ids1]|e] eqn:E; [|discriminate].
    apply eod_loop_untouched in E as [E1 E2].
    apply IH in H as [H1 H2]. split.
    + intros Hra. rewrite H1, E1; done.
    + intros Hrp. rewrite H2, E2 by done. by rewrite <- app_assoc.
Qed.

(** [M[(i+1):, :(i+1)] = 0], cell by cell. *)
Definition in_block (i : Z) (r c : nat) : bool :=
  (i + 1 <=? Z.of_nat r) && (Z.of_nat c <? i + 1).

Lemma zero_block_cell i (m : t2) r c :
  zero_block i m !! r ≫= (.!! c)
  = (fun x => if in_block i r c then 0 else x) <$> (m !! r ≫= (.!! c)).
Proof.
  unfold zero_block, in_block. rewrite list_lookup_imap.
  destruct (m !! r) as [row|]; simpl; [|done].
  destruct (i + 1 <=? Z.of_nat r); simpl.
  - rewrite list_lookup_imap. by destruct (row !! c).
  - by destruct (row !! c).
Qed.

Lemma get4_channel0 (A : t4) b r c :
  get4 A b 0 r c = (A !! b ≫= (.!! 0%nat)) ≫= (fun m => m !! r ≫= (.!! c)).
Proof.
  unfold get4. destruct (A !! b) as [Ab|]; simpl; [|done].
  destruct (Ab !! 0%nat) as [m|]; simpl; [|done].
  by destruct (m !! r).
Qed.

Lemma mask_after_cell b i A A' :
  mask_after b i A = Ok A' →
  length A' = length A
  ∧ (∀ b', b' ≠ b → A' !! b' = A !! b')
  ∧ ∀ r c, get4 A' b 0 r c
           = (fun x => if in_block i r c then 0 else x) <$> get4 A b 0 r c.
Proof.
  unfold mask_after. destruct (A !! b) as [[|m chans]|] eqn:E; try discriminate.
  intros H. injection H as <-.
  assert (Hb : (b < length A)%nat) by (by eapply lookup_lt_Some).
  split; [by rewrite length_insert|]. split.
  - intros b' Hne. by rewrite list_lookup_insert_ne.
  - intros r c. rewrite !get4_channel0, E, list_lookup_insert_eq by exact Hb.
    simpl. apply zero_block_cell.
Qed.

(** The loop over the EOD indices of row [b], with
    [reset_attention_mask]: a cell of batch [b] is zeroed when it lies
    in the block of one of the indices; the other batches are left
    alone. *)
Lemma eod_loop_mask rp b eods :
  ∀ prev A ids A' ids',
    eod_loop rp true b eods prev A ids = Ok (A', ids') →
    length A' = length A
    ∧ (∀ b', b' ≠ b → A' !! b' = A !! b')
    ∧ ∀ r c, get4 A' b 0 r c
             = (fun x => if existsb (fun i => in_block i r c) eods then 0 else x)
               <$> get4 A b 0 r c.
Proof.
  induction eods as [|i eods IH]; intros prev A ids A' ids' H.
  - simpl in H. injection H as <- <-. split; [done|]. split; [done|].
    intros r c. simpl. by destruct (get4 A b 0 r c).
  - simpl in H. destruct (mask_after b i A) as [A1|e] eqn:E; [|discriminate].
    apply mask_after_cell in E as (Hl1 & Ho1 & Hc1).
    assert (∃ prev' ids1, eod_loop rp true b eods prev' A1 ids1 = Ok (A', ids'))
      as (prev' & ids1 & H') by (destruct rp; eauto).
    apply IH in H' as (Hl2 & Ho2 & Hc2).
    split; [congruence|]. split.
    + intros b' Hne. rewrite Ho2, Ho1; done.
    + intros r c. rewrite Hc2, Hc1. simpl.
      destruct (get4 A b 0 r c) as [x|]; simpl; [|done].
      by destruct (in_block i r c), (existsb _ eods).
Qed.

Lemma batch_loop_mask eod rp todo :
  ∀ b0 A done A' ids',
    batch_loop eod rp true b0 todo A done = Ok (A', ids') →
    length A' = length A
    ∧ (∀ b', (b' < b0)%nat → A' !! b' = A !! b')
    ∧ ∀ k ids_k row_k r c,
        todo !! k = Some (ids_k, row_k) →
        get4 A' (b0 + k) 0 r c
        = (fun x => if existsb (fun i => in_block i r c) (eod_index eod ids_k row_k)
                    then 0 else x)
          <$> get4 A (b0 + k) 0 r c.
Proof.
  induction todo as [|[ids_b data_b] todo IH]; intros b0 A done A' ids' H.
  - simpl in H. injection H as <- <-. split; [done|]. split; [done|].
    intros k ids_k row_k r c Hk. done.
  - simpl in H.
    destruct (eod_loop rp true b0 (eod_index eod ids_b data_b) 0 A ids_b)
      as [[A1 ids1]|e] eqn:E; [|discriminate].
    apply eod_loop_mask in E as (Hl1 & Ho1 & Hc1).
    apply IH in H as (Hl2 & Ho2 & Hc2).
    split; [congruence|]. split.
    + intros b' Hlt. rewrite Ho2 by lia. apply Ho1. lia.
    + intros k ids_k row_k r c Hk. destruct k as [|k].
      * simpl in Hk. injection Hk as -> ->. rewrite Nat.add_0_r.
        rewrite <- Hc1. rewrite !get4_channel0. by rewrite Ho2 by lia.
      * simpl in Hk. replace (b0 + S k)%nat with (S b0 + k)%nat by lia.
        rewrite (Hc2 k ids_k row_k r c Hk). rewrite !get4_channel0.
        by rewrite Ho1 by lia.
Qed.

(** An EOD index of a row blocks (r, c) when the row has the EOD token
    at a position [e] with [c <= e < r]. *)
Lemma existsb_eod_index eod (r c : nat) (row : list Z) :
  ∀ k : nat,
    existsb (fun i => in_block i r c)
      (eod_index eod (Z.of_nat <$> seq k (length row)) row) = true
    ↔ ∃ e, (c <= k + e)%nat ∧ (k + e < r)%nat ∧ row !! e = Some eod.
Proof.
  induction row as [|d row IH]; intros k.
  - simpl. split; [discriminate|]. by intros (e & _ & _ & He).
  - simpl length. simpl seq. rewrite fmap_cons, eod_index_cons.
    assert (Hshift : (∃ e, (c <= S k + e)%nat ∧ (S k + e < r)%nat ∧ row !! e = Some eod)
                     ↔ ∃ e, (c <= k + S e)%nat ∧ (k + S e < r)%nat
                            ∧ (d :: row) !! S e = Some eod).
    { split; intros (e & H1 & H2 & H3); exists e; simpl; repeat split; auto; lia. }
    destruct (d =? eod) eqn:Ed.
    + apply Z.eqb_eq in Ed. subst d. simpl. rewrite orb_true_iff, IH, Hshift.
      unfold in_block. rewrite andb_true_iff, Z.leb_le, Z.ltb_lt. split.
      * intros [[H1 H2]|(e & H1 & H2 & H3)].
        -- exists 0%nat. simpl. repeat split; auto; lia.
        -- exists (S e). auto.
      * intros ([|e] & H1 & H2 & H3).
        -- left. lia.
        -- right. exists e. auto.
    + apply Z.eqb_neq in Ed. rewrite IH, Hshift. split.
      * intros (e & H). exists (S e). exact H.
      * intros ([|e] & H1 & H2 & H3).
        -- simpl in H3. congruence.
        -- exists e. auto.
Qed.

Lemma tril_ones_cell (B S : nat) b i j :
  (b < B)%nat → (i < S)%nat → (j < S)%nat →
  get4 (unsqueeze1 (tril (ones3 B S S) 0)) b 0 i j
  = Some (if (j <=? i)%nat then 1 else 0).
Proof.
  intros Hb Hi Hj. destruct (lookup_ones2 S S i j Hi Hj) as [Hrow Hcell].
  unfold get4, unsqueeze1, tril, ones3.
  rewrite !list_lookup_fmap, lookup_replicate_2 by exact Hb. simpl.
  erewrite tril2_lookup by exact Hrow.
  rewrite list_lookup_imap, Hcell. simpl.
  destruct (Z.of_nat j - Z.of_nat i <=? 0) eqn:E1; destruct (j <=? i)%nat eqn:E2;
    try reflexivity; apply Nat.leb_le in E2 || apply Nat.leb_gt in E2; lia.
Qed.

Lemma fst_zip_replicate {A B} (x : A) (l : list B) :
  fst <$> zip (replicate (length l) x) l = replicate (length l) x.
Proof. apply fst_zip. by rewrite length_replicate. Qed.

(** X1: outside Transformer-XL mode, with no attention mask given and
    [reset_attention_mask] off, the attention mask is one lower
    triangular matrix of shape (1, 1, S, S) shared by all rows of the
    batch, whether or not position ids are reset; and with
    [reset_position_ids] off every row of position ids is [0 .. S-1]. *)
Theorem causal_mask_and_default_positions
    (data : t2) (eod_token : Z) (lm : option t2) (M : Z) :
  let n := seq_length data in
  (∀ rp, ∃ rows lmask ids,
      get_masks_and_position_ids data eod_token rp false lm None false M
      = Ok ([[rows]], lmask, ids)
      ∧ length rows = n
      ∧ ∀ i j, (i < n)%nat → (j < n)%nat →
               get4 [[rows]] 0 0 i j = Some (if (j <=? i)%nat then 1 else 0))
  ∧ (∀ ra, ∃ att lmask,
        get_masks_and_position_ids data eod_token false ra lm None false M
        = Ok (att, lmask, replicate (batch_size data) (arange n))).
Proof.
  intros n. split.
  - intros rp.
    assert (Hcell : ∀ i j, (i < n)%nat → (j < n)%nat →
              get4 (unsqueeze1 (tril (ones3 1 n n) 0)) 0 0 i j
              = Some (if (j <=? i)%nat then 1 else 0))
      by (intros i j Hi Hj; apply tril_ones_cell; [lia|done|done]).
    assert (Hlen : length (tril2 (ones2 n n) 0) = n)
      by (unfold tril2, ones2; by rewrite length_imap, length_replicate).
    destruct (get_masks_non_xl_ok data eod_token rp false lm M) as [[[att lmask] ids] Hok].
    pose proof Hok as Hok'. unfold get_masks_and_position_ids in Hok'.
    cbn [negb] in Hok'. fold n in Hok'. destruct rp; simpl in Hok'.
    + destruct (batch_loop _ _ _ _ _ _ _) as [[A' ids']|e] eqn:E; [|discriminate].
      apply batch_loop_untouched in E as [E _]. rewrite E in Hok' by done.
      injection Hok' as <- <- <-. eexists _, _, _. split; [exact Hok|]. split; done.
    + injection Hok' as <- <- <-. eexists _, _, _. split; [exact Hok|]. split; done.
  - intros ra.
    destruct (get_masks_non_xl_ok data eod_token false ra lm M) as [[[att lmask] ids] Hok].
    pose proof Hok as Hok'. unfold get_masks_and_position_ids in Hok'.
    cbn [negb] in Hok'. fold n in Hok'. destruct ra; simpl in Hok'.
    + destruct (batch_loop _ _ _ _ _ _ _) as [[A' ids']|e] eqn:E; [|discriminate].
      apply batch_loop_untouched in E as [_ E]. rewrite E in Hok' by done.
      injection Hok' as <- <- <-. eexists _, _. rewrite Hok. do 2 f_equal.
      simpl. unfold batch_size. apply fst_zip_replicate.
    + injection Hok' as <- <- <-. by eexists _, _.
Qed.

(** X2: outside Transformer-XL mode, with [reset_attention_mask] on and
    no attention mask given, every row of the batch gets its own mask,
    and position [i] of row [b] attends to position [j] exactly when
    [j <= i] and the row has no EOD token at a position [e] with
    [j <= e < i]: a token sees no EOD token before it, nor anything
    before that EOD token. *)
Theorem attention_reset_at_eod
    (data : t2) (eod_token : Z) (rp : bool) (lm : option t2) (M : Z) :
  let n := seq_length data in
  Forall (fun row => length row = n) data →
  ∃ att lmask ids,
    get_masks_and_position_ids data eod_token rp true lm None false M
    = Ok (att, lmask, ids)
    ∧ length att = batch_size data
    ∧ ∀ b row i j,
        data !! b = Some row → (i < n)%nat → (j < n)%nat →
        ∃ x, get4 att b 0 i j = Some x
             ∧ (x = 0 ∨ x = 1)
             ∧ (x = 1 ↔ (j <= i)%nat
                        ∧ ∀ e, (j <= e < i)%nat → row !! e ≠ Some eod_token).
Proof.
  intros n Hrect.
  destruct (get_masks_non_xl_ok data eod_token rp true lm M) as [[[att lmask] ids] Hok].
  exists att, lmask, ids. split; [exact Hok|].
  unfold get_masks_and_position_ids in Hok. cbn [negb] in Hok. fold n in Hok.
  rewrite orb_true_r in Hok.
  destruct (batch_loop _ _ _ _ _ _ _) as [[A' ids']|e] eqn:E; [|discriminate].
  injection Hok as -> _ ->.
  unfold batch_size in E. rewrite zip_replicate_l in E.
  apply batch_loop_mask in E as (Hlen & _ & Hcell).
  split.
  { rewrite Hlen. unfold unsqueeze1, tril, ones3, batch_size.
    by rewrite !length_fmap, length_replicate. }
  intros b row i j Hb Hi Hj.
  assert (Hbl : (b < length data)%nat) by (by eapply lookup_lt_Some).
  specialize (Hcell b (arange n) row i j).
  rewrite list_lookup_fmap, Hb in Hcell. specialize (Hcell eq_refl).
  simpl in Hcell. rewrite tril_ones_cell in Hcell by done. simpl in Hcell.
  assert (Hrow : length row = n).
  { rewrite Forall_forall in Hrect. apply Hrect. by eapply list_elem_of_lookup_2. }
  pose proof (existsb_eod_index eod_token i j row 0) as Hex.
  rewrite Hrow in Hex. fold (arange n) in Hex.
  eexists. split; [exact Hcell|].
  destruct (existsb _ _) eqn:Eb.
  - split; [by left|]. split; [discriminate|].
    intros [_ Hno]. destruct (proj1 Hex eq_refl) as (e & H1 & H2 & H3).
    exfalso. apply (Hno e); [lia|exact H3].
  - destruct (j <=? i)%nat eqn:Ej.
    + apply Nat.leb_le in Ej. split; [by right|]. split; [|done].
      intros _. split; [exact Ej|]. intros e He Hrow_e.
      assert (false = true) as Habs; [|discriminate Habs].
      apply Hex. exists e. simpl. repeat split; [lia|lia|exact Hrow_e].
    + apply Nat.leb_gt in Ej. split; [by left|]. split; [discriminate|].
      intros [Hle _]. lia.
Qed.

Lemma attention_reset_at_eod_witness :
  ∃ att lmask ids,
    get_masks_and_position_ids [[5; 0; 7]; [0; 6; 8]] 0 false true None None false 0
    = Ok (att, lmask, ids)
    ∧ length att = batch_size [[5; 0; 7]; [0; 6; 8]]
    ∧ ∀ b row i j,
        [[5; 0; 7]; [0; 6; 8]] !! b = Some row → (i < 3)%nat → (j < 3)%nat →
        ∃ x, get4 att b 0 i j = Some x
             ∧ (x = 0 ∨ x = 1)
             ∧ (x = 1 ↔ (j <= i)%nat ∧ ∀ e, (j <= e < i)%nat → row !! e ≠ Some 0).
Proof.
  apply (attention_reset_at_eod [[5; 0; 7]; [0; 6; 8]] 0 false None 0).
  repeat constructor.
Defined.

(** X3: outside Transformer-XL mode, with [reset_position_ids] on and
    no attention mask given, every row of position ids starts at 0 and
    its next cell is 0 right after an EOD token and one more than the
    cell before it otherwise. *)
Theorem position_ids_restart_at_eod
    (data : t2) (eod_token : Z) (ra : bool) (lm : option t2) (M : Z) :
  let n := seq_length data in
  Forall (fun row => length row = n) data →
  ∃ att lmask ids,
    get_masks_and_position_ids data eod_token true ra lm None false M
    = Ok (att, lmask, ids)
    ∧ length ids = batch_size data
    ∧ ∀ b row,
        data !! b = Some row →
        ∃ pid, ids !! b = Some pid
               ∧ length pid = n
               ∧ ((0 < n)%nat → pid !! 0%nat = Some 0)
               ∧ ∀ t d p,
                   row !! t = Some d → pid !! t = Some p → (S t < n)%nat →
                   pid !! S t = Some (if d =? eod_token then 0 else p + 1).
Proof.
  intros n Hrect.
  destruct (get_masks_non_xl_ok data eod_token true ra lm M) as [[[att lmask] ids] Hok].
  exists att, lmask, ids. split; [exact Hok|].
  unfold get_masks_and_position_ids in Hok. cbn [negb] in Hok. fold n in Hok.
  simpl in Hok.
  destruct (batch_loop _ _ _ _ _ _ _) as [[A' ids']|e] eqn:E; [|discriminate].
  injection Hok as _ _ ->.
  unfold batch_size in E. rewrite zip_replicate_l in E.
  apply batch_loop_positions in E; [|exact Hrect]. simpl in E. subst ids.
  split; [unfold batch_size; by rewrite length_fmap|].
  intros b row Hb.
  assert (Hrow : length row = n).
  { rewrite Forall_forall in Hrect. apply Hrect. by eapply list_elem_of_lookup_2. }
  exists (restart_after_eod eod_token 0 row).
  split; [by rewrite list_lookup_fmap, Hb|].
  split; [by rewrite restart_after_eod_length|].
  split.
  - intros Hn. destruct row as [|d row]; [simpl in Hrow; lia|reflexivity].
  - intros t d p Hd Hp Hlt. apply restart_after_eod_step; [exact Hd|exact Hp|lia].
Qed.

Lemma position_ids_restart_at_eod_witness :
  ∃ att lmask ids,
    get_masks_and_position_ids [[5; 0; 7]; [0; 6; 8]] 0 true false None None false 0
    = Ok (att, lmask, ids)
    ∧ length ids = batch_size [[5; 0; 7]; [0; 6; 8]]
    ∧ ∀ b row,
        [[5; 0; 7]; [0; 6; 8]] !! b = Some row →
        ∃ pid, ids !! b = Some pid
               ∧ length pid = 3%nat
               ∧ ((0 < 3)%nat → pid !! 0%nat = Some 0)
               ∧ ∀ t d p,
                   row !! t = Some d → pid !! t = Some p → (S t < 3)%nat →
                   pid !! S t = Some (if d =? 0 then 0 else p + 1).
Proof.
  apply (position_ids_restart_at_eod [[5; 0; 7]; [0; 6; 8]] 0 false None 0).
  repeat constructor.
Defined.

(** X4: in Transformer-XL mode with the attention mask of the data set,
    the returned mask keeps a cell of the given mask inside the band
    [i + M - S + 1 <= j <= i + M] and is 0 outside it; the loss mask is
    returned as given (it is not zeroed at EOD tokens) and every row of
    position ids is [0 .. S-1], whatever the reset flags. *)
Theorem xl_dataset_mask_banded
    (data : t2) (eod_token : Z) (rp ra : bool) (lm : t2) (am : t3) (M : Z) :
  let n := seq_length data in
  ∃ att,
    get_masks_and_position_ids data eod_token rp ra (Some lm) (Some am) true M
    = Ok (att, lm, replicate (batch_size data) (arange n))
    ∧ length att = length am
    ∧ ∀ b i j,
        get4 att b 0 i j
        = (fun x => if in_band n M i j then x else 0)
          <$> (am !! b ≫= fun m => m !! i ≫= (.!! j)).
Proof.
  intros n. eexists. split; [reflexivity|]. fold n.
  split; [unfold unsqueeze1, tril, triu; by rewrite !length_fmap|].
  intros b i j. unfold get4, unsqueeze1, tril, triu.
  rewrite !list_lookup_fmap. destruct (am !! b) as [m|]; simpl; [|done].
  unfold tril2, triu2. rewrite !list_lookup_imap.
  destruct (m !! i) as [row|]; simpl; [|done].
  rewrite !list_lookup_imap. destruct (row !! j) as [x|]; simpl; [|done].
  unfold in_band. f_equal.
  destruct (1 - Z.of_nat n + M <=? Z.of_nat j - Z.of_nat i) eqn:E1;
    destruct (Z.of_nat j - Z.of_nat i <=? M) eqn:E2;
    destruct (Z.of_nat i + M - Z.of_nat n + 1 <=? Z.of_nat j) eqn:E3;
    destruct (Z.of_nat j <=? Z.of_nat i + M) eqn:E4; simpl; try reflexivity;
    exfalso; lia.
Qed.

End MaskReset.

(** ** The two vocabulary paddings compared *)

Section VocabCompared.
Import Vocab.

Lemma mod_opp_bound (n m : Z) : 0 < m → 0 <= (- n) mod m < m.
Proof. intros Hm. by apply Z.mod_pos_bound. Qed.

(** X10: for a positive divisor [d] and [w] model-parallel ranks, both
    paddings return; the size of [prepare_tokenizer] is at most [d - 1]
    above the tokenizer's size and never above the size of
    [get_train_val_test_data], which is a multiple of [d] too; the two
    agree exactly when the smaller one is a multiple of [d * w], and so
    always when [w = 1]. *)
Theorem vocab_paddings_compared (num_tokens d w : Z) :
  0 < d → 0 < w →
  ∃ generate pretrain,
    prepare_tokenizer (Z.to_nat d) num_tokens d w = Ret generate
    ∧ get_train_val_test_data (Z.to_nat (d * w)) num_tokens d w = Ret pretrain
    ∧ num_tokens <= generate <= pretrain
    ∧ generate < num_tokens + d
    ∧ (d | generate) ∧ (d | pretrain)
    ∧ (generate = pretrain ↔ (d * w | generate))
    ∧ (w = 1 → generate = pretrain).
Proof.
  intros Hd Hw. assert (Hdw : 0 < d * w) by lia.
  exists (num_tokens + (- num_tokens) mod d), (num_tokens + (- num_tokens) mod (d * w)).
  pose proof (mod_opp_bound num_tokens d Hd) as Hb1.
  pose proof (mod_opp_bound num_tokens (d * w) Hdw) as Hb2.
  destruct (least_multiple_above num_tokens d Hd) as (Hg1 & Hg2 & Hg3).
  destruct (least_multiple_above num_tokens (d * w) Hdw) as (Hp1 & Hp2 & Hp3).
  assert (Hdp : (d | num_tokens + (- num_tokens) mod (d * w))).
  { destruct Hp2 as [q Hq]. exists (q * w). lia. }
  split; [unfold prepare_tokenizer; apply pad_loop_spec; [exact Hd|lia]|].
  split; [unfold get_train_val_test_data; apply pad_loop_spec; [exact Hdw|lia]|].
  split; [split; [exact Hg1|by apply Hg3]|].
  split; [lia|]. split; [exact Hg2|]. split; [exact Hdp|].
  assert (Hiff : num_tokens + (- num_tokens) mod d = num_tokens + (- num_tokens) mod (d * w)
                 ↔ (d * w | num_tokens + (- num_tokens) mod d)).
  { split.
    - intros ->. exact Hp2.
    - intros Hdiv. apply Z.le_antisymm; [by apply Hg3|by apply Hp3]. }
  split; [exact Hiff|].
  intros ->. apply Hiff. by rewrite Z.mul_1_r.
Qed.

Lemma vocab_paddings_compared_witness :
  ∃ generate pretrain,
    prepare_tokenizer (Z.to_nat 2) 5 2 2 = Ret generate
    ∧ get_train_val_test_data (Z.to_nat (2 * 2)) 5 2 2 = Ret pretrain
    ∧ 5 <= generate <= pretrain
    ∧ generate < 5 + 2
    ∧ (2 | generate) ∧ (2 | pretrain)
    ∧ (generate = pretrain ↔ (2 * 2 | generate))
    ∧ (2 = 1 → generate = pretrain).
Proof. apply (vocab_paddings_compared 5 2 2); lia. Defined.

Lemma pad_loop_multiple (fuel : nat) (p multiple : Z) :
  multiple ≠ 0 → (multiple | p) → pad_loop (S fuel) p multiple = Ret p.
Proof.
  intros Hne Hdiv. simpl.
  destruct (multiple =? 0) eqn:E0; [apply Z.eqb_eq in E0; contradiction|].
  apply Z.mod_divide in Hdiv; [|exact Hne]. by rewrite Hdiv.
Qed.

(** X11: both paddings divide by their multiple at the first test of
    the loop, so a divisor of 0 (or, in pretrain_gpt2.py, a
    model-parallel world size of 0) raises [ZeroDivisionError]; and
    both are idempotent: a size they have returned for a positive
    multiple is returned unchanged, at the first test, when it is padded
    again. *)
Theorem vocab_padding_edge_cases (fuel : nat) (num_tokens d w : Z) :
  (d = 0 ∨ w = 0 →
   get_train_val_test_data (S fuel) num_tokens d w = Stop (Raised ZeroDivisionError))
  ∧ (d = 0 →
     prepare_tokenizer (S fuel) num_tokens d w = Stop (Raised ZeroDivisionError))
  ∧ (0 < d * w →
     ∀ padded,
       get_train_val_test_data (Z.to_nat (d * w)) num_tokens d w = Ret padded →
       get_train_val_test_data (S fuel) padded d w = Ret padded)
  ∧ (0 < d →
     ∀ padded,
       prepare_tokenizer (Z.to_nat d) num_tokens d w = Ret padded →
       prepare_tokenizer (S fuel) padded d w = Ret padded).
Proof.
  unfold get_train_val_test_data, prepare_tokenizer.
  assert (Hidem : ∀ m, 0 < m → ∀ padded,
            pad_loop (Z.to_nat m) num_tokens m = Ret padded →
            pad_loop (S fuel) padded m = Ret padded).
  { intros m Hm padded Hpad. apply pad_loop_multiple; [lia|].
    pose proof (mod_opp_bound num_tokens m Hm) as Hb.
    rewrite pad_loop_spec in Hpad by lia. injection Hpad as <-.
    by destruct (least_multiple_above num_tokens m Hm) as (_ & Hdiv & _). }
  split; [|split; [|split]].
  - intros Hz. assert (d * w = 0) as -> by (destruct Hz; subst; lia). reflexivity.
  - intros ->. reflexivity.
  - apply Hidem.
  - apply Hidem.
Qed.

End VocabCompared.

(** ** More on [sample_sequence] *)

Section SamplingCalls.
Import Tensor Masks Generate.

Variable World : Type.
Variable Act : Type.
Variable sample : World → Act → Z * World.
Variable transformer_xl : bool.
Variable mem_length : Z.
Variable eod_token : Z.
Variable out_seq_length : Z.

Lemma py_slice_last (l : list Z) :
  l ≠ [] →
  ∃ x, py_slice (Z.of_nat (length l) - 1) (Z.of_nat (length l)) l = [x]
       ∧ last l = Some x.
Proof.
  intros Hne. destruct (exists_last Hne) as (l' & x & ->). exists x.
  split; [|by rewrite last_snoc].
  unfold py_slice, py_index. rewrite length_app. simpl.
  destruct (Z.of_nat (length l' + 1) - 1 <? 0) eqn:E1; [apply Z.ltb_lt in E1; lia|].
  destruct (Z.of_nat (length l' + 1) <? 0) eqn:E2; [apply Z.ltb_lt in E2; lia|].
  rewrite !Z.min_l by lia.
  replace (Z.to_nat (Z.of_nat (length l' + 1) - 1)) with (length l') by lia.
  rewrite drop_app_length.
  replace (Z.to_nat (Z.of_nat (length l' + 1) - (Z.of_nat (length l' + 1) - 1)))
    with 1%nat by lia.
  reflexivity.
Qed.

Section TwoModels.

Variable model model' : World → t2 → t2 → t4 → list Act → Act * list Act * World.
Variable context_tokens : list Z.

(** The two models agree on a call with the whole context and on every
    call with a single token, a single position and the all-ones mask
    over the memory and that token. *)
Hypothesis agree_on_context :
  ∀ w pids amask mems,
    model w [context_tokens] pids amask mems = model' w [context_tokens] pids amask mems.
Hypothesis agree_on_one_token :
  ∀ w t p mems,
    model w [[t]] [[p]] [[[replicate (Z.to_nat (mem_length + 1)) 1]]] mems
    = model' w [[t]] [[p]] [[[replicate (Z.to_nat (mem_length + 1)) 1]]] mems.

Lemma sample_loop_one_token fuel end_token amask pids :
  ∀ tokens cl counter mems w,
    0 <= counter →
    Z.of_nat (length tokens) = Z.of_nat (length context_tokens) + counter →
    (counter = 0 → tokens = context_tokens) →
    sample_loop World Act model sample mem_length out_seq_length fuel
      (Z.of_nat (length context_tokens)) end_token amask pids tokens cl counter mems w
    = sample_loop World Act model' sample mem_length out_seq_length fuel
        (Z.of_nat (length context_tokens)) end_token amask pids tokens cl counter mems w.
Proof.
  induction fuel as [|fuel IH]; intros tokens cl counter mems w Hc Hlen H0; [done|].
  simpl. destruct (counter <? out_seq_length - Z.of_nat (length context_tokens));
    [|done].
  assert (Hcall :
    (if counter =? 0
     then Ok (model w [tokens] pids amask mems)
     else if mem_length + 1 <? 0 then Err RuntimeError
          else Ok (model w [py_slice (Z.of_nat (length context_tokens) + counter - 1)
                                (Z.of_nat (length context_tokens) + counter) tokens]
                     [[Z.of_nat (length context_tokens) + counter - 1]]
                     [[[replicate (Z.to_nat (mem_length + 1)) 1]]] mems))
    = (if counter =? 0
       then Ok (model' w [tokens] pids amask mems)
       else if mem_length + 1 <? 0 then Err RuntimeError
            else Ok (model' w [py_slice (Z.of_nat (length context_tokens) + counter - 1)
                                   (Z.of_nat (length context_tokens) + counter) tokens]
                       [[Z.of_nat (length context_tokens) + counter - 1]]
                       [[[replicate (Z.to_nat (mem_length + 1)) 1]]] mems))).
  { destruct (counter =? 0) eqn:E0.
    - apply Z.eqb_eq in E0. rewrite (H0 E0). by rewrite agree_on_context.
    - apply Z.eqb_neq in E0. destruct (mem_length + 1 <? 0); [done|].
      rewrite <- Hlen.
      destruct (py_slice_last tokens) as (x & -> & _).
      { intros ->. simpl in Hlen. lia. }
      by rewrite agree_on_one_token. }
  rewrite Hcall.
  match goal with
  | |- context [match ?c with Ok _ => _ | Err _ => _ end] => destruct c as [[[lg ms] w1]|e]
  end; [|done].
  destruct (sample w1 lg) as [prev w2]. destruct (prev =? end_token); [done|].
  rewrite IH; [done|lia| |lia].
  rewrite length_app. simpl. lia.
Qed.

(** X13: after its first call, which passes the whole context,
    [sample_sequence] calls the model on one token at a time, the last
    one of the row, with one position id and the all-ones mask of width
    [mem_length + 1]: two models that agree on such calls and on the
    context give the same run. *)
Theorem sample_sequence_feeds_one_token (fuel : nat) (context_length : Z)
    (mems : option (list Act)) (end_token : option Z) (w : World) :
  context_length = Z.of_nat (length context_tokens) →
  sample_sequence World Act model sample transformer_xl mem_length eod_token
    out_seq_length fuel context_tokens context_length mems end_token w
  = sample_sequence World Act model' sample transformer_xl mem_length eod_token
      out_seq_length fuel context_tokens context_length mems end_token w.
Proof.
  intros ->. unfold sample_sequence.
  destruct (get_batch transformer_xl mem_length eod_token context_tokens)
    as [[[tokens amask] pids]|e]; [|done].
  apply sample_loop_one_token; [lia|lia|done].
Qed.

End TwoModels.

End SamplingCalls.

(** Two models that differ on rows of two tokens only. *)
Lemma sample_sequence_feeds_one_token_witness :
  let model := fun (w : nat) (tokens : Tensor.t2) (_ : Tensor.t2) (_ : Tensor.t4)
                   (mems : list Z) =>
                 (Z.of_nat (length (concat tokens)), mems, w) in
  let model' := fun (w : nat) (tokens : Tensor.t2) (_ : Tensor.t2) (_ : Tensor.t4)
                    (mems : list Z) =>
                  match tokens with
                  | [[_; _]] => (0, mems, w)
                  | _ => (Z.of_nat (length (concat tokens)), mems, w)
                  end in
  Generate.sample_sequence nat Z model (fun w lg => (lg + Z.of_nat w, Nat.pred w))
    true 5 0 10 8 [5; 6; 7] 3 None None 4%nat
  = Generate.sample_sequence nat Z model' (fun w lg => (lg + Z.of_nat w, Nat.pred w))
      true 5 0 10 8 [5; 6; 7] 3 None None 4%nat.
Proof.
  intros model model'.
  apply (sample_sequence_feeds_one_token nat Z (fun w lg => (lg + Z.of_nat w, Nat.pred w))
           true 5 0 10 model model' [5; 6; 7]); reflexivity.
Defined.

(** ** [read_context] of generate_samples.py, on model-parallel rank 0

    The lines that [input()] will return are a list; [output] holds what
    has been written to the sample file. *)

Module ReadContext.

Inductive read :=
| Terminate                       (* terminate_runs = 1 *)
| Context (raw_text : string) (context_tokens : list Z) (context_length : Z)
| EOFError.                       (* input() with no line left *)

Section Prompt.

(** [tokenizer.EncodeAsIds(raw_text).tokenization] and [args.seq_length] *)
Variable EncodeAsIds : string → list Z.
Variable seq_length : Z.

(** The loop [while True]; every pass consumes a line.  It returns what
    was read, the lines left and the sample file. *)
Fixpoint read_context (stdin : list string) (output : list string)
  : read * list string * list string :=
  match stdin with
  | [] => (EOFError, [], output)
  | raw_text :: stdin =>
      if String.eqb raw_text EmptyString then
        (* Prompt should not be empty! *)
        read_context stdin output
      else if String.eqb raw_text "stop" then (Terminate, stdin, output)
      else
        let output := output ++ [raw_text] in
        let context_tokens := EncodeAsIds raw_text in
        let context_length := Z.of_nat (length context_tokens) in
        if seq_length <=? context_length then
          (* Please give smaller context than the window length! *)
          read_context stdin output
        else (Context raw_text context_tokens context_length, stdin, output)
  end.

(** A line that the loop passes over: empty, or too long for the window. *)
Definition rejected (line : string) : Prop :=
  line = EmptyString
  ∨ (line ≠ "stop"%string ∧ seq_length <= Z.of_nat (length (EncodeAsIds line))).

Definition nonempty (line : string) : bool := negb (String.eqb line EmptyString).

(** X14: [read_context] passes over the empty lines and the prompts of
    [args.seq_length] tokens or more, and stops at the first other
    line: at "stop" it asks to terminate; otherwise it returns that
    line, its tokens and their number, which is below
    [args.seq_length].  Every prompt read on the way, the rejected ones
    too, has been written to the sample file. *)
Theorem read_context_first_accepted (stdin output : list string) :
  ∃ skipped,
    Forall rejected skipped
    ∧ match read_context stdin output with
      | (Terminate, rest, output') =>
          stdin = skipped ++ "stop"%string :: rest
          ∧ output' = output ++ List.filter nonempty skipped
      | (Context raw_text context_tokens context_length, rest, output') =>
          stdin = skipped ++ raw_text :: rest
          ∧ raw_text ≠ EmptyString ∧ raw_text ≠ "stop"%string
          ∧ context_tokens = EncodeAsIds raw_text
          ∧ context_length = Z.of_nat (length context_tokens)
          ∧ context_length < seq_length
          ∧ output' = output ++ List.filter nonempty skipped ++ [raw_text]
      | (EOFError, rest, output') =>
          stdin = skipped ∧ rest = []
          ∧ output' = output ++ List.filter nonempty skipped
      end.
Proof.
  revert output. induction stdin as [|line stdin IH]; intros output.
  - exists []. simpl. split; [constructor|]. by rewrite app_nil_r.
  - simpl. destruct (String.eqb line EmptyString) eqn:Ee.
    + apply String.eqb_eq in Ee. subst line.
      destruct (IH output) as (skipped & Hrej & H).
      exists (EmptyString :: skipped). split; [constructor; [by left|exact Hrej]|].
      destruct (read_context stdin output) as [[[|raw toks len|] rest] output'];
        simpl; destruct H as (-> & H); auto.
    + destruct (String.eqb line "stop") eqn:Es.
      * apply String.eqb_eq in Es. subst line. exists []. simpl.
        split; [constructor|]. by rewrite app_nil_r.
      * apply String.eqb_neq in Ee, Es.
        destruct (seq_length <=? Z.of_nat (length (EncodeAsIds line))) eqn:El.
        -- apply Z.leb_le in El.
           destruct (IH (output ++ [line])) as (skipped & Hrej & H).
           exists (line :: skipped).
           split; [constructor; [right; by split|exact Hrej]|].
           assert (Hne : nonempty line = true).
           { unfold nonempty. apply String.eqb_neq in Ee. by rewrite Ee. }
           destruct (read_context stdin (output ++ [line]))
             as [[[|raw toks len|] rest] output'];
             simpl; rewrite Hne; destruct H as (-> & H); rewrite <- ?app_assoc in H;
             simpl in H; auto.
        -- apply Z.leb_gt in El. exists []. simpl.
           split; [constructor|]. repeat split; auto.
Qed.

End Prompt.

End ReadContext.

(** ** Reading a CogView sample back *)

Lemma zsum_replicate (k : nat) (x : Z) : zsum (replicate k x) = Z.of_nat k * x.
Proof. induction k as [|k IH]; simpl; [done|]. rewrite IH. lia. Qed.

Lemma zsum_app (l1 l2 : list Z) : zsum (l1 ++ l2) = zsum l1 + zsum l2.
Proof. induction l1 as [|x l1 IH]; simpl; [done|]. rewrite IH. lia. Qed.

Lemma py_slice_prefix (n : Z) (l : list Z) :
  0 <= n → Generate.py_slice 0 n l = take (Z.to_nat n) l.
Proof.
  intros Hn. unfold Generate.py_slice, Generate.py_index. simpl.
  destruct (n <? 0) eqn:E; [apply Z.ltb_lt in E; lia|].
  rewrite (Z.min_l 0) by lia. rewrite Z.sub_0_r. change (Z.to_nat 0) with 0%nat.
  rewrite drop_0. destruct (Z.min_spec n (Z.of_nat (length l))) as [[Hlt ->]|[Hle ->]];
    [done|].
  rewrite Nat2Z.id. rewrite !take_ge; [done|lia|lia].
Qed.

Section CogViewReadBack.
Import CogView.

Variable PAD : Z.
Variable Text : Type.
Variable TextCodeTemplate : Text → list Z → list Z.
Variable finetune : bool.
Variable max_position_embeddings_finetune : Z.
Variable max_position_embeddings : Z.

Let ml := ml finetune max_position_embeddings_finetune max_position_embeddings.

Lemma make_sample_read_back (flat : list Z) :
  0 <= ml →
  let smp := make_sample (pad_to_len PAD finetune max_position_embeddings_finetune
                            max_position_embeddings flat) in
  let real := zsum (loss_mask smp) in
  real = Z.min (Z.of_nat (length flat)) ml
  ∧ take (Z.to_nat real) (text smp) = take (Z.to_nat ml) flat
  ∧ (Z.of_nat (length flat) <= ml → take (Z.to_nat real) (text smp) = flat).
Proof.
  intros Hml. unfold pad_to_len, make_sample, py_repeat. fold ml.
  destruct (Z.of_nat (length flat) <? ml) eqn:E.
  - apply Z.ltb_lt in E. simpl.
    rewrite zsum_app, !zsum_replicate, Nat2Z.id, Z.mul_0_r, Z.mul_1_r, Z.add_0_r.
    rewrite Nat2Z.id, take_app_length.
    split; [lia|]. split; [rewrite take_ge; [done|lia]|done].
  - apply Z.ltb_ge in E. simpl.
    rewrite zsum_app, !zsum_replicate, Z.mul_0_r, Z.mul_1_r, Z.add_0_r.
    rewrite Z2Nat.id by lia. rewrite py_slice_prefix by lia.
    split; [lia|]. rewrite take_take, Nat.min_id.
    split; [done|]. intros Hle. rewrite take_ge; [done|lia].
Qed.

(** X15: when [ml] is not negative, the sum of the loss mask of a sample
    is the number of tokens kept from the row, [min (length of the row)
    ml], and the first that many tokens of ['text'] are the row cut to
    [ml]: a row of at most [ml] tokens is read back whole, whatever
    [PAD] is. *)
Theorem process_fn_read_back :
  0 <= ml →
  (∀ row,
      let smp := process_fn_tokenized PAD finetune max_position_embeddings_finetune
                   max_position_embeddings row in
      let real := zsum (loss_mask smp) in
      real = Z.min (Z.of_nat (length (concat row))) ml
      ∧ take (Z.to_nat real) (text smp) = take (Z.to_nat ml) (concat row)
      ∧ (Z.of_nat (length (concat row)) <= ml →
         take (Z.to_nat real) (text smp) = concat row))
  ∧ (∀ row,
        let smp := process_fn_text_code PAD Text TextCodeTemplate finetune
                     max_position_embeddings_finetune max_position_embeddings row in
        let flat := TextCodeTemplate (fst row) (concat (snd row)) in
        let real := zsum (loss_mask smp) in
        real = Z.min (Z.of_nat (length flat)) ml
        ∧ take (Z.to_nat real) (text smp) = take (Z.to_nat ml) flat
        ∧ (Z.of_nat (length flat) <= ml → take (Z.to_nat real) (text smp) = flat)).
Proof.
  intros Hml. split; intros row.
  - by apply make_sample_read_back.
  - unfold process_fn_text_code. simpl. by apply make_sample_read_back.
Qed.

End CogViewReadBack.

Lemma process_fn_read_back_witness :
  (∀ row,
      let smp := CogView.process_fn_tokenized 0 false 0 4 row in
      let real := zsum (CogView.loss_mask smp) in
      real = Z.min (Z.of_nat (length (concat row))) (CogView.ml false 0 4)
      ∧ take (Z.to_nat real) (CogView.text smp)
        = take (Z.to_nat (CogView.ml false 0 4)) (concat row)
      ∧ (Z.of_nat (length (concat row)) <= CogView.ml false 0 4 →
         take (Z.to_nat real) (CogView.text smp) = concat row))
  ∧ (∀ row : unit * list (list Z),
        let smp := CogView.process_fn_text_code 0 unit (fun _ code => 9 :: code)
                     false 0 4 row in
        let flat := (fun _ code => 9 :: code) (fst row) (concat (snd row)) in
        let real := zsum (CogView.loss_mask smp) in
        real = Z.min (Z.of_nat (length flat)) (CogView.ml false 0 4)
        ∧ take (Z.to_nat real) (CogView.text smp)
          = take (Z.to_nat (CogView.ml false 0 4)) flat
        ∧ (Z.of_nat (length flat) <= CogView.ml false 0 4 →
           take (Z.to_nat real) (CogView.text smp) = flat)).
Proof.
  apply (process_fn_read_back 0 unit (fun _ code => 9 :: code) false 0 4).
  unfold CogView.ml. simpl. lia.
Defined.

(** ** [SecondaryStructureDataset] of
    ProtTrans/pretrain/tasks/protein/secondary_structure.py *)

Module SecondaryStructure.

(** The sample that the batch producer consumes. *)
Record sample := {
  text : list Z;
  padding_mask : list Z;
  label : list Z;
  uid : Z;
  seq_len : Z
}.

(** An entry of [self.samples]. *)
Record item (Primary : Type) := {
  primary : Primary;
  ss3 : list Z;
  item_uid : Z
}.
Arguments primary {Primary} i.
Arguments ss3 {Primary} i.
Arguments item_uid {Primary} i.

Section Dataset.

Variable Primary : Type.
Variable max_seq_length : Z.

(** [build_tokens_paddings_from_text] of the data module: the token
    ids, the paddings and the sequence length. *)
Variable build_tokens_paddings_from_text : Primary → Z → list Z * list Z * Z.

Definition build_samples (ids paddings label : list Z) (unique_id seq_len : Z) : sample :=
  let label := [-1] ++ label in
  let padding_length := max_seq_length - Z.of_nat (length label) in
  let label :=
    if 0 <? padding_length then label ++ CogView.py_repeat (-1) padding_length
    else label in
  let label := Generate.py_slice 0 max_seq_length label in
  {| text := ids; padding_mask := paddings; label := label;
     uid := unique_id; seq_len := seq_len |}.

Definition getitem (it : item Primary) : sample :=
  let '(ids, paddings, seq_len) :=
    build_tokens_paddings_from_text (primary it) max_seq_length in
  (* +1 because of the [cls] token *)
  let seq_len := Z.min (seq_len + 1) max_seq_length in
  build_samples ids paddings (ss3 it) (item_uid it) seq_len.

End Dataset.

End SecondaryStructure.

Section SecondaryStructureLabels.
Import SecondaryStructure.

Variable Primary : Type.
Variable max_seq_length : Z.
Variable build_tokens_paddings_from_text : Primary → Z → list Z * list Z * Z.

(** X16: for a window of [max_seq_length >= 0] positions, the label row
    of a sample has exactly [max_seq_length] cells: -1 at position 0
    (the [cls] token), the label of residue [i] at position [i + 1] as
    far as the window reaches, and -1 after the last residue; the
    recorded sequence length is the one of the tokens plus one, capped
    at the window. *)
Theorem labels_shifted_and_padded (it : item Primary) :
  0 <= max_seq_length →
  let smp := getitem Primary max_seq_length build_tokens_paddings_from_text it in
  let n := Z.to_nat max_seq_length in
  length (label smp) = n
  ∧ ((0 < n)%nat → label smp !! 0%nat = Some (-1))
  ∧ (∀ i, (S i < n)%nat → (i < length (ss3 it))%nat →
          label smp !! S i = ss3 it !! i)
  ∧ (∀ j, (length (ss3 it) < j)%nat → (j < n)%nat → label smp !! j = Some (-1))
  ∧ seq_len smp
    = Z.min ((build_tokens_paddings_from_text (primary it) max_seq_length).2 + 1)
        max_seq_length
  ∧ seq_len smp <= max_seq_length.
Proof.
  intros Hmax smp n. subst smp. unfold getitem.
  destruct (build_tokens_paddings_from_text (primary it) max_seq_length)
    as [[ids paddings] sl] eqn:Eb.
  unfold build_samples. simpl.
  rewrite py_slice_prefix by exact Hmax. fold n.
  split; [|split; [|split; [|split; [|split]]]]; try lia.
  - destruct (0 <? max_seq_length - Z.of_nat (S (length (ss3 it)))) eqn:E.
    + apply Z.ltb_lt in E. unfold CogView.py_repeat.
      rewrite length_take. simpl. rewrite length_app, length_replicate. lia.
    + apply Z.ltb_ge in E. rewrite length_take. simpl. lia.
  - intros Hn. destruct (0 <? _); rewrite lookup_take_lt by lia; reflexivity.
  - intros i Hi Hlen.
    destruct (0 <? _); rewrite lookup_take_lt by lia; simpl; [|reflexivity].
    by rewrite lookup_app_l by lia.
  - intros j Hj Hn. destruct j as [|j]; [lia|].
    destruct (0 <? max_seq_length - Z.of_nat (S (length (ss3 it)))) eqn:E.
    + apply Z.ltb_lt in E. rewrite lookup_take_lt by lia. simpl.
      rewrite lookup_app_r by lia.
      apply lookup_replicate_2. lia.
    + apply Z.ltb_ge in E. lia.
Qed.

End SecondaryStructureLabels.

Lemma labels_shifted_and_padded_witness :
  let it := {| SecondaryStructure.primary := tt; SecondaryStructure.ss3 := [0; 2; 1];
               SecondaryStructure.item_uid := 7 |} in
  let build := fun (_ : unit) (n : Z) => ([2; 5; 6; 7; 0; 0], [1; 1; 1; 1; 0; 0], 3) in
  let smp := SecondaryStructure.getitem unit 6 build it in
  let n := Z.to_nat 6 in
  length (SecondaryStructure.label smp) = n
  ∧ ((0 < n)%nat → SecondaryStructure.label smp !! 0%nat = Some (-1))
  ∧ (∀ i, (S i < n)%nat → (i < length (SecondaryStructure.ss3 it))%nat →
          SecondaryStructure.label smp !! S i = SecondaryStructure.ss3 it !! i)
  ∧ (∀ j, (length (SecondaryStructure.ss3 it) < j)%nat → (j < n)%nat →
          SecondaryStructure.label smp !! j = Some (-1))
  ∧ SecondaryStructure.seq_len smp
    = Z.min ((build (SecondaryStructure.primary it) 6).2 + 1) 6
  ∧ SecondaryStructure.seq_len smp <= 6.
Proof.
  intros it build.
  apply (labels_shifted_and_padded unit 6 build it). lia.
Defined.

(** ** Setting up the model and the optimizer in pretrain_gpt2.py *)

Module Setup.

(** The objects that [get_model] builds: the [GPT2Model], which
    [model.half()] and [model.cuda()] change in place, and its wrappers;
    [DeepSpeedEngine] is what [deepspeed.initialize] returns for it.
    The flag [half] records a call of [model.half()] made by [get_model]
    itself; what the constructor of [FP16_Module] does to the module it
    is given is not part of this model, so a flag that is [false] under
    a [FP16_Module] says nothing about the precision of the parameters. *)
Inductive module_ :=
| GPT2Model (half cuda : bool)
| FP16_Module (module : module_)
| DDP (module : module_)
| DeepSpeedEngine (module : module_).

Inductive optimizer :=
| AdamW
| DeepSpeedCPUAdam
| FusedAdam
| FP16_Optimizer (optimizer : optimizer)
| EngineOptimizer.                 (* the optimizer of [deepspeed.initialize] *)

(** [AnnealingLR] with the arguments computed here. *)
Record AnnealingLR := {
  warmup_iter : Q;
  num_iters : Z;
  last_iter : Z
}.

(** The fields of [args] that are read; [train_data] tells whether
    [args.train_data] is not [None]. *)
Record Args := {
  fp16 : bool;
  deepspeed : bool;
  cpu_optimizer : bool;
  cpu_torch_adam : bool;
  train_data : bool;
  lr_decay_iters : option Z;
  train_iters : Z;
  warmup : Q
}.

Inductive raised (A : Type) :=
| Returned (a : A)
| NotImplementedError.
Arguments Returned {A} a.
Arguments NotImplementedError {A}.

Definition half (model : module_) : module_ :=
  match model with
  | GPT2Model _ cuda => GPT2Model true cuda
  | _ => model
  end.

Definition cuda (model : module_) : module_ :=
  match model with
  | GPT2Model half _ => GPT2Model half true
  | _ => model
  end.

Definition get_model (args : Args) : module_ :=
  let model := GPT2Model false false in
  (* To prevent OOM for model sizes that cannot fit in GPU memory in full precision *)
  let model := if deepspeed args && fp16 args then half model else model in
  (* GPU allocation. *)
  let model := cuda model in
  (* Fp16 conversion. *)
  let model := if fp16 args then FP16_Module model else model in
  (* Wrap model for distributed training. *)
  if negb (deepspeed args) then
    if Pretrain.USE_TORCH_DDP then DDP model else DDP model
  else model.

(** [while isinstance(model, (DDP, FP16_Module)): model = model.module],
    the start of [get_optimizer_param_groups]. *)
Fixpoint unwrap (model : module_) : module_ :=
  match model with
  | DDP module | FP16_Module module => unwrap module
  | _ => model
  end.

(** [isinstance(model, DDP)], as [evaluate] asks. *)
Definition is_DDP (model : module_) : bool :=
  match model with DDP _ => true | _ => false end.

Definition get_optimizer (args : Args) : raised optimizer :=
  let optimizer :=
    if cpu_optimizer args then
      let cpu_adam_optimizer :=
        if cpu_torch_adam args then AdamW else DeepSpeedCPUAdam in
      cpu_adam_optimizer
    else
      (* Use FusedAdam. *)
      FusedAdam in
  if deepspeed args then NotImplementedError
  else
    (* Wrap into fp16 optimizer. *)
    Returned (if fp16 args then FP16_Optimizer optimizer else optimizer).

Definition get_learning_rate_scheduler (args : Args) : AnnealingLR :=
  let num_iters :=
    match lr_decay_iters args with
    | Some n => n
    | None => train_iters args
    end in
  let num_iters := Z.max 1 num_iters in
  let init_step := -1 in
  let warmup_iter := (warmup args * inject_Z num_iters)%Q in
  {| warmup_iter := warmup_iter; num_iters := num_iters; last_iter := init_step |}.

Definition setup_model_and_optimizer (args : Args)
  : raised (module_ * option optimizer * option AnnealingLR) :=
  let model := get_model args in
  if train_data args then
    match
      (if deepspeed args then Returned (DeepSpeedEngine model, EngineOptimizer)
       else
         match get_optimizer args with
         | Returned optimizer => Returned (model, optimizer)
         | NotImplementedError => NotImplementedError
         end)
    with
    | Returned (model, optimizer) =>
        let lr_scheduler := get_learning_rate_scheduler args in
        Returned (model, Some optimizer, Some lr_scheduler)
    | NotImplementedError => NotImplementedError
    end
  else Returned (model, None, None).

(** The block "Resume data loader if necessary" of [main], for
    [args.resume_dataloader] set: the [start_iter] given to the train
    and the validation sampler; a data set that is [None] has no
    length.  [//] and [%] raise on a zero divisor. *)
Definition resume_dataloader (iteration train_iters save_interval eval_interval : Z)
    (len_train_data len_val_data : option Z) : result (option Z * option Z) :=
  match
    match len_train_data with
    | Some n => if n =? 0 then Err ZeroDivisionError else Ok (Some (iteration mod n))
    | None => Ok None
    end
  with
  | Err e => Err e
  | Ok train_start =>
      match len_val_data with
      | Some n =>
          if save_interval =? 0 then Err ZeroDivisionError
          else
            let start_iter_val := (train_iters / save_interval) * eval_interval in
            if n =? 0 then Err ZeroDivisionError
            else Ok (train_start, Some (start_iter_val mod n))
      | None => Ok (train_start, None)
      end
  end.

Lemma get_model_unwrapped_aux (args : Args) :
  unwrap (get_model args) = GPT2Model (deepspeed args && fp16 args) true.
Proof. unfold get_model. destruct (deepspeed args), (fp16 args); done. Qed.

(** X17: whatever the flags, the loop at the start of
    [get_optimizer_param_groups] strips every wrapper that [get_model]
    put on: the parameter groups are built from the [GPT2Model] itself,
    which has been moved to the GPU.  [get_model] has called
    [model.half()] on it under DeepSpeed with fp16 and converts nothing
    without fp16; for fp16 outside DeepSpeed nothing is stated, the
    conversion being left to [FP16_Module].  The model returned is that
    [GPT2Model] inside [FP16_Module] exactly under fp16, inside [DDP]
    exactly outside DeepSpeed, so the test [isinstance(model, DDP)] of
    [evaluate] holds for it exactly then. *)
Theorem get_model_unwrapped (args : Args) :
  (∃ h, unwrap (get_model args) = GPT2Model h true
        ∧ (fp16 args = false → h = false)
        ∧ (deepspeed args = true → fp16 args = true → h = true))
  ∧ is_DDP (get_model args) = negb (deepspeed args)
  ∧ get_model args
    = (if deepspeed args then fun m => m else DDP)
        ((if fp16 args then FP16_Module else fun m => m) (unwrap (get_model args))).
Proof.
  unfold get_model.
  destruct (deepspeed args), (fp16 args); simpl;
    (split; [eexists; split; [reflexivity|]; split; [done|]; intros; done || discriminate|done]).
Qed.

(** X18: [get_optimizer] raises [NotImplementedError] whenever
    [args.deepspeed] is set, but [setup_model_and_optimizer] calls it
    only when it is not and so always returns: without training data
    with no optimizer and no scheduler; under DeepSpeed with the engine
    and its optimizer; otherwise with the Adam variant chosen by the
    CPU flags, wrapped in [FP16_Optimizer] exactly under fp16.  A
    scheduler, when built, counts at least one iteration. *)
Theorem setup_always_returns (args : Args) :
  (deepspeed args = true → get_optimizer args = NotImplementedError)
  ∧ ∃ model opt sched,
      setup_model_and_optimizer args = Returned (model, opt, sched)
      ∧ unwrap model = (if train_data args && deepspeed args
                        then DeepSpeedEngine (get_model args)
                        else GPT2Model (deepspeed args && fp16 args) true)
      ∧ (train_data args = false → opt = None ∧ sched = None)
      ∧ (train_data args = true →
         (∃ sc, sched = Some sc ∧ 1 <= num_iters sc ∧ last_iter sc = -1)
         ∧ if deepspeed args then opt = Some EngineOptimizer
           else
             let adam := if cpu_optimizer args
                         then (if cpu_torch_adam args then AdamW else DeepSpeedCPUAdam)
                         else FusedAdam in
             opt = Some (if fp16 args then FP16_Optimizer adam else adam)).
Proof.
  split.
  - intros Hds. unfold get_optimizer. by rewrite Hds.
  - unfold setup_model_and_optimizer, get_optimizer, get_learning_rate_scheduler.
    pose proof (get_model_unwrapped_aux args) as Hun.
    destruct (train_data args), (deepspeed args) eqn:Eds; simpl;
      eexists _, _, _; (split; [reflexivity|]); simpl;
      (split; [first [exact Hun | reflexivity]|]);
      (split; [intros H; first [discriminate H | done]|]);
      intros H; try discriminate H;
      (split; [eexists; split; [reflexivity|]; simpl; split; [lia|done]|done]).
Qed.

(** X19: resuming the data loaders sets the start of the train sampler
    to [args.iteration] modulo its length and the start of the
    validation sampler to [(train_iters // save_interval) *
    eval_interval] modulo its length, both inside a loader of positive
    length; with validation data and [args.save_interval = 0], which
    [train] reads as saving at no interval, the floor division raises
    [ZeroDivisionError], as does a loader of length 0. *)
Theorem resume_dataloader_positions
    (iteration train_iters save_interval eval_interval : Z)
    (len_train_data len_val_data : option Z) :
  (∀ n m, len_train_data = Some n → len_val_data = Some m →
          0 < n → 0 < m → save_interval ≠ 0 →
          ∃ a b,
            resume_dataloader iteration train_iters save_interval eval_interval
              len_train_data len_val_data = Ok (Some a, Some b)
            ∧ a = iteration mod n ∧ 0 <= a < n
            ∧ b = ((train_iters / save_interval) * eval_interval) mod m ∧ 0 <= b < m)
  ∧ (∀ m, len_val_data = Some m → save_interval = 0 →
          resume_dataloader iteration train_iters save_interval eval_interval
            len_train_data len_val_data = Err ZeroDivisionError)
  ∧ (len_train_data = Some 0 ∨ len_val_data = Some 0 →
     resume_dataloader iteration train_iters save_interval eval_interval
       len_train_data len_val_data = Err ZeroDivisionError)
  ∧ (len_train_data = None → len_val_data = None →
     resume_dataloader iteration train_iters save_interval eval_interval
       len_train_data len_val_data = Ok (None, None)).
Proof.
  unfold resume_dataloader. split; [|split; [|split]].
  - intros n m -> -> Hn Hm Hs.
    destruct (n =? 0) eqn:En; [apply Z.eqb_eq in En; lia|].
    destruct (save_interval =? 0) eqn:Es; [apply Z.eqb_eq in Es; lia|].
    destruct (m =? 0) eqn:Em; [apply Z.eqb_eq in Em; lia|].
    eexists _, _. split; [reflexivity|].
    split; [reflexivity|]. split; [by apply Z.mod_pos_bound|].
    split; [reflexivity|by apply Z.mod_pos_bound].
  - intros m -> ->. simpl.
    destruct len_train_data as [n|]; [destruct (n =? 0)|]; reflexivity.
  - intros [-> | ->]; simpl; [reflexivity|].
    destruct len_train_data as [n|]; [destruct (n =? 0)|];
      destruct (save_interval =? 0); reflexivity.
  - intros -> ->. reflexivity.
Qed.

End Setup.

(** ** Parameter groups

    [gpt2_get_params_for_weight_decay_optimization] of
    CogView/model/gpt2_modeling.py and the default of the
    [model_parallel] attribute in [get_optimizer_param_groups] of
    pretrain_gpt2.py. *)

Module ParamGroups.

Section Groups.

(** Parameter objects. *)
Variable Param : Type.

(** A module as the loop sees it: whether it is a layer norm, and its
    [_parameters] in the order of the dictionary ([None] for a
    parameter that is registered but absent). *)
Record module_ := {
  is_layer_norm : bool;
  parameters : list (string * option Param)
}.

(** [[p for n, p in list(module_._parameters.items()) if p is not None
     and keep n]] *)
Definition params_where (keep : string → bool) (m : module_) : list Param :=
  omap (fun np => if keep (fst np) then snd np else None) (parameters m).

Definition is_bias (n : string) : bool := String.eqb n "bias".

(** The loop over [module.modules()]: the lists ['params'] of the two
    groups. *)
Fixpoint groups_loop (modules : list module_)
    (weight_decay_params no_weight_decay_params : list Param)
  : list Param * list Param :=
  match modules with
  | [] => (weight_decay_params, no_weight_decay_params)
  | module_ :: modules =>
      if is_layer_norm module_ then
        groups_loop modules weight_decay_params
          (no_weight_decay_params ++ params_where (fun _ => true) module_)
      else
        groups_loop modules
          (weight_decay_params ++ params_where (fun n => negb (is_bias n)) module_)
          (no_weight_decay_params ++ params_where is_bias module_)
  end.

Definition gpt2_get_params_for_weight_decay_optimization (modules : list module_)
  : list Param * list Param :=
  groups_loop modules [] [].

(** The parameters of the modules that are not [None], with the name
    they are registered under and whether the module is a layer norm. *)
Definition registered (modules : list module_) : list (bool * string * Param) :=
  m ← modules;
  omap (fun np => match snd np with
                  | Some p => Some (is_layer_norm m, fst np, p)
                  | None => None
                  end) (parameters m).

Definition decays (r : bool * string * Param) : bool :=
  negb (fst (fst r)) && negb (is_bias (snd (fst r))).

Lemma params_where_registered keep (m : module_) :
  params_where keep m
  = snd <$> List.filter (fun r => keep (snd (fst r))) (registered [m]).
Proof.
  unfold params_where, registered. simpl. rewrite app_nil_r.
  induction (parameters m) as [|[n [p|]] ps IH]; cbn; [done| |].
  - destruct (keep n); cbn; [f_equal|]; exact IH.
  - destruct (keep n); cbn; exact IH.
Qed.

Lemma registered_cons m modules :
  registered (m :: modules) = registered [m] ++ registered modules.
Proof. unfold registered. simpl. by rewrite app_nil_r. Qed.

Lemma registered_one_kind (m : module_) :
  Forall (fun r => fst (fst r) = is_layer_norm m) (registered [m]).
Proof.
  apply Forall_forall. intros r Hin. unfold registered in Hin.
  apply list_elem_of_bind in Hin as (m' & Hin & Hm).
  apply list_elem_of_singleton in Hm as ->.
  apply list_elem_of_omap in Hin as ([n q] & _ & Heq).
  simpl in Heq. destruct q; [|discriminate]. by injection Heq as <-.
Qed.

Lemma filter_decays_kind (ln : bool) (rs : list (bool * string * Param)) :
  Forall (fun r => fst (fst r) = ln) rs →
  List.filter decays rs
  = (if ln then [] else List.filter (fun r => negb (is_bias (snd (fst r)))) rs)
  ∧ List.filter (fun r => negb (decays r)) rs
    = (if ln then List.filter (fun r => true) rs
       else List.filter (fun r => is_bias (snd (fst r))) rs).
Proof.
  induction 1 as [|[[ln' n] p] rs Hr Hall [IH1 IH2]]; [by destruct ln|].
  simpl in Hr. subst ln'. unfold decays in *. cbn [List.filter fst snd].
  rewrite IH1, IH2. by destruct ln, (is_bias n).
Qed.

Lemma filter_decays_one (m : module_) :
  snd <$> List.filter decays (registered [m])
  = (if is_layer_norm m then [] else params_where (fun n => negb (is_bias n)) m)
  ∧ snd <$> List.filter (fun r => negb (decays r)) (registered [m])
    = (if is_layer_norm m then params_where (fun _ => true) m
       else params_where is_bias m).
Proof.
  rewrite !params_where_registered.
  destruct (filter_decays_kind _ _ (registered_one_kind m)) as [-> ->].
  by destruct (is_layer_norm m).
Qed.

Lemma groups_loop_spec modules wd nwd :
  groups_loop modules wd nwd
  = (wd ++ (snd <$> List.filter decays (registered modules)),
     nwd ++ (snd <$> List.filter (fun r => negb (decays r)) (registered modules))).
Proof.
  revert wd nwd. induction modules as [|m modules IH]; intros wd nwd.
  - simpl. by rewrite !app_nil_r.
  - simpl groups_loop. rewrite registered_cons, !List.filter_app, !fmap_app.
    destruct (filter_decays_one m) as [H1 H2]. rewrite H1, H2.
    destruct (is_layer_norm m); rewrite IH, <- ?app_assoc; done.
Qed.

(** X20: the two groups split the registered parameters that are not
    [None]: a parameter decays exactly when its module is no layer
    norm and it is not registered as 'bias'; each group keeps the order
    of [module.modules()] and of the parameter dictionaries, and no
    parameter is lost or added. *)
Theorem weight_decay_groups_partition (modules : list module_) :
  let '(weight_decay_params, no_weight_decay_params) :=
    gpt2_get_params_for_weight_decay_optimization modules in
  weight_decay_params = snd <$> List.filter decays (registered modules)
  ∧ no_weight_decay_params
    = snd <$> List.filter (fun r => negb (decays r)) (registered modules)
  ∧ weight_decay_params ++ no_weight_decay_params ≡ₚ snd <$> registered modules
  ∧ (∀ p, p ∈ weight_decay_params ↔
          ∃ m n, m ∈ modules ∧ (n, Some p) ∈ parameters m
                 ∧ is_layer_norm m = false ∧ n ≠ "bias"%string).
Proof.
  unfold gpt2_get_params_for_weight_decay_optimization.
  rewrite groups_loop_spec. simpl.
  split; [done|]. split; [done|]. split.
  - rewrite <- fmap_app. apply fmap_Permutation.
    induction (registered modules) as [|r rs IH]; simpl; [done|].
    destruct (decays r); simpl.
    + by constructor.
    + rewrite <- Permutation_middle. by constructor.
  - intros p. rewrite list_elem_of_fmap. split.
    + intros ([[ln n] p'] & -> & Hin).
      apply list_elem_of_In, filter_In in Hin as [Hin Hd].
      apply list_elem_of_In in Hin. unfold registered in Hin.
      apply list_elem_of_bind in Hin as (m & Hin & Hm).
      apply list_elem_of_omap in Hin as ([n' q] & Hin & Heq).
      simpl in Heq. destruct q as [q|]; [|discriminate]. injection Heq as <- <- <-.
      unfold decays in Hd. simpl in Hd.
      apply andb_true_iff in Hd as [Hln Hb].
      apply negb_true_iff in Hln, Hb. unfold is_bias in Hb.
      apply String.eqb_neq in Hb.
      exists m, n'. auto.
    + intros (m & n & Hm & Hin & Hln & Hb).
      exists (false, n, p). split; [done|].
      apply list_elem_of_In, filter_In. split.
      * apply list_elem_of_In. unfold registered.
        apply list_elem_of_bind. exists m. split; [|exact Hm].
        apply list_elem_of_omap. exists (n, Some p). split; [exact Hin|].
        simpl. by rewrite Hln.
      * unfold decays, is_bias. simpl. apply String.eqb_neq in Hb. by rewrite Hb.
Qed.

End Groups.

(** [get_optimizer_param_groups]: parameters are numbered objects, and
    [attr p] is the attribute [model_parallel] of parameter [p], [None]
    when it has none. *)
Definition set_default (attr : nat → option bool) (param : nat) : nat → option bool :=
  match attr param with
  | None => fun q => if Nat.eqb q param then Some false else attr q
  | Some _ => attr
  end.

Definition add_model_parallel (param_groups : list (list nat)) (attr : nat → option bool)
  : nat → option bool :=
  fold_left (fun attr param_group => fold_left set_default param_group attr)
    param_groups attr.

Lemma set_default_spec attr param q :
  set_default attr param q
  = if Nat.eqb q param then Some (default false (attr param)) else attr q.
Proof.
  unfold set_default. destruct (attr param) as [b|] eqn:E; [|done].
  destruct (Nat.eqb q param) eqn:Eq; [|done].
  apply Nat.eqb_eq in Eq. by subst q.
Qed.

Lemma fold_set_default_spec (group : list nat) attr q :
  fold_left set_default group attr q
  = if bool_decide (q ∈ group) then Some (default false (attr q)) else attr q.
Proof.
  revert attr. induction group as [|p group IH]; intros attr; simpl; [done|].
  rewrite IH, !set_default_spec.
  destruct (Nat.eqb q p) eqn:Eq.
  - apply Nat.eqb_eq in Eq. subst q. simpl.
    rewrite (bool_decide_eq_true_2 (p ∈ p :: group)) by left.
    by destruct (bool_decide (p ∈ group)).
  - apply Nat.eqb_neq in Eq.
    destruct (bool_decide (q ∈ group)) eqn:Eg.
    + apply bool_decide_eq_true_1 in Eg.
      by rewrite (bool_decide_eq_true_2 (q ∈ p :: group)) by (by right).
    + apply bool_decide_eq_false_1 in Eg.
      rewrite (bool_decide_eq_false_2 (q ∈ p :: group)); [done|].
      intros [->|Hin]%elem_of_cons; contradiction.
Qed.

(** X21: after the loop of [get_optimizer_param_groups] every parameter
    of a group has the attribute [model_parallel]: [False] where it
    had none, its old value where it had one (also for a parameter that
    occurs in several groups); the other parameters are untouched. *)
Theorem model_parallel_default (param_groups : list (list nat))
    (attr : nat → option bool) (q : nat) :
  add_model_parallel param_groups attr q
  = if bool_decide (q ∈ concat param_groups)
    then Some (default false (attr q))
    else attr q.
Proof.
  unfold add_model_parallel. revert attr.
  induction param_groups as [|group groups IH]; intros attr; simpl; [done|].
  rewrite IH, fold_set_default_spec.
  destruct (bool_decide (q ∈ group)) eqn:Eg.
  - apply bool_decide_eq_true_1 in Eg.
    rewrite (bool_decide_eq_true_2 (q ∈ group ++ concat groups))
      by (apply elem_of_app; by left).
    by destruct (bool_decide (q ∈ concat groups)).
  - apply bool_decide_eq_false_1 in Eg.
    destruct (bool_decide (q ∈ concat groups)) eqn:Ec.
    + apply bool_decide_eq_true_1 in Ec.
      by rewrite (bool_decide_eq_true_2 (q ∈ group ++ concat groups))
        by (apply elem_of_app; by right).
    + apply bool_decide_eq_false_1 in Ec.
      rewrite (bool_decide_eq_false_2 (q ∈ group ++ concat groups)); [done|].
      intros [?|?]%elem_of_app; contradiction.
Qed.

End ParamGroups.

(** ** [top_k_logits] of generate_samples.py, with [top_p = 0.0]

    A logit is a rational or the [filter_value] minus infinity. *)

Module TopK.

Inductive logit :=
| NegInf
| Fin (q : Q).

Definition leb (x y : logit) : bool :=
  match x, y with
  | NegInf, _ => true
  | Fin _, NegInf => false
  | Fin a, Fin b => Qle_bool a b
  end.

(** [x < y] on tensors cells *)
Definition ltb (x y : logit) : bool := negb (leb y x).

(** The descending order of [torch.topk]. *)
Definition ge (x y : logit) : Prop := leb y x = true.

#[local] Instance ge_dec (x y : logit) : Decision (ge x y).
Proof. unfold ge. apply _. Defined.

(** [torch.topk(row, k)[0]]: the [k] largest cells, largest first. *)
Definition topk (k : nat) (row : list logit) : list logit :=
  take k (merge_sort ge row).

(** [logits[logits < topk[..., -1, None]] = filter_value] on one row. *)
Definition filter_row (top_k : Z) (row : list logit) : list logit :=
  match last (topk (Z.to_nat top_k) row) with
  | Some kth => (fun x => if ltb x kth then NegInf else x) <$> row
  | None => row
  end.

(** [torch.topk] raises when [k] exceeds the size of the last
    dimension. *)
Definition top_k_logits (logits : list (list logit)) (top_k : Z)
  : result (list (list logit)) :=
  if 0 <? top_k then
    if existsb (fun row => Z.of_nat (length row) <? top_k) logits
    then Err RuntimeError
    else Ok (filter_row top_k <$> logits)
  else Ok logits.

Lemma leb_refl x : leb x x = true.
Proof. destruct x as [|a]; simpl; [done|]. apply Qle_bool_iff, Qle_refl. Qed.

#[local] Instance ge_total : Total ge.
Proof.
  intros [|a] [|b]; unfold ge; simpl; auto.
  destruct (Qlt_le_dec a b) as [Hlt|Hle].
  - right. apply Qle_bool_iff. by apply Qlt_le_weak.
  - left. by apply Qle_bool_iff.
Qed.

#[local] Instance ge_trans : Transitive ge.
Proof.
  intros [|a] [|b] [|c]; unfold ge; simpl; auto; try discriminate.
  rewrite !Qle_bool_iff. intros H1 H2. by eapply Qle_trans.
Qed.

Lemma filter_none {A} (P : A → Prop) `{∀ x, Decision (P x)} (l : list A) :
  Forall (fun x => ¬ P x) l → filter P l = [].
Proof.
  induction 1 as [|x l Hx Hall IH]; [done|].
  rewrite filter_cons. by destruct (decide (P x)).
Qed.

Lemma filter_all {A} (P : A → Prop) `{∀ x, Decision (P x)} (l : list A) :
  Forall P l → filter P l = l.
Proof.
  induction 1 as [|x l Hx Hall IH]; [done|].
  rewrite filter_cons. destruct (decide (P x)); [by rewrite IH|contradiction].
Qed.

(** The [k]-th cell of a sorted row splits it. *)
Lemma kth_of_sorted (k : nat) (sorted : list logit) :
  StronglySorted ge sorted → (1 <= k <= length sorted)%nat →
  ∃ kth, last (take k sorted) = Some kth
         ∧ sorted = take (k - 1) sorted ++ kth :: drop k sorted
         ∧ Forall (fun x => leb kth x = true) (take (k - 1) sorted)
         ∧ Forall (fun y => leb y kth = true) (kth :: drop k sorted).
Proof.
  intros Hs Hk.
  destruct (lookup_lt_is_Some_2 sorted (k - 1)) as [kth Hkth]; [lia|].
  exists kth.
  assert (Hsplit : sorted = take (k - 1) sorted ++ kth :: drop k sorted).
  { rewrite <- (take_drop_middle sorted (k - 1) kth Hkth) at 1.
    do 3 f_equal. lia. }
  split.
  { rewrite last_lookup, length_take, Nat.min_l by lia.
    rewrite lookup_take_lt by lia. by replace (pred k) with (k - 1)%nat by lia. }
  split; [exact Hsplit|].
  rewrite Hsplit in Hs. split.
  - apply Forall_forall. intros x Hx.
    apply (StronglySorted_app_1_elem_of _ _ _ x kth Hs Hx). by left.
  - apply StronglySorted_app_1_r in Hs. inversion Hs as [|? ? _ Hall]; subst.
    constructor; [apply leb_refl|exact Hall].
Qed.

(** X22: with [0 < top_k] at most the size of the rows (and
    [top_p = 0.0]), [top_k_logits] returns, and in every row it has
    replaced by minus infinity exactly the cells below a cell [kth] of
    the row that has fewer than [top_k] cells above it and at least
    [top_k] cells not below it: the [top_k] largest logits survive,
    with the ties of the smallest of them. *)
Theorem top_k_keeps_the_largest (logits : list (list logit)) (top_k : Z) :
  0 < top_k →
  Forall (fun row => top_k <= Z.of_nat (length row)) logits →
  ∃ out,
    top_k_logits logits top_k = Ok out
    ∧ length out = length logits
    ∧ ∀ b row,
        logits !! b = Some row →
        ∃ kth,
          kth ∈ row
          ∧ out !! b = Some ((fun x => if ltb x kth then NegInf else x) <$> row)
          ∧ top_k <= Z.of_nat (length (filter (fun x => ltb x kth = false) row))
          ∧ Z.of_nat (length (filter (fun x => ltb kth x = true) row)) < top_k.
Proof.
  intros Hk Hall. unfold top_k_logits.
  apply Z.ltb_lt in Hk as Hk'. rewrite Hk'.
  assert (Hshort : existsb (fun row => Z.of_nat (length row) <? top_k) logits = false).
  { apply not_true_is_false. intros Hex.
    apply existsb_exists in Hex as (row & Hin & Hlt).
    apply Z.ltb_lt in Hlt. rewrite Forall_forall in Hall.
    apply list_elem_of_In in Hin. specialize (Hall row Hin). lia. }
  rewrite Hshort. eexists. split; [reflexivity|].
  split; [by rewrite length_fmap|].
  intros b row Hb. rewrite list_lookup_fmap, Hb. simpl.
  assert (Hlen : top_k <= Z.of_nat (length row)).
  { rewrite Forall_forall in Hall. apply Hall. by eapply list_elem_of_lookup_2. }
  set (k := Z.to_nat top_k). set (sorted := merge_sort ge row).
  assert (Hperm : sorted ≡ₚ row) by apply merge_sort_Permutation.
  assert (Hsorted : StronglySorted ge sorted)
    by (apply StronglySorted_merge_sort; apply _).
  destruct (kth_of_sorted k sorted Hsorted) as (kth & Hlast & Hsplit & Habove & Hbelow).
  { rewrite (Permutation_length Hperm). lia. }
  exists kth. unfold filter_row, topk. fold k sorted. rewrite Hlast.
  split.
  { rewrite <- Hperm, Hsplit. apply elem_of_app. right. by left. }
  split; [reflexivity|].
  assert (Hk1 : length (take (k - 1) sorted) = (k - 1)%nat).
  { rewrite length_take. rewrite (Permutation_length Hperm). lia. }
  split.
  - rewrite <- Hperm, Hsplit, filter_app, length_app, filter_cons.
    rewrite (filter_all _ (take (k - 1) sorted)).
    + destruct (decide (ltb kth kth = false)) as [_|Hn].
      * simpl. lia.
      * exfalso. apply Hn. unfold ltb. by rewrite leb_refl.
    + eapply Forall_impl; [exact Habove|]. intros x Hx. unfold ltb. by rewrite Hx.
  - rewrite <- Hperm, Hsplit, filter_app, length_app.
    rewrite (filter_none _ (kth :: drop k sorted)).
    + pose proof (length_filter (fun x => ltb kth x = true) (take (k - 1) sorted)).
      simpl. lia.
    + eapply Forall_impl; [exact Hbelow|]. intros y Hy. unfold ltb. by rewrite Hy.
Qed.

Lemma top_k_keeps_the_largest_witness :
  ∃ out,
    top_k_logits [[Fin 3; Fin 1; Fin 2; Fin 2; Fin 0]] 2 = Ok out
    ∧ length out = length [[Fin 3; Fin 1; Fin 2; Fin 2; Fin 0]]
    ∧ ∀ b row,
        [[Fin 3; Fin 1; Fin 2; Fin 2; Fin 0]] !! b = Some row →
        ∃ kth,
          kth ∈ row
          ∧ out !! b = Some ((fun x => if ltb x kth then NegInf else x) <$> row)
          ∧ 2 <= Z.of_nat (length (filter (fun x => ltb x kth = false) row))
          ∧ Z.of_nat (length (filter (fun x => ltb kth x = true) row)) < 2.
Proof.
  apply (top_k_keeps_the_largest [[Fin 3; Fin 1; Fin 2; Fin 2; Fin 0]] 2); [lia|].
  repeat constructor. simpl. lia.
Defined.

End TopK.
